(** * don-highlights: text index, highlight renderer and cursor

    A shallow embedding of [src/TextContent.js], [src/HighlightRenderer.js]
    and [src/Cursor.js], and the properties of the specification that are
    stated about them; then of [Finder.getAt_], [TextFinder.next] and
    [createHighlighter], which use them, with further properties of all of
    these.

    - JavaScript numbers that hold offsets and indices are integers ([Z]).
    - A JavaScript string is the list of its code units.
    - Objects that the code shares and mutates (the marker descriptors) live
      in a store and are named by reference.
    - A [throw] ends a call; the state is the one reached when it fired. *)

From stdpp Require Import base option list strings pretty gmap.
From Stdlib Require Import ZArith Ascii Lia.

Set Warnings "-register-all".
Local Open Scope Z_scope.

(** ** JavaScript values *)

Abbreviation jsstring := (list ascii).

(** What a call can end with: [new Error(message)] or the [TypeError] of a
    property read on [undefined] or [null]. *)
Inductive exn : Type :=
| JsError (message : string)
| JsTypeError.

Inductive completion (A : Type) : Type :=
| Normal (value : A)
| Throw (e : exn).
Arguments Normal {A} value.
Arguments Throw {A} e.

(** [s.length] *)
Definition jslength (s : jsstring) : Z := Z.of_nat (length s).

(** [s.substr(start, len)] and [s.substr(start)], for [0 <= start]. *)
Definition js_substr (s : jsstring) (start len : Z) : jsstring :=
  take (Z.to_nat len) (drop (Z.to_nat start) s).

Definition js_substr_from (s : jsstring) (start : Z) : jsstring :=
  drop (Z.to_nat start) s.

(** [arr[i]]: [undefined] out of range. *)
Definition array_get {A : Type} (arr : list A) (i : Z) : option A :=
  if i <? 0 then None else arr !! Z.to_nat i.

(** [arr.splice(i, 0, x)], for [0 <= i]: beyond the end the element is
    appended. *)
Definition splice_insert {A : Type} (arr : list A) (i : Z) (x : A) : list A :=
  take (Z.to_nat i) arr ++ x :: drop (Z.to_nat i) arr.

(** ** Calls that read and write a state and may throw *)

Section StateExn.
Context {St : Type}.

Definition M (A : Type) : Type := St -> completion A * St.

Definition ret {A : Type} (a : A) : M A := fun s => (Normal a, s).

Definition bind {A B : Type} (c : M A) (k : A -> M B) : M B :=
  fun s => match c s with
           | (Normal a, s') => k a s'
           | (Throw e, s') => (Throw e, s')
           end.

Definition throw {A : Type} (e : exn) : M A := fun s => (Throw e, s).

Definition gets {A : Type} (f : St -> A) : M A := fun s => (Normal (f s), s).

Definition modify (f : St -> St) : M unit := fun s => (Normal tt, f s).

(** A read that gave [undefined] or [null], followed by a property access. *)
Definition defined {A : Type} (o : option A) : M A :=
  match o with
  | Some a => ret a
  | None => throw JsTypeError
  end.

(** A call that only reads the state. *)
Definition pure_call {A : Type} (f : St -> completion A) : M A :=
  fun s => (f s, s).
End StateExn.

Notation "'let!' x ':=' c 'in' k" := (bind c (fun x => k))
  (at level 10, x name, c at level 100, k at level 200).
Notation "'do' c 'then' k" := (bind c (fun _ => k))
  (at level 10, c at level 100, k at level 200).

(** ** The document tree *)

Module Dom.

(** A text node: its identity and its [nodeValue].  No code of the repository
    assigns to [nodeValue]; a text node is replaced, never edited. *)
Record TextNode : Type := mkText { nid : nat; nodeValue : jsstring }.

(** [nodeType === 3] is [Text]; [dhHighlight] is [dataset.dhHighlight === 'true']. *)
Inductive Node : Type :=
| Text (t : TextNode)
| Element (eid : nat) (tagName : string) (dhHighlight : bool) (childNodes : list Node).

Definition node_id (n : Node) : nat :=
  match n with
  | Text t => nid t
  | Element i _ _ _ => i
  end.

(** Identities of a subtree, in document order. *)
Fixpoint ids (n : Node) : list nat :=
  match n with
  | Text t => [nid t]
  | Element i _ _ ch => i :: concat (map ids ch)
  end.

(** Text nodes of a subtree, in document order. *)
Fixpoint text_nodes (n : Node) : list TextNode :=
  match n with
  | Text t => [t]
  | Element _ _ _ ch => concat (map text_nodes ch)
  end.

(** [node.textContent] *)
Definition textContent (n : Node) : jsstring :=
  concat (map nodeValue (text_nodes n)).

(** The one edit every mutation of the tree comes down to: find the first
    node, in document order, that has a child with identity [ref], and put
    [g child] in the place of that child.  [None]: no node has such a child
    ([ref.parentNode] is [null]).  [replace_in] looks through a list of
    children, [inside] being the search below one of them. *)
Definition replace_in (inside : Node -> option Node) (ref : nat) (g : Node -> list Node)
  : list Node -> option (list Node) :=
  fix go (l : list Node) : option (list Node) :=
    match l with
    | [] => None
    | c :: r =>
        if Nat.eqb (node_id c) ref then Some (g c ++ r)
        else match inside c with
             | Some c' => Some (c' :: r)
             | None => match go r with
                       | Some r' => Some (c :: r')
                       | None => None
                       end
             end
    end.

Fixpoint replace_child (ref : nat) (g : Node -> list Node) (n : Node) : option Node :=
  match n with
  | Text _ => None
  | Element i tag hl ch =>
      match replace_in (replace_child ref g) ref g ch with
      | Some ch' => Some (Element i tag hl ch')
      | None => None
      end
  end.

(** [parent.insertBefore(node, ref)] with [parent = ref.parentNode]. *)
Definition insert_before (node : Node) (ref : nat) (root : Node) : option Node :=
  replace_child ref (fun c => [node; c]) root.

(** [parent.insertBefore(node, ref.nextSibling)] with [parent = ref.parentNode]. *)
Definition insert_after (node : Node) (ref : nat) (root : Node) : option Node :=
  replace_child ref (fun c => [c; node]) root.

(** [old.parentNode.removeChild(old)] *)
Definition remove_child (old : nat) (root : Node) : option Node :=
  replace_child old (fun _ => []) root.

(** [parent.appendChild(node)] for a [node] that is in no tree. *)
Definition append_to (parent : nat) (node : Node) (root : Node) : option Node :=
  replace_child parent
    (fun p => match p with
              | Element i tag hl ch => [Element i tag hl (ch ++ [node])]
              | Text _ => [p]
              end) root.

(** The first node with identity [i], in document order. *)
Definition find_in (inside : Node -> option Node) : list Node -> option Node :=
  fix go (l : list Node) : option Node :=
    match l with
    | [] => None
    | c :: r => match inside c with
                | Some x => Some x
                | None => go r
                end
    end.

Fixpoint find_node (i : nat) (n : Node) : option Node :=
  if Nat.eqb (node_id n) i then Some n
  else match n with
       | Text _ => None
       | Element _ _ _ ch => find_in (find_node i) ch
       end.

(** Identities of a list of subtrees, in document order. *)
Definition ids_of (l : list Node) : list nat := concat (map ids l).

(** Where a node sits in a tree: at the root, or below a child of the
    root that has siblings before and after it. *)
Inductive Path : Type :=
| Here
| Below (eid : nat) (tagName : string) (dhHighlight : bool)
    (before : list Node) (inner : Path) (after : list Node).

(** The tree with [n] at the place that [p] names. *)
Fixpoint plug (p : Path) (n : Node) : Node :=
  match p with
  | Here => n
  | Below i tag hl before inner after =>
      Element i tag hl (before ++ plug inner n :: after)
  end.

(** Identities of the nodes around the place that [p] names. *)
Fixpoint path_ids (p : Path) : list nat :=
  match p with
  | Here => []
  | Below i _ _ before inner after =>
      i :: ids_of before ++ path_ids inner ++ ids_of after
  end.

(** Text nodes before and after the place that [p] names, in document order. *)
Fixpoint texts_before (p : Path) : list TextNode :=
  match p with
  | Here => []
  | Below _ _ _ before inner _ => concat (map text_nodes before) ++ texts_before inner
  end.

Fixpoint texts_after (p : Path) : list TextNode :=
  match p with
  | Here => []
  | Below _ _ _ _ inner after => texts_after inner ++ concat (map text_nodes after)
  end.

(** Identities are unique in the tree and below the counter that new nodes
    take theirs from. *)
Definition tree_ok (fresh : nat) (root : Node) : Prop :=
  NoDup (ids root) /\ Forall (fun i => (i < fresh)%nat) (ids root).

(** [node.parentNode] is not [null], for the node with identity [i]. *)
Definition parented (i : nat) (root : Node) : Prop :=
  is_Some (replace_child i (fun c => [c]) root).

End Dom.

(** ** TextContent.js *)

Module TextContent.
Import Dom.

(** [Marker = {| node: Node, offset: number |}].  Only text nodes are ever
    stored: [_visit] records a node under [nodeType === 3] and [truncate]
    stores the results of [document.createTextNode]. *)
Record Marker : Type := mkMarker { node : TextNode; offset : Z }.

(** The object of class [TextContent], with what it reaches: the marker
    objects (shared with range descriptors, hence a store of them, named by
    reference), the tree under [root], the counter that
    [document.createTextNode] and [document.createElement] draw fresh
    identities from, and [process.env.NODE_ENV]. *)
Record State : Type := mkState {
  root : Node;
  text : jsstring;
  markers : list nat;
  store : list Marker;
  next_id : nat;
  node_env : string;
}.

Definition IGNORE_TAGNAMES : gset string :=
  {[ "HTML"; "HEAD"; "META"; "SCRIPT"; "STYLE"; "CANVAS"; "IFRAME"; "SVG";
     "AUDIO"; "VIDEO" ]}%string.

(** [this.markers[i]], through the reference. *)
Definition marker_at (s : State) (i : Z) : option Marker :=
  r ← array_get (markers s) i; store s !! r.

(** The [while (min < max)] loop of [indexOf].  An iteration shrinks
    [max - min], so [max - min] iterations are all it can take; see
    [indexOf_loop_unfold]. *)
Fixpoint indexOf_loop (fuel : nat) (s : State) (offset' : Z) (min max : Z)
  : completion Z :=
  match fuel with
  | O => Normal min
  | S fuel' =>
      if min <? max then
        let mid := (min + max) / 2 in
        match marker_at s mid with
        | None => Throw JsTypeError
        | Some m =>
            if offset m <? offset' then indexOf_loop fuel' s offset' (mid + 1) max
            else indexOf_loop fuel' s offset' min mid
        end
      else Normal min
  end.

Definition indexOf_while (s : State) (offset' : Z) (min max : Z) : completion Z :=
  indexOf_loop (Z.to_nat (max - min)) s offset' min max.

Definition indexOf (s : State) (offset' : Z) : completion Z :=
  let min := 0 in
  let max := Z.of_nat (length (markers s)) - 1 in
  match indexOf_while s offset' min max with
  | Throw e => Throw e
  | Normal min =>
      match marker_at s min with
      | None => Throw JsTypeError
      | Some m =>
          if offset m <=? offset' then Normal min
          else if min =? 0 then Throw (JsError "Invalid offset of text content state")
          else Normal (min - 1)
      end
  end.

(** [new TextContent(root)] and [dispose()] *)
Definition constructor (root' : Node) (next_id' : nat) (node_env' : string) : State :=
  {| root := root'; text := []; markers := []; store := [];
     next_id := next_id'; node_env := node_env' |}.

Definition dispose (s : State) : State :=
  {| root := root s; text := []; markers := []; store := store s;
     next_id := next_id s; node_env := node_env s |}.

Definition development (s : State) : bool :=
  String.eqb (node_env s) "development".

(** State updates the methods are made of. *)
Definition set_root (r : Node) (s : State) : State :=
  {| root := r; text := text s; markers := markers s; store := store s;
     next_id := next_id s; node_env := node_env s |}.

Definition set_text (t : jsstring) (s : State) : State :=
  {| root := root s; text := t; markers := markers s; store := store s;
     next_id := next_id s; node_env := node_env s |}.

Definition set_markers (l : list nat) (s : State) : State :=
  {| root := root s; text := text s; markers := l; store := store s;
     next_id := next_id s; node_env := node_env s |}.

Definition set_store (h : list Marker) (s : State) : State :=
  {| root := root s; text := text s; markers := markers s; store := h;
     next_id := next_id s; node_env := node_env s |}.

Definition set_next_id (i : nat) (s : State) : State :=
  {| root := root s; text := text s; markers := markers s; store := store s;
     next_id := i; node_env := node_env s |}.

(** An object literal [{ offset: ..., node: ... }]: a new marker object. *)
Definition new_marker (m : Marker) : M nat :=
  let! r := gets (fun s => length (store s)) in
  do modify (fun s => set_store (store s ++ [m]) s) then
  ret r.

(** [marker.offset] and [marker.node] of the object [r]. *)
Definition deref (r : nat) : M Marker :=
  let! o := gets (fun s => store s !! r) in defined o.

(** An assignment to a property of the object [r]. *)
Definition assign (r : nat) (f : Marker -> Marker) : M unit :=
  let! m := deref r in
  modify (fun s => set_store (<[r := f m]> (store s)) s).

(** [document.createTextNode(data)] *)
Definition createTextNode (data : jsstring) : M TextNode :=
  let! i := gets next_id in
  do modify (set_next_id (S i)) then
  ret {| nid := i; nodeValue := data |}.

(** A mutation of the tree; [TypeError] when the node has no parent. *)
Definition dom_edit (f : Node -> option Node) : M unit :=
  let! o := gets (fun s => f (root s)) in
  let! r := defined o in
  modify (set_root r).

(** Modelled from the spec: [dom.insertBefore(node, ref)] of [src/dom.js],
    which is not among the sources; it puts [node] in the tree right before
    [ref] and returns [node]. *)
Definition dom_insertBefore (n : TextNode) (ref : TextNode) : M TextNode :=
  do dom_edit (insert_before (Text n) (nid ref)) then ret n.

(** Modelled from the spec: [dom.insertAfter(node, ref)] of [src/dom.js],
    which is not among the sources; it puts [node] in the tree right after
    [ref] and returns [node]. *)
Definition dom_insertAfter (n : TextNode) (ref : TextNode) : M TextNode :=
  do dom_edit (insert_after (Text n) (nid ref)) then ret n.

(** [assert()]: the loop over [this.markers], the offset carried along.
    The [console.error] before the [throw] is not modelled. *)
Fixpoint assert_loop (l : list nat) (offset' : Z) : M unit :=
  match l with
  | [] => ret tt
  | r :: l' =>
      let! marker := deref r in
      if negb (offset marker =? offset') then
        throw (JsError "Halting due to invalid offset")
      else assert_loop l' (offset' + jslength (nodeValue (node marker)))
  end.

Definition assert : M unit :=
  let! l := gets markers in assert_loop l 0.

(** The loop of [_visit] over [node.childNodes]; [visit] is [_visit] on a
    child. *)
Definition visit_children (visit : Node -> Z -> @M State Z)
  : list Node -> Z -> @M State Z :=
  fix go (l : list Node) (offset' : Z) : @M State Z :=
    match l with
    | [] => ret offset'
    | c :: l' =>
        let! offset'' := visit c offset' in
        go l' offset''
    end.

(** [_visit(node, offset)].  [parent] is [node.parentElement.tagName], or
    [None] for a node without parent element. *)
Fixpoint _visit (parent : option string) (n : Node) (offset' : Z) : @M State Z :=
  match n with
  | Text t =>
      let content := nodeValue t in
      let length := jslength content in
      if length <? 1 then ret offset'
      else
        let! r := new_marker {| node := t; offset := offset' |} in
        do modify (fun s => set_markers (markers s ++ [r]) s) then
        let! tag := defined parent in
        do (if bool_decide (tag ∈ IGNORE_TAGNAMES) then
              modify (fun s => set_text (text s ++ replicate (Z.to_nat length) " "%char) s)
            else
              modify (fun s => set_text (text s ++ content) s)) then
        ret (offset' + length)
  | Element _ tag _ ch => visit_children (_visit (Some tag)) ch offset'
  end.

(** [parse()] *)
Definition parse : M unit :=
  do modify (set_text []) then
  do modify (set_markers []) then
  let! root' := gets root in
  let! offset' := _visit None root' 0 in
  let! dev := gets development in
  if dev then
    let! len := gets (fun s => Z.of_nat (length (markers s))) in
    if negb (len =? 0) then
      let! o := gets (fun s => marker_at s (len - 1)) in
      let! marker := defined o in
      if negb (offset' - jslength (nodeValue (node marker)) =? offset marker) then
        throw (JsError "Invalid state detected: offset mismatch")
      else ret tt
    else ret tt
  else ret tt.

(** [setRoot(root)] *)
Definition setRoot (r : Node) : M unit :=
  do modify (set_root r) then parse.

(** [truncate(marker, start, end)], its three commented blocks first;
    [marker] is the reference to the descriptor, [old] and [text'] are the
    constants [old] and [text] of the method. *)

(** "Chars 0..start - 1" *)
Definition truncate_head (marker : nat) (old : TextNode) (text' : jsstring)
  (start : Z) (index : Z) : M Z :=
  if start >? 0 then
    let! n := createTextNode (js_substr text' 0 start) in
    let! cur := deref marker in
    let! n' := dom_insertBefore n old in
    let! r := new_marker {| offset := offset cur; node := n' |} in
    do modify (fun s => set_markers (splice_insert (markers s) index r) s) then
    ret (index + 1)
  else ret index.

(** "Chars start..end" *)
Definition truncate_middle (marker : nat) (text' : jsstring) (start end' : Z)
  : M unit :=
  do assign marker (fun m => {| node := node m; offset := offset m + start |}) then
  let! n := createTextNode (js_substr text' start (end' - start + 1)) in
  let! cur := deref marker in
  let! n' := dom_insertBefore n (node cur) in
  assign marker (fun m => {| node := n'; offset := offset m |}).

(** "Chars end + 1..length" *)
Definition truncate_tail (marker : nat) (text' : jsstring) (start end' : Z)
  (index : Z) : M unit :=
  if negb (end' =? jslength text' - 1) then
    let! len := gets (fun s => Z.of_nat (length (markers s))) in
    if index >=? len then throw (JsError "Detected invalid index")
    else
      let! cur := deref marker in
      let! n := createTextNode (js_substr_from text' (end' + 1)) in
      let! n' := dom_insertAfter n (node cur) in
      let! r := new_marker {| offset := offset cur + end' - start + 1; node := n' |} in
      modify (fun s => set_markers (splice_insert (markers s) (index + 1) r) s)
  else ret tt.

Definition truncate (marker : nat) (start end' : Z) : M Z :=
  let! m := deref marker in
  let old := node m in
  let text' := nodeValue old in
  let! index := pure_call (fun s => indexOf s (offset m)) in
  if (start <? 0) || (end' <? 0) || (start >? end') then
    throw (JsError "Invalid truncation parameters")
  else if end' >=? jslength text' then
    throw (JsError "End offset overflow")
  else
    let! index := truncate_head marker old text' start index in
    do truncate_middle marker text' start end' then
    do truncate_tail marker text' start end' index then
    let! dev := gets development in
    do (if dev then assert else ret tt) then
    do dom_edit (remove_child (nid old)) then
    ret index.

(** The [for] loop of [find(element, start)]: [i] runs up to [l], the
    length of the array; [l - i] iterations are all it can take.  The test
    [this.markers[i].node === element] compares identities. *)
Fixpoint find_loop (fuel : nat) (s : State) (element : TextNode) (i l : Z)
  : completion Z :=
  match fuel with
  | O => Normal (-1)
  | S fuel' =>
      if i <? l then
        match marker_at s i with
        | None => Throw JsTypeError
        | Some m =>
            if Nat.eqb (nid (node m)) (nid element) then Normal i
            else find_loop fuel' s element (i + 1) l
        end
      else Normal (-1)
  end.

(** [find(element, start)]; [start == null] is [None]. *)
Definition find (s : State) (element : Node) (start : option Z) : completion Z :=
  match element with
  | Element _ _ _ _ => Normal (-1)
  | Text t =>
      let i := match start with None => 0 | Some i => i end in
      let l := Z.of_nat (length (markers s)) in
      find_loop (Z.to_nat (l - i)) s t i l
  end.

(** [at(index)]: the marker object [this.markers[index]], by reference. *)
Definition at_ (s : State) (index : Z) : completion (option nat) :=
  if (index <? 0) || (index >=? Z.of_nat (length (markers s))) then
    Throw (JsError "Invalid marker index")
  else Normal (array_get (markers s) index).

(** [substr(offset, len)] *)
Definition substr (s : State) (offset' len : Z) : completion jsstring :=
  if (offset' <? 0) || (offset' >=? jslength (text s)) then
    Throw (JsError "Invalid start offset")
  else if len <? 0 then Throw (JsError "Invalid length")
  else Normal (js_substr (text s) offset' len).

(** *** What the properties are stated with *)

(** [this.markers] as [assert] reads it: the objects behind the references. *)
Definition view_of (refs : list nat) (objects : list Marker) : option (list Marker) :=
  mapM (fun r => objects !! r) refs.

Definition view (s : State) : option (list Marker) :=
  view_of (markers s) (store s).

(** [marker.node.nodeValue.length] *)
Definition node_length (m : Marker) : Z := jslength (nodeValue (node m)).

(** The sum of the lengths of all marker nodes. *)
Definition total_length (l : list Marker) : Z :=
  foldr (fun m acc => node_length m + acc) 0 l.

(** Every adjacent pair: [markers[i+1].offset == markers[i].offset +
    length(markers[i].node)]. *)
Definition contiguous (l : list Marker) : Prop :=
  forall (i : nat) (a b : Marker),
    l !! i = Some a -> l !! S i = Some b -> offset b = offset a + node_length a.

(** Sorted ascending by offset. *)
Definition sorted (l : list Marker) : Prop :=
  forall (i j : nat) (a b : Marker),
    l !! i = Some a -> l !! j = Some b -> (i <= j)%nat -> offset a <= offset b.

(** What [assert] checks, as a proposition: the first offset is [o] and each
    marker starts where the one before it ends. *)
Fixpoint contiguous_from (o : Z) (l : list Marker) : Prop :=
  match l with
  | [] => True
  | m :: r => offset m = o /\ contiguous_from (o + node_length m) r
  end.

(** The state of the index that [parse] sets up and [truncate] keeps: the
    array holds distinct marker objects, they are contiguous from offset 0,
    no marker node is empty, and the flattened text is as long as the
    marker nodes together. *)
Record well_formed (s : State) (l : list Marker) : Prop := mkWf {
  wf_view : view s = Some l;
  wf_nodup : NoDup (markers s);
  wf_contiguous : contiguous_from 0 l;
  wf_nonempty : Forall (fun m => 0 < node_length m) l;
  wf_text : jslength (text s) = total_length l;
}.

(** The text nodes below a node, in pre-order, each with the tag name of
    its parent element; [parent] is the tag name of the parent of [n]. *)
Fixpoint texts_with_parent (parent : string) (n : Node) : list (string * TextNode) :=
  match n with
  | Text t => [(parent, t)]
  | Element _ tag _ ch => concat (map (texts_with_parent tag) ch)
  end.

Definition nonempty (p : string * TextNode) : bool :=
  negb (jslength (nodeValue p.2) <? 1).

(** What a text node under a parent with tag name [p.1] adds to the
    flattened text: its content, or as many spaces when the parent is never
    rendered. *)
Definition contribution (p : string * TextNode) : jsstring :=
  if bool_decide (p.1 ∈ IGNORE_TAGNAMES) then replicate (length (nodeValue p.2)) " "%char
  else nodeValue p.2.

(** Markers for a run of text nodes, the first at offset [o]. *)
Fixpoint markers_from (o : Z) (ts : list TextNode) : list Marker :=
  match ts with
  | [] => []
  | t :: r => {| node := t; offset := o |} :: markers_from (o + jslength (nodeValue t)) r
  end.

(** The text nodes [_visit] records: those that are not empty. *)
Definition recorded (parent : string) (n : Node) : list (string * TextNode) :=
  filter (fun p => nonempty p = true) (texts_with_parent parent n).

(** What [_visit] does for a node under a parent element: it records the
    non-empty text nodes below it, in order, in fresh marker objects, and
    appends their contributions to the text. *)
Definition visit_result (ts : list (string * TextNode)) (o : Z) (s s' : State) : Prop :=
  markers s' = markers s ++ seq (length (store s)) (length ts) /\
  store s' = store s ++ markers_from o (map snd ts) /\
  text s' = text s ++ concat (map contribution ts) /\
  root s' = root s /\ next_id s' = next_id s /\ node_env s' = node_env s.

(** What a [truncate] that runs to its end does to the tree: the edits of
    its blocks, one after the other.  [head] and [tail] are the nodes of the
    first and the third block, when these blocks run. *)
Definition truncate_dom (old : TextNode) (head : option TextNode) (middle : TextNode)
  (tail : option TextNode) (root0 : Node) : option Node :=
  root1 ← match head with
          | Some n => insert_before (Text n) (nid old) root0
          | None => Some root0
          end;
  root2 ← insert_before (Text middle) (nid old) root1;
  root3 ← match tail with
          | Some n => insert_after (Text n) (nid middle) root2
          | None => Some root2
          end;
  remove_child (nid old) root3.

(** The nodes [truncate] makes, for a marker [m] and fresh identities from
    [fresh] on, and the markers that take the place of [m]. *)
Definition head_node (m : Marker) (start : Z) (fresh : nat) : option TextNode :=
  if start >? 0 then
    Some {| nid := fresh; nodeValue := js_substr (nodeValue (node m)) 0 start |}
  else None.

Definition middle_node (m : Marker) (start end' : Z) (fresh : nat) : TextNode :=
  {| nid := (if start >? 0 then S fresh else fresh);
     nodeValue := js_substr (nodeValue (node m)) start (end' - start + 1) |}.

Definition tail_node (m : Marker) (start end' : Z) (fresh : nat) : option TextNode :=
  if negb (end' =? node_length m - 1) then
    Some {| nid := S (nid (middle_node m start end' fresh));
            nodeValue := js_substr_from (nodeValue (node m)) (end' + 1) |}
  else None.

Definition segment (m : Marker) (start end' : Z) (fresh : nat) : list Marker :=
  match head_node m start fresh with
  | Some n => [{| node := n; offset := offset m |}]
  | None => []
  end ++
  {| node := middle_node m start end' fresh; offset := offset m + start |} ::
  match tail_node m start end' fresh with
  | Some n => [{| node := n; offset := offset m + start + end' - start + 1 |}]
  | None => []
  end.

(** The arguments of a [truncate] call the specification calls valid: the
    marker is one of the index and [0 <= start <= end < length]. *)
Definition valid_call (s : State) (marker : nat) (start end' : Z) : Prop :=
  marker ∈ markers s /\
  exists m, store s !! marker = Some m /\
            0 <= start /\ start <= end' /\ end' < node_length m.

(** A freshly parsed index, and an index after any number of valid
    [truncate] calls on one, whatever they ended with. *)
Inductive reachable : State -> Prop :=
| reach_parse (s0 : State) :
    fst (parse s0) = Normal tt ->
    reachable (snd (parse s0))
| reach_truncate (s : State) (marker : nat) (start end' : Z) :
    reachable s ->
    valid_call s marker start end' ->
    reachable (snd (truncate marker start end' s)).

(** Runs the calls of this module as far as they go without a case
    distinction. *)
Ltac run :=
  cbn [bind gets modify ret throw defined pure_call createTextNode new_marker
       deref assign dom_edit dom_insertBefore dom_insertAfter
       root text markers store next_id node_env
       set_root set_text set_markers set_store set_next_id fst snd].

(** *** A document to run the code on *)

Definition js (s : string) : jsstring := String.list_ascii_of_string s.

(** [<p>Positive <script>x();</script>(empty text) match</p>] *)
Definition sample_root : Node :=
  Element 0 "P" false
    [Text {| nid := 1; nodeValue := js "Positive " |};
     Element 2 "SCRIPT" false [Text {| nid := 3; nodeValue := js "x();" |}];
     Text {| nid := 4; nodeValue := [] |};
     Text {| nid := 5; nodeValue := js " match" |}].

Definition sample_index : State :=
  snd (parse (constructor sample_root 6 "development")).

(** [<p>(empty text)<b></b></p>]: no text to index. *)
Definition blank_root : Node :=
  Element 0 "P" false [Text {| nid := 1; nodeValue := [] |}; Element 2 "B" false []].

End TextContent.

(** ** Ranges and highlights *)

Module Highlight.

(** [RangeDescriptor = { marker: Marker, offset: number }]; the marker is
    the object the text index holds, not a copy. *)
Record RangeDescriptor : Type := mkDescriptor { marker : nat; offset : Z }.

Record TextRange : Type := mkRange { start : RangeDescriptor; end' : RangeDescriptor }.

(** [elements] are the wrapper elements, by identity. *)
Record Highlight : Type := mkHighlight {
  id : string;
  queryName : string;
  range : TextRange;
  elements : list nat;
}.

(** Modelled from the spec: [TextRange.clearStartOffset()] of
    [src/TextRange.js], which is not among the sources; after wrapping, the
    range's start-offset bookkeeping is cleared. *)
Definition clearStartOffset (r : TextRange) : TextRange :=
  {| start := {| marker := marker (start r); offset := 0 |}; end' := end' r |}.

Definition with_range (h : Highlight) (r : TextRange) : Highlight :=
  {| id := id h; queryName := queryName h; range := r; elements := elements h |}.

End Highlight.

(** ** HighlightRenderer.js *)

Module HighlightRenderer.
Import Dom.

(** The renderer's [content], and the calls [decorate(elements, highlight)]
    the decorator has received, oldest first. *)
Record State : Type := mkState {
  content : TextContent.State;
  decorated : list (list nat * Highlight.Highlight);
}.

(** A method of [this.content]. *)
Definition on_content {A : Type} (c : @M TextContent.State A) : @M State A :=
  fun s => match c (content s) with
           | (r, c') => (r, {| content := c'; decorated := decorated s |})
           end.

Definition decorator_decorate (elements : list nat) (h : Highlight.Highlight)
  : @M State unit :=
  modify (fun s => {| content := content s;
                      decorated := decorated s ++ [(elements, h)] |}).

(** [isHighlight(node)] *)
Definition isHighlight (n : Node) : bool :=
  match n with
  | Text _ => false
  | Element _ _ hl _ => hl
  end.

(** [_createHighlightElement(node)]: a new [span], stamped, put before
    [node]; [appendChild] then moves [node] out of its parent and into the
    [span].  The result is the identity of the [span]. *)
Definition _createHighlightElement (n : TextNode) : @M State nat :=
  on_content (
    let! i := gets TextContent.next_id in
    do modify (TextContent.set_next_id (S i)) then
    let span := Element i "SPAN" true [] in
    do TextContent.dom_edit (insert_before span (nid n)) then
    do TextContent.dom_edit (remove_child (nid n)) then
    do TextContent.dom_edit (append_to i (Text n)) then
    ret i).

(** [_surround(descr, start, end)]; [end == null] is [None]. *)
Definition _surround (descr : Highlight.RangeDescriptor) (start : Z) (end' : option Z)
  : @M State nat :=
  let! m := on_content (TextContent.deref (Highlight.marker descr)) in
  let! _ := on_content (TextContent.truncate (Highlight.marker descr) start
              (match end' with
               | None => jslength (nodeValue (TextContent.node m)) - 1
               | Some e => e
               end)) in
  let! m' := on_content (TextContent.deref (Highlight.marker descr)) in
  _createHighlightElement (TextContent.node m').

(** [_surroundWhole(node)] *)
Definition _surroundWhole (n : TextNode) : @M State nat :=
  _createHighlightElement n.

(** Modelled from the spec: [TextNodeVisitor] of [src/TextNodeVisitor.js],
    which is not among the sources; it traverses the tree in document order
    from the start node, and [next()] gives the following text node.
    [following start root] are the text nodes [next()] gives in turn. *)
Fixpoint after (i : nat) (l : list TextNode) : list TextNode :=
  match l with
  | [] => []
  | t :: r => if Nat.eqb (nid t) i then r else after i r
  end.

Definition following (start : TextNode) (root : Node) : list TextNode :=
  after (nid start) (text_nodes root).

(** [while (visitor.next() !== end) coll.push(visitor.current)].  [None]:
    the visitor passes the last text node without meeting [end], which the
    source assumes away (its TODO) and where the loop does not end. *)
Fixpoint collect (end_ : TextNode) (nexts : list TextNode) : option (list TextNode) :=
  match nexts with
  | [] => None
  | t :: r =>
      if Nat.eqb (nid t) (nid end_) then Some []
      else match collect end_ r with
           | Some coll => Some (t :: coll)
           | None => None
           end
  end.

(** [coll.forEach(n => elements.push(this._surroundWhole(n)))] *)
Fixpoint surround_each (coll : list TextNode) : @M State (list nat) :=
  match coll with
  | [] => ret []
  | n :: r =>
      let! e := _surroundWhole n in
      let! es := surround_each r in
      ret (e :: es)
  end.

(** [surround(highlight)].  The highlight that [decorate] receives is the
    one whose range has had its start offset cleared.  [None] is the loop
    that does not end. *)
Definition surround (highlight : Highlight.Highlight) (s : State)
  : option (completion (list nat) * State) :=
  let rangeStart := Highlight.start (Highlight.range highlight) in
  let rangeEnd := Highlight.end' (Highlight.range highlight) in
  let cleared := Highlight.with_range highlight
                   (Highlight.clearStartOffset (Highlight.range highlight)) in
  match TextContent.store (content s) !! Highlight.marker rangeStart,
        TextContent.store (content s) !! Highlight.marker rangeEnd with
  | Some ms, Some me =>
      if Nat.eqb (nid (TextContent.node ms)) (nid (TextContent.node me)) then
        Some ((let! e := _surround rangeStart (Highlight.offset rangeStart)
                           (Some (Highlight.offset rangeEnd)) in
               let elements := [e] in
               do decorator_decorate elements cleared then
               ret elements) s)
      else
        match collect (TextContent.node me)
                (following (TextContent.node ms) (TextContent.root (content s))) with
        | None => None
        | Some coll =>
            Some ((let! e1 := _surround rangeStart (Highlight.offset rangeStart) None in
                   let! es := surround_each coll in
                   let! e3 := _surround rangeEnd 0 (Some (Highlight.offset rangeEnd)) in
                   let elements := e1 :: es ++ [e3] in
                   do decorator_decorate elements cleared then
                   ret elements) s)
        end
  | _, _ => Some (Throw JsTypeError, s)
  end.

(** [decorate(highlight)] *)
Definition decorate (highlight : Highlight.Highlight) : @M State unit :=
  decorator_decorate (Highlight.elements highlight) highlight.

(** *** What the properties are stated with *)

(** A wrapper element, as [_createHighlightElement] makes it. *)
Definition wrapper (e : nat) (n : TextNode) : Node := Element e "SPAN" true [Text n].

(** The text between offset [so] of the text node [ta] and offset [eo] of
    the text node [tc], both included, with [tb] between the two nodes. *)
Definition spanned (ta tb tc : TextNode) (so eo : Z) : jsstring :=
  drop (Z.to_nat so) (nodeValue ta) ++ nodeValue tb
  ++ take (Z.to_nat (eo + 1)) (nodeValue tc).

(** *** A document to run the code on *)

(** [<div><p>abc<br>def<i></i>ghi</p></div>], parsed; a highlight from
    offset 1 of "abc" to offset 1 of "ghi". *)
Definition three_root : Node :=
  Element 0 "DIV" false
    [Element 1 "P" false
       [Text {| nid := 2; nodeValue := TextContent.js "abc" |};
        Element 3 "BR" false [];
        Text {| nid := 4; nodeValue := TextContent.js "def" |};
        Element 5 "I" false [];
        Text {| nid := 6; nodeValue := TextContent.js "ghi" |}]].

Definition three_state : State :=
  {| content := snd (TextContent.parse (TextContent.constructor three_root 7 "development"));
     decorated := [] |}.

Definition three_highlight : Highlight.Highlight :=
  {| Highlight.id := "h1"; Highlight.queryName := "q";
     Highlight.range :=
       {| Highlight.start := {| Highlight.marker := 0; Highlight.offset := 1 |};
          Highlight.end' := {| Highlight.marker := 2; Highlight.offset := 1 |} |};
     Highlight.elements := [] |}.

End HighlightRenderer.

(** ** Cursor.js *)

Module Cursor.

(** A [scrollTo] callback, as far as [set] can tell: called on an element it
    returns, or it throws [x]. *)
Definition ScrollToCallback : Type := nat -> option exn.

(** What the cursor does to its collaborators: events it emits, calls of the
    decorator, of the callback, of [scrollIntoView] and of [console.error]. *)
Inductive Event : Type :=
| EmitClear
| EmitSetiterable (queries : option (list string))
| EmitUpdate (index total : Z)
| SetActive (h : Highlight.Highlight)
| SetInactive (h : Highlight.Highlight)
| CallScrollTo (element : nat)
| ScrollIntoView (element : nat)
| ConsoleError (message : string) (x : exn).

(** The fields of the cursor; [highlights] is what [this.markers] holds, in
    order; [in_view] is what [dom.isInView] answers; [trace] is what the
    cursor has done so far, oldest first. *)
Record State : Type := mkState {
  index : Z;
  active : option Highlight.Highlight;
  iterableQueries : option (list string);
  total : Z;
  highlights : list Highlight.Highlight;
  in_view : nat -> bool;
  trace : list Event;
}.

Definition set_index (i : Z) (s : State) : State :=
  {| index := i; active := active s; iterableQueries := iterableQueries s;
     total := total s; highlights := highlights s; in_view := in_view s;
     trace := trace s |}.

Definition set_active (a : option Highlight.Highlight) (s : State) : State :=
  {| index := index s; active := a; iterableQueries := iterableQueries s;
     total := total s; highlights := highlights s; in_view := in_view s;
     trace := trace s |}.

Definition set_iterableQueries (q : option (list string)) (s : State) : State :=
  {| index := index s; active := active s; iterableQueries := q;
     total := total s; highlights := highlights s; in_view := in_view s;
     trace := trace s |}.

Definition set_total (t : Z) (s : State) : State :=
  {| index := index s; active := active s; iterableQueries := iterableQueries s;
     total := t; highlights := highlights s; in_view := in_view s;
     trace := trace s |}.

Definition log (e : Event) : @M State unit :=
  modify (fun s =>
    {| index := index s; active := active s; iterableQueries := iterableQueries s;
       total := total s; highlights := highlights s; in_view := in_view s;
       trace := trace s ++ [e] |}).

(** Modelled from the spec: the registry [HighlightMarkers] of
    [src/HighlightMarkers.js], which is not among the sources; it exposes an
    ordered, index-addressable view of the highlights filtered by an optional
    set of group names, and a count. *)
Definition selected (queries : option (list string)) (hs : list Highlight.Highlight)
  : list Highlight.Highlight :=
  match queries with
  | None => hs
  | Some names => filter (fun h => Highlight.queryName h ∈ names) hs
  end.

Definition markers_find (i : Z) (queries : option (list string))
  (hs : list Highlight.Highlight) : option Highlight.Highlight :=
  array_get (selected queries hs) i.

Definition markers_calculateTotalActive (queries : option (list string))
  (hs : list Highlight.Highlight) : Z :=
  Z.of_nat (length (selected queries hs)).

(** [clearActive_()] *)
Definition clearActive_ : @M State unit :=
  let! a := gets active in
  match a with
  | Some h =>
      do log (SetInactive h) then
      modify (set_active None)
  | None => ret tt
  end.

(** [update(force)] *)
Definition update (force : bool) : @M State unit :=
  let! total' := gets (fun s => markers_calculateTotalActive (iterableQueries s) (highlights s)) in
  let! old := gets total in
  if force || negb (total' =? old) then
    do modify (set_total total') then
    let! i := gets index in
    log (EmitUpdate i total')
  else ret tt.

(** [clear()] *)
Definition clear : @M State unit :=
  do clearActive_ then
  do modify (set_index (-1)) then
  do update true then
  log EmitClear.

(** [setIterableQueries(queries)]; a single name is given as a list of one. *)
Definition setIterableQueries (queries : option (list string)) : @M State unit :=
  do modify (set_iterableQueries queries) then
  do clear then
  log (EmitSetiterable queries).

(** [new Cursor(markers, decorator)] *)
Definition constructor (hs : list Highlight.Highlight) (view : nat -> bool)
  : completion unit * State :=
  setIterableQueries None
    {| index := -1; active := None; iterableQueries := None; total := 0;
       highlights := hs; in_view := view; trace := [] |}.

(** The body of [set(index, dontRecurse, scrollTo)]; [self] is [this.set].
    The message of the error has the index in decimal, which is how
    JavaScript prints an integer of magnitude below [10^21]. *)
Definition set_body (self : Z -> bool -> option ScrollToCallback -> @M State bool)
  (index' : Z) (dontRecurse : bool) (scrollTo : option ScrollToCallback)
  : @M State bool :=
  if index' <? 0 then
    throw (JsError ("Invalid cursor index specified: " +:+ pretty index'))
  else
    let! marker := gets (fun s => markers_find index' (iterableQueries s) (highlights s)) in
    match marker with
    | None =>
        if negb dontRecurse then self 0 true None
        else ret false
    | Some highlight =>
        do clearActive_ then
        let coll := Highlight.elements highlight in
        do (match coll with
            | first :: _ =>
                do modify (set_active (Some highlight)) then
                do log (SetActive highlight) then
                match scrollTo with
                | Some callback =>
                    do log (CallScrollTo first) then
                    match callback first with
                    | Some x => log (ConsoleError "failed to scroll to highlight:" x)
                    | None => ret tt
                    end
                | None =>
                    let! visible := gets (fun s => in_view s first) in
                    if negb visible then log (ScrollIntoView first)
                    else ret tt
                end
            | [] => ret tt
            end) then
        let! current := gets index in
        if current =? index' then ret false
        else
          do modify (set_index index') then
          let! total' := gets total in
          do log (EmitUpdate index' total') then
          ret true
    end.

(** [set]: the call from inside [set] passes [dontRecurse = true], so the
    call one level down makes none; see [set_unfold]. *)
Definition set : Z -> bool -> option ScrollToCallback -> @M State bool :=
  set_body (set_body (fun _ _ _ => ret false)).

(** [prev()] *)
Definition prev : @M State unit :=
  let! total' := gets total in
  if total' >? 0 then
    let! i := gets index in
    let! _ := set ((if i <? 1 then total' else i) - 1) false None in
    ret tt
  else ret tt.

(** [next()] *)
Definition next : @M State unit :=
  let! i := gets index in
  let! _ := set (i + 1) false None in
  ret tt.

(** *** A cursor to run the code on *)

Definition no_range : Highlight.TextRange :=
  {| Highlight.start := {| Highlight.marker := 0; Highlight.offset := 0 |};
     Highlight.end' := {| Highlight.marker := 0; Highlight.offset := 0 |} |}.

(** Three highlights of one query, wrapped in the elements 10, 11 and 12. *)
Definition sample_highlights : list Highlight.Highlight :=
  [ Highlight.mkHighlight "a" "q" no_range [10%nat];
    Highlight.mkHighlight "b" "q" no_range [11%nat];
    Highlight.mkHighlight "c" "q" no_range [12%nat] ].

(** A new cursor over them, every element being in view. *)
Definition sample_cursor : State :=
  snd (constructor sample_highlights (fun _ => true)).

(** A callback that throws. *)
Definition failing_callback : ScrollToCallback := fun _ => Some (JsError "no scrolling").

(** *** The decorator's view of the cursor *)

(** The calls [setActive] and [setInactive] of a trace are in step with one
    highlight being active at a time: with [cur] active at the start,
    [setActive] comes only when none is active, [setInactive(h)] only when
    [h] is the active one, and [final] is active at the end. *)
Fixpoint in_step (cur : option Highlight.Highlight) (tr : list Event)
  (final : option Highlight.Highlight) : Prop :=
  match tr with
  | [] => cur = final
  | SetActive h :: r => cur = None /\ in_step (Some h) r final
  | SetInactive h :: r => cur = Some h /\ in_step None r final
  | _ :: r => in_step cur r final
  end.

(** What can happen to a cursor: a call of one of its methods, or the
    registry emitting "update" after a change of its highlights, which the
    listener of the constructor answers with [this.update()]. *)
Inductive Call : Type :=
| CallClear
| CallSetIterableQueries (queries : option (list string))
| CallUpdate (force : bool)
| CallSet (index' : Z) (dontRecurse : bool) (scrollTo : option ScrollToCallback)
| CallPrev
| CallNext
| RegistryUpdate (hs : list Highlight.Highlight).

Definition set_highlights (hs : list Highlight.Highlight) (s : State) : State :=
  {| index := index s; active := active s; iterableQueries := iterableQueries s;
     total := total s; highlights := hs; in_view := in_view s; trace := trace s |}.

(** The state after a call, whether it returned or threw. *)
Definition perform (s : State) (c : Call) : State :=
  match c with
  | CallClear => snd (clear s)
  | CallSetIterableQueries q => snd (setIterableQueries q s)
  | CallUpdate force => snd (update force s)
  | CallSet i d cb => snd (set i d cb s)
  | CallPrev => snd (prev s)
  | CallNext => snd (next s)
  | RegistryUpdate hs => snd (update false (set_highlights hs s))
  end.


(** What [set] tells the decorator, the callback and the page about a
    highlight [h], from a state [s]. *)
Definition activation (cb : option ScrollToCallback) (s : State) (h : Highlight.Highlight)
  : list Event :=
  match Highlight.elements h with
  | [] => []
  | first :: _ =>
      SetActive h ::
      match cb with
      | Some callback =>
          CallScrollTo first ::
          match callback first with
          | Some x => [ConsoleError "failed to scroll to highlight:" x]
          | None => []
          end
      | None => if in_view s first then [] else [ScrollIntoView first]
      end
  end.

Definition deactivation (s : State) : list Event :=
  match active s with
  | Some a => [SetInactive a]
  | None => []
  end.

(** The cursor's [total] is the registry's count, as it is after every
    [update] that the registry's "update" event sets off. *)
Definition in_sync (s : State) : Prop :=
  total s = markers_calculateTotalActive (iterableQueries s) (highlights s).

End Cursor.

(** ** Finder.js and TextFinder.js: from a hit in the text to a range *)

Module Finder.
Import Dom.

(** Modelled from the spec: [TextRange.descriptorAbs(marker, offset)] of
    [src/TextRange.js], which is not among the sources; a range descriptor
    is a position expressed as an offset from the start of its marker's
    node, so the offset of the marker is taken off the offset in the text.
    [marker] is the reference to the marker object [m]. *)
Definition descriptorAbs (marker : nat) (m : TextContent.Marker) (offset' : Z)
  : Highlight.RangeDescriptor :=
  {| Highlight.marker := marker; Highlight.offset := offset' - TextContent.offset m |}.

(** [getAt_(offset)]; [descriptorAbs] reads [marker.offset], a [TypeError]
    if [at] has returned [undefined]. *)
Definition getAt_ (c : TextContent.State) (offset' : Z)
  : completion Highlight.RangeDescriptor :=
  match TextContent.indexOf c offset' with
  | Throw e => Throw e
  | Normal index =>
      if index =? -1 then
        Throw (JsError ("Failed to retrieve marker for offset: " +:+ pretty offset'))
      else
        match TextContent.at_ c index with
        | Throw e => Throw e
        | Normal None => Throw JsTypeError
        | Normal (Some r) =>
            match TextContent.store c !! r with
            | Some m => Normal (descriptorAbs r m offset')
            | None => Throw JsTypeError
            end
        end
  end.

(** An entry of [results]: [{ length: match[0].length, index: match.index }]. *)
Record Match : Type := mkMatch { length : Z; index : Z }.

(** The fields of a [TextFinder]; [results] is what the constructor has
    found in the text. *)
Record State : Type := mkState {
  content : TextContent.State;
  results : list Match;
  current : Z;
}.

(** [next()] of [TextFinder]; [null] is [None].  [merge({}, start)] copies
    the descriptor, not the marker it refers to. *)
Definition next : @M State (option Highlight.TextRange) :=
  fun s =>
    if current s >=? Z.of_nat (List.length (results s)) then (Normal None, s)
    else
      match array_get (results s) (current s) with
      | None => (Throw JsTypeError, s)
      | Some hit =>
          match getAt_ (content s) (index hit) with
          | Throw e => (Throw e, s)
          | Normal start =>
              match TextContent.store (content s) !! Highlight.marker start with
              | None => (Throw JsTypeError, s)
              | Some m =>
                  let finish (end_ : Highlight.RangeDescriptor) :=
                    (Normal (Some {| Highlight.start := start; Highlight.end' := end_ |}),
                     {| content := content s; results := results s;
                        current := current s + 1 |}) in
                  if Highlight.offset start + length hit
                     <=? jslength (nodeValue (TextContent.node m)) then
                    finish {| Highlight.marker := Highlight.marker start;
                              Highlight.offset := Highlight.offset start + length hit - 1 |}
                  else
                    match getAt_ (content s) (index hit + length hit - 1) with
                    | Throw e => (Throw e, s)
                    | Normal end_ => finish end_
                    end
              end
          end
      end.

End Finder.

(** ** createHighlighter.js *)

Module CreateHighlighter.
Import Dom.

Section Construction.
(** Id generators and decorators, [new IdGenerator()] and
    [new HighlightDecorator()]. *)
Context {G D : Type} (new_IdGenerator : G) (new_HighlightDecorator : D).

(** [Options]; a property that is not there is [None]. *)
Record Options : Type := mkOptions {
  container : option Node;
  idGenerator : option G;
  decorator : option D;
}.

(** What [createHighlighter] can be called with: nothing ([undefined] or
    [null]), a value whose [typeof] is not ["object"], a node (it has a
    [nodeType]), or an options object (it has none). *)
Inductive Argument : Type :=
| Nothing
| NoObject
| ANode (n : Node)
| SomeOptions (o : Options).

(** The arguments [new DonHighlights(...)] is called with. *)
Record Highlighter : Type := mkHighlighter {
  h_container : Node;
  h_idGenerator : G;
  h_decorator : D;
}.

(** [createHighlighter(containerOrOptions)]; [body] is [document.body].
    [merge({}, defaultOptions, options)] leaves the properties of [options]
    as they are, [defaultOptions] having a [null] container only. *)
Definition createHighlighter (body : option Node) (containerOrOptions : Argument)
  : completion Highlighter :=
  match
    match containerOrOptions with
    | Nothing => Normal {| container := body; idGenerator := None; decorator := None |}
    | NoObject => Throw (JsError "Invalid options specified")
    | SomeOptions o => Normal o
    | ANode n => Normal {| container := Some n; idGenerator := None; decorator := None |}
    end
  with
  | Throw e => Throw e
  | Normal options =>
      match container options with
      | Some (Element i tag hl ch) =>
          Normal {| h_container := Element i tag hl ch;
                    h_idGenerator := default new_IdGenerator (idGenerator options);
                    h_decorator := default new_HighlightDecorator (decorator options) |}
      | _ => Throw (JsError "Container must be an HTML element node")
      end
  end.
End Construction.

End CreateHighlighter.

(* ------------------------------------------------------------------ *)
(** * Properties *)

(** ** Calls that read and write a state *)

Lemma bind_gets {St A B : Type} (f : St -> A) (k : A -> @M St B) (s : St) :
  bind (gets f) k s = k (f s) s.
Proof. reflexivity. Qed.

Lemma bind_modify {St B : Type} (f : St -> St) (k : unit -> @M St B) (s : St) :
  bind (modify f) k s = k tt (f s).
Proof. reflexivity. Qed.

Lemma bind_ret {St A B : Type} (a : A) (k : A -> @M St B) (s : St) :
  bind (ret a) k s = k a s.
Proof. reflexivity. Qed.

Lemma bind_assoc {St A B C : Type} (c : @M St A) (k1 : A -> M B) (k2 : B -> M C)
  (s : St) :
  bind (bind c k1) k2 s = bind c (fun a => bind (k1 a) k2) s.
Proof. unfold bind. destruct (c s) as [[a|e] s']; reflexivity. Qed.

(** ** The document tree *)

Module DomFacts.
Import Dom.

(** Induction on a tree, with the property known for all children. *)
Lemma Node_forall_ind (P : Node -> Prop) :
  (forall t, P (Text t)) ->
  (forall i tag hl ch, Forall P ch -> P (Element i tag hl ch)) ->
  forall n, P n.
Proof.
  intros HT HE.
  fix IH 1. intros [t | i tag hl ch].
  - apply HT.
  - apply HE. induction ch as [|c ch IHch]; constructor; [apply IH | exact IHch].
Qed.

(** How a successful search through a list of children went. *)
Lemma replace_in_Some (inside : Node -> option Node) (ref : nat) (g : Node -> list Node)
  (ch ch' : list Node) :
  replace_in inside ref g ch = Some ch' ->
  exists pre c post,
    ch = pre ++ c :: post /\
    Forall (fun d => node_id d <> ref /\ inside d = None) pre /\
    ((node_id c = ref /\ ch' = pre ++ g c ++ post) \/
     (node_id c <> ref /\ exists c', inside c = Some c' /\ ch' = pre ++ c' :: post)).
Proof.
  revert ch'. induction ch as [|c ch IH]; intros ch' H; [discriminate|].
  simpl in H. destruct (Nat.eqb_spec (node_id c) ref) as [Heq|Hne].
  - injection H as <-. exists [], c, ch. split; [reflexivity|]. split; [constructor|].
    left. split; [exact Heq | reflexivity].
  - destruct (inside c) as [c'|] eqn:Hc.
    + injection H as <-. exists [], c, ch. split; [reflexivity|]. split; [constructor|].
      right. split; [exact Hne|]. exists c'. split; [exact Hc | reflexivity].
    + destruct (replace_in inside ref g ch) as [r'|] eqn:Hr; [|discriminate].
      injection H as <-.
      destruct (IH r' eq_refl) as (pre & d & post & -> & Hpre & Hcase).
      exists (c :: pre), d, post. split; [reflexivity|].
      split; [constructor; [split; assumption | exact Hpre]|].
      destruct Hcase as [[Hd ->] | [Hd (d' & Hd' & ->)]].
      * left. split; [exact Hd | reflexivity].
      * right. split; [exact Hd|]. exists d'. split; [exact Hd' | reflexivity].
Qed.

(** The search fails exactly when no child has the identity and the search
    below every child fails. *)
Lemma replace_in_None (inside : Node -> option Node) (ref : nat) (g : Node -> list Node)
  (ch : list Node) :
  replace_in inside ref g ch = None <->
  Forall (fun d => node_id d <> ref /\ inside d = None) ch.
Proof.
  induction ch as [|c ch IH]; simpl.
  - split; [constructor | reflexivity].
  - destruct (Nat.eqb_spec (node_id c) ref) as [Heq|Hne].
    + split; [discriminate|]. intros H. apply Forall_cons in H as [[H _] _].
      contradiction.
    + destruct (inside c) as [c'|] eqn:Hc.
      * split; [discriminate|]. intros H. apply Forall_cons in H as [[_ H] _].
        congruence.
      * destruct (replace_in inside ref g ch) as [r'|].
        -- split; [discriminate|]. intros H. apply Forall_cons in H as [_ H].
           apply IH in H. discriminate.
        -- split; [|reflexivity]. intros _. constructor; [split; assumption|].
           by apply IH.
Qed.

(** Running the search on a list whose front part has nothing. *)
Lemma replace_in_app (inside : Node -> option Node) (ref : nat) (g : Node -> list Node)
  (pre rest : list Node) :
  Forall (fun d => node_id d <> ref /\ inside d = None) pre ->
  replace_in inside ref g (pre ++ rest) =
  match replace_in inside ref g rest with
  | Some r' => Some (pre ++ r')
  | None => None
  end.
Proof.
  induction 1 as [|c pre [Hne Hc] Hpre IH]; simpl.
  - by destruct (replace_in inside ref g rest).
  - destruct (Nat.eqb_spec (node_id c) ref) as [Heq|_]; [done|].
    rewrite Hc, IH. by destruct (replace_in inside ref g rest).
Qed.

(** Whether a node has a parent does not depend on what is put in its place. *)
Lemma replace_child_is_Some (ref : nat) (g g' : Node -> list Node) (n : Node) :
  is_Some (replace_child ref g n) -> is_Some (replace_child ref g' n).
Proof.
  revert n. apply (Node_forall_ind (fun n => is_Some (replace_child ref g n) ->
                                             is_Some (replace_child ref g' n))).
  - intros t [x Hx]. discriminate.
  - intros i tag hl ch IH. simpl. intros [x Hx].
    destruct (replace_in (replace_child ref g') ref g' ch) as [r'|] eqn:Hr'; [by eexists|].
    exfalso. apply replace_in_None in Hr'.
    destruct (replace_in (replace_child ref g) ref g ch) as [r|] eqn:Hr; [|discriminate].
    apply replace_in_Some in Hr as (pre & c & post & -> & _ & Hcase).
    apply Forall_app in Hr' as [_ Hr']. apply Forall_cons in Hr' as [[Hne Hc] _].
    apply Forall_app in IH as [_ IH]. apply Forall_cons in IH as [IHc _].
    destruct Hcase as [[Heq _] | [_ (c' & Hc' & _)]]; [done|].
    destruct IHc as [y Hy]; [by eexists | congruence].
Qed.

Lemma parented_replace_child (ref : nat) (g : Node -> list Node) (n : Node) :
  parented ref n <-> is_Some (replace_child ref g n).
Proof. split; apply replace_child_is_Some. Qed.

Lemma replace_child_node_id (ref : nat) (g : Node -> list Node) (n n' : Node) :
  replace_child ref g n = Some n' -> node_id n' = node_id n.
Proof.
  destruct n as [t | i tag hl ch]; simpl; [discriminate|].
  destruct (replace_in _ _ _ _); [|discriminate]. by intros [= <-].
Qed.

(** A node has a parent when it is a child of the root or has a parent
    below one of the children. *)
Lemma parented_Element (x i : nat) (tag : string) (hl : bool) (ch : list Node) :
  parented x (Element i tag hl ch) <->
  Exists (fun c => node_id c = x \/ parented x c) ch.
Proof.
  unfold parented. simpl.
  destruct (replace_in _ _ _ ch) as [r|] eqn:Hr.
  - split; [intros _ | by eexists].
    apply replace_in_Some in Hr as (pre & c & post & -> & _ & Hcase).
    apply Exists_app. right. apply Exists_cons. left.
    destruct Hcase as [[Heq _] | [_ (c' & Hc' & _)]]; [by left|].
    right. by eexists.
  - split; [intros [? ?]; discriminate|]. intros HE. exfalso.
    apply replace_in_None in Hr. apply Exists_exists in HE as (c & Hin & Hc).
    rewrite Forall_forall in Hr. destruct (Hr c Hin) as [Hne Hnone].
    destruct Hc as [Heq | [y Hy]]; [done | congruence].
Qed.

(** An edit that keeps the child it replaces keeps every node parented, and
    the nodes it puts in are parented after it. *)
Lemma parented_after_edit (ref x : nat) (g : Node -> list Node) (n n' : Node) :
  replace_child ref g n = Some n' ->
  (parented x n /\ forall c, c ∈ g c) \/
  (forall c, node_id c = ref -> exists c', c' ∈ g c /\ node_id c' = x) ->
  parented x n'.
Proof.
  intros Hedit Hor. revert n n' Hedit Hor.
  apply (Node_forall_ind (fun n => forall n', replace_child ref g n = Some n' ->
    (parented x n /\ (forall c, c ∈ g c)) \/
    (forall c, node_id c = ref -> exists c', c' ∈ g c /\ node_id c' = x) ->
    parented x n')).
  - intros t n' H. discriminate.
  - intros i tag hl ch IH n'. simpl.
    destruct (replace_in (replace_child ref g) ref g ch) as [r|] eqn:Hr; [|discriminate].
    intros [= <-] Hor. apply parented_Element.
    apply replace_in_Some in Hr as (pre & c & post & -> & _ & Hcase).
    apply Forall_app in IH as [_ IH]. apply Forall_cons in IH as [IHc _].
    destruct Hor as [[Hpar Hkeep] | Hnew].
    + apply parented_Element in Hpar.
      apply Exists_app in Hpar as [Hpar | Hpar].
      { destruct Hcase as [[_ ->] | [_ (c' & _ & ->)]]; apply Exists_app; by left. }
      apply Exists_cons in Hpar as [Hpar | Hpar].
      2:{ destruct Hcase as [[_ ->] | [_ (c' & _ & ->)]].
          - apply Exists_app. right. apply Exists_app. by right.
          - apply Exists_app. right. apply Exists_cons. by right. }
      destruct Hcase as [[_ ->] | [_ (c' & Hc' & ->)]].
      * apply Exists_app. right. apply Exists_app. left.
        apply Exists_exists. exists c. split; [apply Hkeep | exact Hpar].
      * apply Exists_app. right. apply Exists_cons. left.
        destruct Hpar as [Hid | Hpar].
        -- left. rewrite (replace_child_node_id ref g c c' Hc'). exact Hid.
        -- right. apply (IHc c' Hc'). left. split; [exact Hpar | exact Hkeep].
    + destruct Hcase as [[Heq ->] | [_ (c' & Hc' & ->)]].
      * destruct (Hnew c Heq) as (d & Hd & Hdx).
        apply Exists_app. right. apply Exists_app. left.
        apply Exists_exists. exists d. split; [exact Hd | by left].
      * apply Exists_app. right. apply Exists_cons. left. right.
        apply (IHc c' Hc'). right. exact Hnew.
Qed.

(** *** Identities and places *)

Lemma ids_of_app (l1 l2 : list Node) : ids_of (l1 ++ l2) = ids_of l1 ++ ids_of l2.
Proof. unfold ids_of. by rewrite map_app, concat_app. Qed.

Lemma ids_of_cons (n : Node) (l : list Node) : ids_of (n :: l) = ids n ++ ids_of l.
Proof. reflexivity. Qed.

Lemma ids_Element (i : nat) (tag : string) (hl : bool) (ch : list Node) :
  ids (Element i tag hl ch) = i :: ids_of ch.
Proof. reflexivity. Qed.

Lemma node_id_in_ids (n : Node) : node_id n ∈ ids n.
Proof. destruct n; simpl; set_solver. Qed.

Lemma ids_of_elem (c : Node) (l : list Node) (x : nat) :
  c ∈ l -> x ∈ ids c -> x ∈ ids_of l.
Proof.
  intros Hc Hx. apply list_elem_of_split in Hc as (l1 & l2 & ->).
  rewrite ids_of_app, ids_of_cons. set_solver.
Qed.

(** A node with an identity that is nowhere in the tree has no parent there. *)
Lemma replace_child_absent (ref : nat) (g : Node -> list Node) (n : Node) :
  ref ∉ ids n -> replace_child ref g n = None.
Proof.
  induction n as [t | i tag hl ch IH] using Node_forall_ind; intros Hnot; [reflexivity|].
  simpl. assert (replace_in (replace_child ref g) ref g ch = None) as ->; [|reflexivity].
  apply replace_in_None. apply Forall_forall. intros d Hd.
  rewrite Forall_forall in IH.
  assert (ref ∉ ids d) as Hd'.
  { intros Hin. apply Hnot. rewrite ids_Element. right. by apply (ids_of_elem d ch). }
  split; [|by apply IH].
  intros Heq. apply Hd'. rewrite <- Heq. apply node_id_in_ids.
Qed.

Lemma replace_in_absent (ref : nat) (g : Node -> list Node) (l : list Node) :
  ref ∉ ids_of l ->
  Forall (fun d => node_id d <> ref /\ replace_child ref g d = None) l.
Proof.
  intros Hnot. apply Forall_forall. intros d Hd.
  assert (ref ∉ ids d) as Hd'.
  { intros Hin. apply Hnot. by apply (ids_of_elem d l). }
  split; [|by apply replace_child_absent].
  intros Heq. apply Hd'. rewrite <- Heq. apply node_id_in_ids.
Qed.

(** The edit at a child that nothing before it shares the identity with. *)
Lemma replace_in_focus (ref : nat) (g : Node -> list Node) (L R : list Node) (c : Node) :
  ref ∉ ids_of L -> node_id c = ref ->
  replace_in (replace_child ref g) ref g (L ++ c :: R) = Some (L ++ g c ++ R).
Proof.
  intros HL Hc. rewrite replace_in_app by (by apply replace_in_absent).
  simpl. rewrite Hc, Nat.eqb_refl. reflexivity.
Qed.

Lemma ids_plug (p : Path) (n : Node) : ids (plug p n) ≡ₚ path_ids p ++ ids n.
Proof.
  induction p as [|i tag hl before inner IH after]; [reflexivity|].
  cbn [plug path_ids]. rewrite ids_Element, ids_of_app, ids_of_cons, IH.
  cbn [app]. apply Permutation_skip. solve_Permutation.
Qed.

Lemma text_nodes_plug (p : Path) (n : Node) :
  text_nodes (plug p n) = texts_before p ++ text_nodes n ++ texts_after p.
Proof.
  induction p as [|i tag hl before inner IH after]; simpl.
  - by rewrite app_nil_r.
  - rewrite map_app, concat_app. simpl. rewrite IH. by rewrite <- !app_assoc.
Qed.

(** The identity of a child differs from that of every node above it. *)
Lemma plug_node_id (p : Path) (i : nat) (tag : string) (hl : bool) (ch : list Node)
  (c : Node) :
  NoDup (ids (plug p (Element i tag hl ch))) -> c ∈ ch ->
  node_id (plug p (Element i tag hl ch)) <> node_id c.
Proof.
  intros Hnd Hc.
  assert (node_id c ∈ ids_of ch) as Hin.
  { apply (ids_of_elem c ch); [exact Hc | apply node_id_in_ids]. }
  destruct p as [|j tag' hl' before inner after]; cbn [plug node_id] in *;
    rewrite ids_Element in Hnd.
  - apply NoDup_cons in Hnd as [Hi _]. intros ->. by apply Hi.
  - apply NoDup_cons in Hnd as [Hj _]. intros ->. apply Hj.
    rewrite ids_of_app, ids_of_cons, ids_plug, ids_Element. set_solver.
Qed.

(** An edit at a child of the node at [p], in a tree with unique
    identities: the child gives way to what [g] makes of it. *)
Lemma edit_at (p : Path) (i : nat) (tag : string) (hl : bool) (L R : list Node)
  (c : Node) (g : Node -> list Node) :
  NoDup (ids (plug p (Element i tag hl (L ++ c :: R)))) ->
  replace_child (node_id c) g (plug p (Element i tag hl (L ++ c :: R)))
  = Some (plug p (Element i tag hl (L ++ g c ++ R))).
Proof.
  induction p as [|j tag' hl' before inner IH after]; intros Hnd.
  - cbn [plug replace_child] in *. rewrite replace_in_focus; [reflexivity| |reflexivity].
    rewrite ids_Element in Hnd. apply NoDup_cons in Hnd as [_ Hnd].
    rewrite ids_of_app, ids_of_cons in Hnd.
    apply NoDup_app in Hnd as (_ & Hdisj & _).
    intros Hin. apply (Hdisj _ Hin). pose proof (node_id_in_ids c). set_solver.
  - cbn [plug] in *. set (X := Element i tag hl (L ++ c :: R)) in *.
    rewrite ids_Element in Hnd. apply NoDup_cons in Hnd as [_ Hnd].
    rewrite ids_of_app, ids_of_cons in Hnd.
    apply NoDup_app in Hnd as (_ & Hdisj & Hnd).
    apply NoDup_app in Hnd as (Hinner & _ & _).
    assert (node_id c ∈ ids (plug inner X)) as Hin.
    { rewrite ids_plug. subst X. rewrite ids_Element, ids_of_app, ids_of_cons.
      pose proof (node_id_in_ids c). set_solver. }
    cbn [replace_child]. rewrite replace_in_app.
    2:{ apply replace_in_absent. intros Hb. apply (Hdisj _ Hb). set_solver. }
    cbn [replace_in].
    destruct (Nat.eqb_spec (node_id (plug inner X)) (node_id c)) as [Heq|_].
    { exfalso. subst X. apply (plug_node_id inner i tag hl (L ++ c :: R) c Hinner);
        [set_solver | exact Heq]. }
    rewrite (IH Hinner). reflexivity.
Qed.

(** Unique identities below a counter, after the children [X] of the node
    at [p] gave way to [Y], whose identities are those of [X] or new. *)
Lemma tree_ok_replace (p : Path) (i : nat) (tag : string) (hl : bool)
  (L X Y R : list Node) (N N' : nat) :
  tree_ok N (plug p (Element i tag hl (L ++ X ++ R))) ->
  NoDup (ids_of Y) ->
  (forall x, x ∈ ids_of Y -> x ∈ ids_of X \/ (N <= x < N')%nat) ->
  (N <= N')%nat ->
  tree_ok N' (plug p (Element i tag hl (L ++ Y ++ R))).
Proof.
  intros [Hnd Hlt] HY Hnew HN. unfold tree_ok in *.
  rewrite ids_plug in Hnd, Hlt |- *. rewrite ids_Element in Hnd, Hlt |- *.
  rewrite !ids_of_app in Hnd, Hlt |- *.
  rewrite Forall_forall in Hlt.
  split.
  - rewrite <- !Permutation_middle in Hnd |- *.
    apply NoDup_cons in Hnd as [Hi Hnd]. apply NoDup_cons.
    assert (forall x, x ∈ ids_of Y -> x ∈ ids_of X \/ (N <= x)%nat) as Hnew'.
    { intros x Hx. destruct (Hnew x Hx); [by left | right; lia]. }
    split.
    + intros Hin. apply Hi.
      rewrite !elem_of_app in Hin |- *.
      destruct Hin as [?|[?|[Hin|?]]]; [tauto|tauto| |tauto].
      destruct (Hnew' _ Hin) as [?|Hge]; [tauto|].
      assert (i < N)%nat; [|lia]. apply Hlt. set_solver.
    + rewrite !NoDup_app in Hnd |- *.
      destruct Hnd as (Hp & Hpd & HL & HLd & HX & HXd & HR).
      split; [exact Hp|]. split.
      { intros x Hx Hin. rewrite !elem_of_app in Hin.
        destruct Hin as [Hin|[Hin|Hin]].
        - apply (Hpd x Hx). set_solver.
        - destruct (Hnew' _ Hin) as [?|Hge]; [apply (Hpd x Hx); set_solver|].
          assert (x < N)%nat; [|lia]. apply Hlt. set_solver.
        - apply (Hpd x Hx). set_solver. }
      split; [exact HL|]. split.
      { intros x Hx Hin. rewrite !elem_of_app in Hin.
        destruct Hin as [Hin|Hin].
        - destruct (Hnew' _ Hin) as [?|Hge]; [apply (HLd x Hx); set_solver|].
          assert (x < N)%nat; [|lia]. apply Hlt. set_solver.
        - apply (HLd x Hx). set_solver. }
      split; [exact HY|]. split; [|exact HR].
      intros x Hx Hin.
      destruct (Hnew' _ Hx) as [HxX|Hge]; [by apply (HXd x HxX)|].
      assert (x < N)%nat; [|lia]. apply Hlt. set_solver.
  - apply Forall_forall. intros x Hx.
    rewrite elem_of_app, elem_of_cons, !elem_of_app in Hx.
    destruct Hx as [Hx|[Hx|[Hx|[Hx|Hx]]]];
      try (assert (x < N)%nat by (apply Hlt; set_solver); lia).
    destruct (Hnew x Hx) as [HxX|?]; [|lia].
    assert (x < N)%nat by (apply Hlt; set_solver). lia.
Qed.

(** The three edits of the tree at a child [c] of the node at [p]; [x] is a
    new node, with the identity the counter is at. *)
Lemma insert_before_at (p : Path) (i : nat) (tag : string) (hl : bool)
  (L R : list Node) (c x : Node) (N : nat) :
  tree_ok N (plug p (Element i tag hl (L ++ c :: R))) -> ids x = [N] ->
  insert_before x (node_id c) (plug p (Element i tag hl (L ++ c :: R)))
  = Some (plug p (Element i tag hl (L ++ x :: c :: R))) /\
  tree_ok (S N) (plug p (Element i tag hl (L ++ x :: c :: R))).
Proof.
  intros Hok Hx. split.
  - unfold insert_before. rewrite edit_at by apply Hok. reflexivity.
  - apply (tree_ok_replace p i tag hl L [c] [x; c] R N (S N) Hok); [| |lia].
    + rewrite ids_of_cons, Hx. cbn [app]. apply NoDup_cons. split.
      * intros Hin. destruct Hok as [_ Hlt]. rewrite Forall_forall in Hlt.
        assert (N < N)%nat; [|lia]. apply Hlt. rewrite ids_plug, ids_Element, ids_of_app.
        set_solver.
      * destruct Hok as [Hnd _]. rewrite ids_plug, ids_Element, ids_of_app in Hnd.
        apply NoDup_app in Hnd as (_ & _ & Hnd). apply NoDup_cons in Hnd as (_ & Hnd).
        apply NoDup_app in Hnd as (_ & _ & Hnd). rewrite ids_of_cons in Hnd.
        apply NoDup_app in Hnd as (Hnd & _ & _).
        unfold ids_of. simpl. by rewrite app_nil_r.
    + intros y Hy. rewrite ids_of_cons, Hx in Hy. cbn [app] in Hy.
      apply elem_of_cons in Hy as [->|Hy]; [right; lia | by left].
Qed.

Lemma insert_after_at (p : Path) (i : nat) (tag : string) (hl : bool)
  (L R : list Node) (c x : Node) (N : nat) :
  tree_ok N (plug p (Element i tag hl (L ++ c :: R))) -> ids x = [N] ->
  insert_after x (node_id c) (plug p (Element i tag hl (L ++ c :: R)))
  = Some (plug p (Element i tag hl (L ++ c :: x :: R))) /\
  tree_ok (S N) (plug p (Element i tag hl (L ++ c :: x :: R))).
Proof.
  intros Hok Hx. split.
  - unfold insert_after. rewrite edit_at by apply Hok. reflexivity.
  - apply (tree_ok_replace p i tag hl L [c] [c; x] R N (S N) Hok); [| |lia].
    + rewrite ids_of_cons. unfold ids_of at 1. simpl. rewrite Hx, app_nil_r.
      apply NoDup_app. split; [|split; [|apply NoDup_singleton]].
      * destruct Hok as [Hnd _]. rewrite ids_plug, ids_Element, ids_of_app in Hnd.
        apply NoDup_app in Hnd as (_ & _ & Hnd). apply NoDup_cons in Hnd as (_ & Hnd).
        apply NoDup_app in Hnd as (_ & _ & Hnd). rewrite ids_of_cons in Hnd.
        by apply NoDup_app in Hnd as (Hnd & _ & _).
      * intros y Hy Hin. apply list_elem_of_singleton in Hin as ->.
        destruct Hok as [_ Hlt]. rewrite Forall_forall in Hlt.
        assert (N < N)%nat; [|lia]. apply Hlt. rewrite ids_plug, ids_Element, ids_of_app.
        rewrite ids_of_cons. set_solver.
    + intros y Hy. rewrite ids_of_cons in Hy. unfold ids_of at 1 in Hy. simpl in Hy.
      rewrite Hx, app_nil_r in Hy.
      apply elem_of_app in Hy as [Hy|Hy].
      * left. unfold ids_of. simpl. by rewrite app_nil_r.
      * apply list_elem_of_singleton in Hy as ->. right. lia.
Qed.

Lemma remove_at (p : Path) (i : nat) (tag : string) (hl : bool)
  (L R : list Node) (c : Node) (N : nat) :
  tree_ok N (plug p (Element i tag hl (L ++ c :: R))) ->
  remove_child (node_id c) (plug p (Element i tag hl (L ++ c :: R)))
  = Some (plug p (Element i tag hl (L ++ R))) /\
  tree_ok N (plug p (Element i tag hl (L ++ R))).
Proof.
  intros Hok. split.
  - unfold remove_child. rewrite edit_at by apply Hok. reflexivity.
  - apply (tree_ok_replace p i tag hl L [c] [] R N N Hok); [constructor| |lia].
    intros y Hy. by apply elem_of_nil in Hy.
Qed.

(** The child [c] with its own identity and content, at the place of any
    child with the same identities: the tree stays in order. *)
Lemma tree_ok_swap (p : Path) (i : nat) (tag : string) (hl : bool)
  (L R : list Node) (c c' : Node) (N : nat) :
  tree_ok N (plug p (Element i tag hl (L ++ c :: R))) ->
  ids c' ≡ₚ ids c ->
  tree_ok N (plug p (Element i tag hl (L ++ c' :: R))).
Proof.
  intros Hok Hperm.
  apply (tree_ok_replace p i tag hl L [c] [c'] R N N Hok); [| |lia].
  - unfold ids_of. simpl. rewrite app_nil_r, Hperm.
    destruct Hok as [Hnd _]. rewrite ids_plug, ids_Element, ids_of_app in Hnd.
    apply NoDup_app in Hnd as (_ & _ & Hnd). apply NoDup_cons in Hnd as (_ & Hnd).
    apply NoDup_app in Hnd as (_ & _ & Hnd). rewrite ids_of_cons in Hnd.
    by apply NoDup_app in Hnd as (Hnd & _ & _).
  - intros y Hy. left. unfold ids_of in *. simpl in *. rewrite app_nil_r in *.
    by rewrite <- Hperm.
Qed.

End DomFacts.

(** ** TextContent.js: [indexOf] *)

Module TextContentFacts.
Import Dom TextContent.

Lemma mid_bounds (min max : Z) :
  min < max -> min <= (min + max) / 2 < max.
Proof.
  intros H. split.
  - apply Z.div_le_lower_bound; lia.
  - apply Z.div_lt_upper_bound; lia.
Qed.

(** More fuel than [max - min] changes nothing. *)
Lemma indexOf_loop_fuel (s : State) (o : Z) (f1 f2 : nat) (min max : Z) :
  (Z.to_nat (max - min) <= f1)%nat ->
  (Z.to_nat (max - min) <= f2)%nat ->
  indexOf_loop f1 s o min max = indexOf_loop f2 s o min max.
Proof.
  revert f2 min max.
  induction f1 as [|f1 IH]; intros f2 min max H1 H2.
  - destruct f2 as [|f2]; [reflexivity|].
    simpl. destruct (Z.ltb_spec min max); [lia | reflexivity].
  - destruct f2 as [|f2].
    + simpl. destruct (Z.ltb_spec min max); [lia | reflexivity].
    + simpl. destruct (Z.ltb_spec min max) as [Hlt|]; [|reflexivity].
      pose proof (mid_bounds min max Hlt).
      destruct (marker_at s ((min + max) / 2)) as [m|]; [|reflexivity].
      destruct (offset m <? o); apply IH; lia.
Qed.

(** The model of the loop is the loop: it satisfies the equation of
    [while (min < max) { ... }]. *)
Lemma indexOf_loop_unfold (s : State) (o : Z) (min max : Z) :
  indexOf_while s o min max =
  if min <? max then
    let mid := (min + max) / 2 in
    match marker_at s mid with
    | None => Throw JsTypeError
    | Some m =>
        if offset m <? o then indexOf_while s o (mid + 1) max
        else indexOf_while s o min mid
    end
  else Normal min.
Proof.
  unfold indexOf_while.
  destruct (Z.ltb_spec min max) as [Hlt|Hge].
  - pose proof (mid_bounds min max Hlt).
    destruct (Z.to_nat (max - min)) as [|f] eqn:Hf; [lia|].
    simpl. destruct (Z.ltb_spec min max); [|lia].
    destruct (marker_at s ((min + max) / 2)) as [m|]; [|reflexivity].
    destruct (offset m <? o); apply indexOf_loop_fuel; lia.
  - destruct (Z.to_nat (max - min)); simpl; [reflexivity|].
    destruct (Z.ltb_spec min max); [lia | reflexivity].
Qed.

(** *** The array behind the references *)

Lemma view_lookup (s : State) (l : list Marker) (i : nat) :
  view s = Some l ->
  l !! i = (markers s !! i) ≫= (fun r => store s !! r).
Proof.
  unfold view, view_of. intros Hv. apply mapM_Some in Hv.
  destruct (markers s !! i) as [r|] eqn:Hr; simpl.
  - destruct (Forall2_lookup_l _ _ _ _ _ Hv Hr) as (m & Hm & Hs). congruence.
  - apply lookup_ge_None. apply lookup_ge_None in Hr.
    rewrite <- (Forall2_length _ _ _ Hv). exact Hr.
Qed.

Lemma view_length (s : State) (l : list Marker) :
  view s = Some l -> length (markers s) = length l.
Proof. unfold view, view_of. intros Hv. by apply length_mapM in Hv. Qed.

Lemma marker_at_view (s : State) (l : list Marker) (i : Z) :
  view s = Some l -> marker_at s i = array_get l i.
Proof.
  intros Hv. unfold marker_at, array_get.
  destruct (i <? 0); [reflexivity|].
  rewrite (view_lookup s l _ Hv). reflexivity.
Qed.

(** *** Offsets of a contiguous array *)

Lemma total_length_cons (m : Marker) (l : list Marker) :
  total_length (m :: l) = node_length m + total_length l.
Proof. reflexivity. Qed.

Lemma node_length_nonneg (m : Marker) : 0 <= node_length m.
Proof. unfold node_length, jslength. lia. Qed.

Lemma total_length_app (l1 l2 : list Marker) :
  total_length (l1 ++ l2) = total_length l1 + total_length l2.
Proof.
  induction l1 as [|m l1 IH]; [reflexivity|].
  rewrite <- app_comm_cons, !total_length_cons, IH. lia.
Qed.

Lemma total_length_nonneg (l : list Marker) : 0 <= total_length l.
Proof.
  induction l as [|m l IH]; [done|].
  rewrite total_length_cons. pose proof (node_length_nonneg m). lia.
Qed.

Lemma contiguous_from_app (o : Z) (l1 l2 : list Marker) :
  contiguous_from o (l1 ++ l2) <->
  contiguous_from o l1 /\ contiguous_from (o + total_length l1) l2.
Proof.
  revert o. induction l1 as [|a l1 IH]; intros o.
  - change (contiguous_from o l2 <-> True /\ contiguous_from (o + 0) l2).
    rewrite Z.add_0_r. tauto.
  - rewrite <- app_comm_cons. cbn [contiguous_from]. rewrite IH, total_length_cons.
    replace (o + node_length a + total_length l1)
      with (o + (node_length a + total_length l1)) by lia.
    tauto.
Qed.

Lemma contiguous_from_lookup (o : Z) (l : list Marker) (i : nat) (m : Marker) :
  contiguous_from o l -> l !! i = Some m ->
  offset m = o + total_length (take i l).
Proof.
  intros Hc Hi.
  rewrite <- (take_drop_middle l i m Hi) in Hc.
  apply contiguous_from_app in Hc as [_ [Hm _]]. exact Hm.
Qed.

Lemma total_length_take_le (l : list Marker) (i j : nat) :
  (i <= j)%nat -> total_length (take i l) <= total_length (take j l).
Proof.
  intros Hij.
  rewrite <- (take_drop i (take j l)), take_take, total_length_app.
  replace (i `min` j)%nat with i by lia.
  pose proof (total_length_nonneg (drop i (take j l))). lia.
Qed.

(** In a contiguous array without empty nodes, offsets grow strictly. *)
Lemma total_length_take_lt (l : list Marker) (i j : nat) :
  Forall (fun m => 0 < node_length m) l ->
  (i < j)%nat -> (j <= length l)%nat ->
  total_length (take i l) < total_length (take j l).
Proof.
  intros Hpos Hij Hj.
  destruct (lookup_lt_is_Some_2 l i) as [m Hm]; [lia|].
  assert (Hle := total_length_take_le l (S i) j ltac:(lia)).
  rewrite (take_S_r l i m Hm), total_length_app in Hle.
  rewrite Forall_lookup in Hpos. specialize (Hpos i m Hm). simpl in Hpos.
  change (total_length [m]) with (node_length m + 0) in Hle. lia.
Qed.

Lemma total_length_take_all (l : list Marker) :
  total_length (take (length l) l) = total_length l.
Proof. by rewrite firstn_all. Qed.

Lemma offsets_mono (l : list Marker) (i j : nat) (a b : Marker) :
  contiguous_from 0 l -> l !! i = Some a -> l !! j = Some b ->
  (i <= j)%nat -> offset a <= offset b.
Proof.
  intros Hc Ha Hb Hij.
  rewrite (contiguous_from_lookup 0 l i a Hc Ha), (contiguous_from_lookup 0 l j b Hc Hb).
  pose proof (total_length_take_le l i j Hij). lia.
Qed.

Lemma offsets_next (l : list Marker) (i : nat) (a b : Marker) :
  contiguous_from 0 l -> l !! i = Some a -> l !! S i = Some b ->
  offset b = offset a + node_length a.
Proof.
  intros Hc Ha Hb.
  rewrite (contiguous_from_lookup 0 l i a Hc Ha), (contiguous_from_lookup 0 l (S i) b Hc Hb).
  rewrite (take_S_r l i a Ha), total_length_app.
  change (total_length [a]) with (node_length a + 0). lia.
Qed.

Lemma offsets_last (l : list Marker) (i : nat) (a : Marker) :
  contiguous_from 0 l -> l !! i = Some a -> S i = length l ->
  total_length l = offset a + node_length a.
Proof.
  intros Hc Ha Hlen.
  rewrite (contiguous_from_lookup 0 l i a Hc Ha).
  rewrite <- (total_length_take_all l), <- Hlen.
  rewrite (take_S_r l i a Ha), total_length_app.
  change (total_length [a]) with (node_length a + 0). lia.
Qed.

Lemma array_get_nat {A : Type} (l : list A) (i : nat) :
  array_get l (Z.of_nat i) = l !! i.
Proof.
  unfold array_get. destruct (Z.ltb_spec (Z.of_nat i) 0); [lia|].
  by rewrite Nat2Z.id.
Qed.

Lemma array_get_Some {A : Type} (l : list A) (i : Z) (x : A) :
  array_get l i = Some x <-> 0 <= i /\ l !! Z.to_nat i = Some x.
Proof.
  unfold array_get. destruct (Z.ltb_spec i 0); split; intros H'.
  - discriminate.
  - destruct H'; lia.
  - split; [lia | exact H'].
  - exact (proj2 H').
Qed.

Lemma array_get_in_range {A : Type} (l : list A) (i : Z) :
  0 <= i < Z.of_nat (length l) -> is_Some (array_get l i).
Proof.
  intros Hi. unfold array_get. destruct (Z.ltb_spec i 0); [lia|].
  apply lookup_lt_is_Some_2. lia.
Qed.

(** The loop ends at the first marker from [min] on whose offset is not
    below [o], or at [max] when there is none before it. *)
Lemma indexOf_while_spec (s : State) (l : list Marker) (o : Z) :
  view s = Some l -> contiguous_from 0 l ->
  forall (gap : nat) (min max : Z),
    Z.to_nat (max - min) = gap ->
    0 <= min -> min <= max -> max < Z.of_nat (length l) ->
    exists k, indexOf_while s o min max = Normal k /\ min <= k <= max /\
      (forall j m, min <= j < k -> array_get l j = Some m -> offset m < o) /\
      (k < max -> forall m, array_get l k = Some m -> o <= offset m).
Proof.
  intros Hv Hc gap.
  induction gap as [gap IH] using (well_founded_induction lt_wf).
  intros min max Hgap Hmin Hle Hmax.
  rewrite indexOf_loop_unfold.
  destruct (Z.ltb_spec min max) as [Hlt|Hge].
  2:{ exists min. split; [reflexivity|]. split; [lia|]. split; intros; lia. }
  pose proof (mid_bounds min max Hlt) as Hmid. cbv zeta.
  set (mid := (min + max) / 2) in *.
  rewrite (marker_at_view s l mid Hv).
  destruct (array_get_in_range l mid) as [m Hm]; [lia|]. rewrite Hm.
  destruct (Z.ltb_spec (offset m) o) as [Hom|Hom].
  - destruct (IH (Z.to_nat (max - (mid + 1))) ltac:(lia) (mid + 1) max eq_refl)
      as (k & Hk & Hkr & Hbelow & Hat); try lia.
    exists k. split; [exact Hk|]. split; [lia|]. split; [|exact Hat].
    intros j mj Hj Hmj.
    destruct (Z_lt_le_dec mid j) as [Hgt|Hlej].
    + apply (Hbelow j mj); [lia | exact Hmj].
    + apply array_get_Some in Hmj as [Hj0 Hmj]. apply array_get_Some in Hm as [Hm0 Hm].
      pose proof (offsets_mono l _ _ mj m Hc Hmj Hm ltac:(lia)). lia.
  - destruct (IH (Z.to_nat (mid - min)) ltac:(lia) min mid eq_refl)
      as (k & Hk & Hkr & Hbelow & Hat); try lia.
    exists k. split; [exact Hk|]. split; [lia|]. split; [exact Hbelow|].
    intros Hkmax mk Hmk.
    destruct (Z_lt_le_dec k mid) as [Hklt|Hkge].
    + by apply Hat.
    + assert (k = mid) as -> by lia. congruence.
Qed.

Lemma first_offset (l : list Marker) (m : Marker) :
  contiguous_from 0 l -> l !! 0%nat = Some m -> offset m = 0.
Proof.
  intros Hc Hm. rewrite (contiguous_from_lookup 0 l 0 m Hc Hm). reflexivity.
Qed.

Lemma offsets_strict (l : list Marker) (i j : nat) (a b : Marker) :
  contiguous_from 0 l -> Forall (fun m => 0 < node_length m) l ->
  l !! i = Some a -> l !! j = Some b -> (i < j)%nat ->
  offset a + node_length a <= offset b.
Proof.
  intros Hc Hpos Ha Hb Hij.
  destruct (lookup_lt_is_Some_2 l (S i)) as [c Hc'].
  { apply lookup_lt_Some in Hb. lia. }
  rewrite <- (offsets_next l i a c Hc Ha Hc').
  apply (offsets_mono l (S i) j c b Hc Hc' Hb). lia.
Qed.

(** Two markers of a well-formed array that contain the same offset are the
    same entry. *)
Lemma containing_unique (l : list Marker) (i j : nat) (a b : Marker) (o : Z) :
  contiguous_from 0 l -> Forall (fun m => 0 < node_length m) l ->
  l !! i = Some a -> l !! j = Some b ->
  offset a <= o < offset a + node_length a ->
  offset b <= o < offset b + node_length b ->
  i = j.
Proof.
  intros Hc Hpos Ha Hb Hoa Hob.
  destruct (lt_eq_lt_dec i j) as [[Hlt|Heq]|Hgt]; [|exact Heq|].
  - pose proof (offsets_strict l i j a b Hc Hpos Ha Hb Hlt). lia.
  - pose proof (offsets_strict l j i b a Hc Hpos Hb Ha Hgt). lia.
Qed.

(** What [indexOf] returns on a well-formed, non-empty index for an offset
    that is not negative: the marker it names starts at or before the
    offset; it contains the offset when the offset is inside the text, and
    it is the last marker when the offset is at or past the end. *)
Lemma indexOf_well_formed (s : State) (l : list Marker) (o : Z) :
  well_formed s l -> l <> [] -> 0 <= o ->
  exists (i : nat) (m : Marker),
    indexOf s o = Normal (Z.of_nat i) /\ l !! i = Some m /\ offset m <= o /\
    (o < total_length l -> o < offset m + node_length m) /\
    (total_length l <= o -> S i = length l).
Proof.
  intros [Hv Hnd Hc Hpos Htext] Hne Ho.
  assert (0 < length l)%nat as Hlen by (destruct l; [done | simpl; lia]).
  unfold indexOf. rewrite (view_length s l Hv).
  destruct (indexOf_while_spec s l o Hv Hc _ 0 (Z.of_nat (length l) - 1) eq_refl)
    as (k & Hk & Hkr & Hbelow & Hat); try lia.
  rewrite Hk, (marker_at_view s l k Hv).
  destruct (array_get_in_range l k) as [m Hm]; [lia|]. rewrite Hm.
  pose proof Hm as Hm'. apply array_get_Some in Hm' as [Hk0 Hm'].
  destruct (Z.leb_spec (offset m) o) as [Hle|Hgt].
  - exists (Z.to_nat k), m. rewrite Z2Nat.id by lia.
    split; [reflexivity|]. split; [exact Hm'|]. split; [exact Hle|].
    destruct (Z_lt_le_dec k (Z.of_nat (length l) - 1)) as [Hklt|Hkge].
    + specialize (Hat Hklt m Hm). assert (offset m = o) as Heq by lia.
      rewrite Forall_lookup in Hpos. specialize (Hpos _ _ Hm'). simpl in Hpos.
      split; [lia|]. intros Hpast.
      destruct (lookup_lt_is_Some_2 l (S (Z.to_nat k))) as [c Hc']; [lia|].
      pose proof (offsets_next l _ m c Hc Hm' Hc') as Hnext.
      rewrite (contiguous_from_lookup 0 l _ c Hc Hc') in Hnext.
      pose proof (total_length_take_le l (S (Z.to_nat k)) (length l) ltac:(lia)) as Hall.
      rewrite total_length_take_all in Hall. lia.
    + split; [|lia]. intros Hin.
      rewrite (offsets_last l (Z.to_nat k) m Hc Hm') in Hin by lia. exact Hin.
  - destruct (Z.eqb_spec k 0) as [->|Hk1].
    + rewrite (first_offset l m Hc Hm') in Hgt. lia.
    + destruct (lookup_lt_is_Some_2 l (Z.to_nat (k - 1))) as [a Ha]; [lia|].
      exists (Z.to_nat (k - 1)), a. rewrite Z2Nat.id by lia.
      split; [reflexivity|]. split; [exact Ha|].
      assert (array_get l (k - 1) = Some a) as Ha'.
      { apply array_get_Some. split; [lia | exact Ha]. }
      pose proof (Hbelow (k - 1) a ltac:(lia) Ha') as Hlt.
      replace (Z.to_nat k) with (S (Z.to_nat (k - 1))) in Hm' by lia.
      pose proof (offsets_next l _ a m Hc Ha Hm') as Hnext.
      split; [lia|]. split; [lia|]. intros Hpast.
      rewrite (contiguous_from_lookup 0 l _ m Hc Hm') in Hgt.
      pose proof (total_length_take_le l (S (Z.to_nat (k - 1))) (length l)) as Hall.
      rewrite total_length_take_all in Hall.
      apply lookup_lt_Some in Hm'. lia.
Qed.

(** [indexOf] of the offset of the marker at position [p] is [p]. *)
Lemma indexOf_position (s : State) (l : list Marker) (p : nat) (m : Marker) :
  well_formed s l -> l !! p = Some m ->
  indexOf s (offset m) = Normal (Z.of_nat p).
Proof.
  intros Hwf Hp.
  assert (l <> []) as Hne by (intros ->; done).
  pose proof Hwf as [Hv Hnd Hc Hpos Htext].
  assert (0 < node_length m) as Hlen.
  { rewrite Forall_lookup in Hpos. exact (Hpos _ _ Hp). }
  assert (0 <= offset m) as H0.
  { rewrite (contiguous_from_lookup 0 l p m Hc Hp).
    pose proof (total_length_nonneg (take p l)). lia. }
  assert (offset m < total_length l) as Hin.
  { rewrite (contiguous_from_lookup 0 l p m Hc Hp).
    pose proof (total_length_take_lt l p (length l) Hpos) as Hlt.
    apply lookup_lt_Some in Hp.
    rewrite total_length_take_all in Hlt. lia. }
  destruct (indexOf_well_formed s l (offset m) Hwf Hne H0)
    as (i & a & Hi & Ha & Hle & Hcont & _).
  rewrite Hi. f_equal. f_equal.
  apply (containing_unique l i p a m (offset m) Hc Hpos Ha Hp); [|lia].
  specialize (Hcont Hin). lia.
Qed.

(** A negative offset: the error of [indexOf]. *)
Lemma indexOf_negative (s : State) (l : list Marker) (o : Z) :
  well_formed s l -> l <> [] -> o < 0 ->
  indexOf s o = Throw (JsError "Invalid offset of text content state").
Proof.
  intros [Hv Hnd Hc Hpos Htext] Hne Ho.
  assert (0 < length l)%nat as Hlen by (destruct l; [done | simpl; lia]).
  unfold indexOf. rewrite (view_length s l Hv).
  destruct (indexOf_while_spec s l o Hv Hc _ 0 (Z.of_nat (length l) - 1) eq_refl)
    as (k & Hk & Hkr & Hbelow & Hat); try lia.
  rewrite Hk, (marker_at_view s l k Hv).
  destruct (array_get_in_range l k) as [m Hm]; [lia|]. rewrite Hm.
  pose proof Hm as Hm'. apply array_get_Some in Hm' as [Hk0 Hm'].
  assert (0 <= offset m) as H0.
  { rewrite (contiguous_from_lookup 0 l _ m Hc Hm').
    pose proof (total_length_nonneg (take (Z.to_nat k) l)). lia. }
  destruct (Z.leb_spec (offset m) o) as [Hle|Hgt]; [lia|].
  destruct (Z.eqb_spec k 0) as [->|Hk1]; [reflexivity|].
  destruct (array_get_in_range l (k - 1)) as [a Ha]; [lia|].
  pose proof (Hbelow (k - 1) a ltac:(lia) Ha) as Hlt.
  apply array_get_Some in Ha as [_ Ha].
  pose proof (contiguous_from_lookup 0 l _ a Hc Ha).
  pose proof (total_length_nonneg (take (Z.to_nat (k - 1)) l)). lia.
Qed.

(** ** TextContent.js: [truncate] *)

(** *** Marker objects and the array of references *)

Lemma view_of_Forall2 (ms : list nat) (st l : list Marker) :
  view_of ms st = Some l <-> Forall2 (fun r m => st !! r = Some m) ms l.
Proof. apply mapM_Some. Qed.

Lemma view_of_bound (ms : list nat) (st l : list Marker) (r : nat) :
  view_of ms st = Some l -> r ∈ ms -> (r < length st)%nat.
Proof.
  intros Hv Hr. apply view_of_Forall2 in Hv.
  apply list_elem_of_lookup in Hr as [i Hi].
  destruct (Forall2_lookup_l _ _ _ _ _ Hv Hi) as (m & _ & Hm).
  by apply lookup_lt_Some in Hm.
Qed.

(** A new object changes no entry of the array. *)
Lemma view_of_alloc (ms : list nat) (st l : list Marker) (x : Marker) :
  view_of ms st = Some l -> view_of ms (st ++ [x]) = Some l.
Proof.
  rewrite !view_of_Forall2. intros Hv.
  eapply Forall2_impl; [exact Hv|]. intros r m Hm. simpl in *.
  rewrite lookup_app_l; [exact Hm | by apply lookup_lt_Some in Hm].
Qed.

(** [splice(i, 0, r)] puts the object behind [r] at [i]. *)
Lemma view_of_splice (ms : list nat) (st l : list Marker) (i : Z) (r : nat) (x : Marker) :
  view_of ms st = Some l -> st !! r = Some x ->
  view_of (splice_insert ms i r) st = Some (splice_insert l i x).
Proof.
  rewrite !view_of_Forall2. intros Hv Hr. unfold splice_insert.
  apply Forall2_app; [by apply Forall2_take|].
  constructor; [exact Hr | by apply Forall2_drop].
Qed.

(** An assignment to the object at position [p] shows at [p] only. *)
Lemma view_of_assign (ms : list nat) (st l : list Marker) (p marker : nat) (x : Marker) :
  view_of ms st = Some l -> NoDup ms -> ms !! p = Some marker ->
  view_of ms (<[marker := x]> st) = Some (<[p := x]> l).
Proof.
  rewrite !view_of_Forall2. intros Hv Hnd Hp.
  apply Forall2_same_length_lookup_2.
  { rewrite length_insert. by eapply Forall2_length. }
  intros i r m Hr Hm.
  destruct (decide (i = p)) as [->|Hne].
  - assert (r = marker) as -> by congruence.
    destruct (Forall2_lookup_l _ _ _ _ _ Hv Hp) as (m0 & Hm0 & Hst).
    rewrite list_lookup_insert_eq in Hm by (by apply lookup_lt_Some in Hm0).
    injection Hm as <-. apply list_lookup_insert_eq. by apply lookup_lt_Some in Hst.
  - rewrite list_lookup_insert_ne in Hm by done.
    destruct (Forall2_lookup_l _ _ _ _ _ Hv Hr) as (m0 & Hm0 & Hst).
    assert (m0 = m) as -> by congruence.
    rewrite list_lookup_insert_ne; [exact Hst|].
    intros ->. apply Hne. symmetry. by eapply NoDup_lookup.
Qed.

Lemma splice_insert_perm {A : Type} (l : list A) (i : Z) (x : A) :
  splice_insert l i x ≡ₚ x :: l.
Proof.
  unfold splice_insert. rewrite <- Permutation_middle.
  by rewrite take_drop.
Qed.

Lemma splice_insert_length {A : Type} (l : list A) (i : Z) (x : A) :
  length (splice_insert l i x) = S (length l).
Proof. by rewrite (Permutation_length (splice_insert_perm l i x)). Qed.

Lemma splice_insert_NoDup (l : list nat) (i : Z) (x : nat) :
  NoDup l -> x ∉ l -> NoDup (splice_insert l i x).
Proof.
  intros Hnd Hx. rewrite (splice_insert_perm l i x). by constructor.
Qed.

Lemma splice_insert_lookup_lt {A : Type} (l : list A) (i : Z) (x : A) (j : nat) :
  (j < Z.to_nat i)%nat -> (Z.to_nat i <= length l)%nat ->
  splice_insert l i x !! j = l !! j.
Proof.
  intros Hj Hi. unfold splice_insert.
  rewrite lookup_app_l by (rewrite length_take; lia).
  by rewrite lookup_take_lt.
Qed.

Lemma splice_insert_lookup_eq {A : Type} (l : list A) (i : Z) (x : A) :
  (Z.to_nat i <= length l)%nat ->
  splice_insert l i x !! Z.to_nat i = Some x.
Proof.
  intros Hi. unfold splice_insert.
  rewrite lookup_app_r by (rewrite length_take; lia).
  rewrite length_take. by replace (Z.to_nat i - Z.to_nat i `min` length l)%nat with 0%nat by lia.
Qed.

Lemma splice_insert_lookup_gt {A : Type} (l : list A) (i : Z) (x : A) (j : nat) :
  (Z.to_nat i <= j)%nat -> (Z.to_nat i <= length l)%nat ->
  splice_insert l i x !! S j = l !! j.
Proof.
  intros Hj Hi. unfold splice_insert.
  rewrite lookup_app_r by (rewrite length_take; lia).
  rewrite length_take.
  replace (S j - Z.to_nat i `min` length l)%nat with (S (j - Z.to_nat i)) by lia.
  simpl. rewrite lookup_drop. f_equal. lia.
Qed.

(** *** The three blocks of [truncate], run *)

Lemma bind_assoc' {A B C : Type} (c : @M State A) (k1 : A -> M B) (k2 : B -> M C)
  (s : State) :
  bind (bind c k1) k2 s = bind c (fun a => bind (k1 a) k2) s.
Proof. unfold bind. destruct (c s) as [[a|e] s']; reflexivity. Qed.

Lemma run_gets {A B : Type} (s : State) (f : State -> A) (k : A -> M B) :
  bind (gets f) k s = k (f s) s.
Proof. reflexivity. Qed.

Lemma run_deref {A : Type} (s : State) (r : nat) (m : Marker) (k : Marker -> M A) :
  store s !! r = Some m -> bind (deref r) k s = k m s.
Proof. intros H. unfold deref, bind, gets. rewrite H. reflexivity. Qed.

Lemma run_assign {A : Type} (s : State) (r : nat) (m : Marker) (f : Marker -> Marker)
  (k : unit -> M A) :
  store s !! r = Some m ->
  bind (assign r f) k s = k tt (set_store (<[r := f m]> (store s)) s).
Proof. intros H. unfold assign, deref, bind, gets. rewrite H. reflexivity. Qed.

Lemma run_assign_last (s : State) (r : nat) (m : Marker) (f : Marker -> Marker) :
  store s !! r = Some m ->
  assign r f s = (Normal tt, set_store (<[r := f m]> (store s)) s).
Proof. intros H. unfold assign, deref, bind, gets. rewrite H. reflexivity. Qed.

Lemma run_dom_edit {A : Type} (s : State) (f : Node -> option Node) (k : unit -> M A) :
  bind (dom_edit f) k s =
  match f (root s) with
  | Some r => k tt (set_root r s)
  | None => (Throw JsTypeError, s)
  end.
Proof. unfold dom_edit, bind, gets. destruct (f (root s)); reflexivity. Qed.

Lemma truncate_head_run (s : State) (marker : nat) (old : TextNode) (text' : jsstring)
  (start index : Z) (cur : Marker) :
  store s !! marker = Some cur ->
  truncate_head marker old text' start index s =
  if start >? 0 then
    let n := {| nid := next_id s; nodeValue := js_substr text' 0 start |} in
    match insert_before (Text n) (nid old) (root s) with
    | Some root1 =>
        (Normal (index + 1),
         {| root := root1; text := text s;
            markers := splice_insert (markers s) index (length (store s));
            store := store s ++ [{| node := n; offset := offset cur |}];
            next_id := S (next_id s); node_env := node_env s |})
    | None => (Throw JsTypeError, set_next_id (S (next_id s)) s)
    end
  else (Normal index, s).
Proof.
  intros Hcur. unfold truncate_head. destruct (start >? 0); [|reflexivity].
  run. rewrite (run_deref _ _ cur) by exact Hcur.
  unfold dom_insertBefore. rewrite bind_assoc', run_dom_edit. run.
  destruct (insert_before _ _ _); reflexivity.
Qed.

Lemma truncate_middle_run (s : State) (marker : nat) (text' : jsstring)
  (start end' : Z) (cur : Marker) :
  store s !! marker = Some cur ->
  truncate_middle marker text' start end' s =
  let n := {| nid := next_id s; nodeValue := js_substr text' start (end' - start + 1) |} in
  let moved := {| node := node cur; offset := offset cur + start |} in
  match insert_before (Text n) (nid (node cur)) (root s) with
  | Some root2 =>
      (Normal tt,
       {| root := root2; text := text s; markers := markers s;
          store := <[marker := {| node := n; offset := offset cur + start |}]>
                     (<[marker := moved]> (store s));
          next_id := S (next_id s); node_env := node_env s |})
  | None =>
      (Throw JsTypeError,
       {| root := root s; text := text s; markers := markers s;
          store := <[marker := moved]> (store s);
          next_id := S (next_id s); node_env := node_env s |})
  end.
Proof.
  intros Hcur. unfold truncate_middle.
  assert (marker < length (store s))%nat as Hlt by (by apply lookup_lt_Some in Hcur).
  rewrite (run_assign _ _ cur) by exact Hcur. run.
  erewrite run_deref by (run; apply list_lookup_insert_eq; exact Hlt).
  unfold dom_insertBefore. rewrite bind_assoc', run_dom_edit. run.
  destruct (insert_before _ _ _); [|reflexivity].
  run. erewrite run_assign_last by (run; apply list_lookup_insert_eq; exact Hlt).
  reflexivity.
Qed.

Lemma truncate_tail_run (s : State) (marker : nat) (text' : jsstring)
  (start end' index : Z) (cur : Marker) :
  store s !! marker = Some cur ->
  truncate_tail marker text' start end' index s =
  if negb (end' =? jslength text' - 1) then
    if index >=? Z.of_nat (length (markers s)) then
      (Throw (JsError "Detected invalid index"), s)
    else
      let n := {| nid := next_id s; nodeValue := js_substr_from text' (end' + 1) |} in
      match insert_after (Text n) (nid (node cur)) (root s) with
      | Some root3 =>
          (Normal tt,
           {| root := root3; text := text s;
              markers := splice_insert (markers s) (index + 1) (length (store s));
              store := store s ++ [{| node := n; offset := offset cur + end' - start + 1 |}];
              next_id := S (next_id s); node_env := node_env s |})
      | None => (Throw JsTypeError, set_next_id (S (next_id s)) s)
      end
  else (Normal tt, s).
Proof.
  intros Hcur. unfold truncate_tail. destruct (negb _); [|reflexivity].
  run. destruct (index >=? _); [reflexivity|].
  rewrite (run_deref _ _ cur) by exact Hcur. run.
  unfold dom_insertAfter. rewrite bind_assoc', run_dom_edit. run.
  destruct (insert_after _ _ _); reflexivity.
Qed.

(** [assert] passes on a contiguous array, and never writes. *)
Lemma assert_loop_run (s : State) (refs : list nat) (l : list Marker) (o : Z) :
  view_of refs (store s) = Some l -> contiguous_from o l ->
  assert_loop refs o s = (Normal tt, s).
Proof.
  rewrite view_of_Forall2. intros Hv. revert o.
  induction Hv as [|r m refs l Hr Hv IH]; intros o Hc; [reflexivity|].
  destruct Hc as [Ho Hc]. simpl.
  rewrite (run_deref _ _ m) by exact Hr.
  destruct (Z.eqb_spec (offset m) o) as [_|Hne]; [|done].
  simpl. by apply IH.
Qed.

Lemma assert_run (s : State) (l : list Marker) :
  view s = Some l -> contiguous_from 0 l -> assert s = (Normal tt, s).
Proof.
  intros Hv Hc. unfold assert, bind, gets. by apply (assert_loop_run s _ l).
Qed.

(** *** The array after a split, as a list *)

Lemma splice_insert_at {A : Type} (l : list A) (p : nat) (x : A) :
  splice_insert l (Z.of_nat p) x = take p l ++ x :: drop p l.
Proof. unfold splice_insert. by rewrite Nat2Z.id. Qed.

Lemma splice_insert_segment {A : Type} (front seg rest : list A) (i : Z) (z : A) :
  i = Z.of_nat (length front + length seg) ->
  splice_insert (front ++ seg ++ rest) i z = front ++ seg ++ z :: rest.
Proof.
  intros ->. rewrite splice_insert_at, !app_assoc.
  rewrite <- length_app.
  rewrite take_app_length, drop_app_length. reflexivity.
Qed.

Lemma insert_segment {A : Type} (front pre rest : list A) (p1 : nat) (x y : A) :
  p1 = (length front + length pre)%nat ->
  <[p1 := y]> (front ++ pre ++ x :: rest) = front ++ pre ++ y :: rest.
Proof.
  intros ->. rewrite app_assoc, <- length_app.
  rewrite insert_app_r_alt by lia.
  rewrite Nat.sub_diag. simpl. by rewrite <- app_assoc.
Qed.

Lemma lookup_segment {A : Type} (front pre rest : list A) (p1 : nat) (x : A) :
  p1 = (length front + length pre)%nat ->
  (front ++ pre ++ x :: rest) !! p1 = Some x.
Proof.
  intros ->. rewrite app_assoc, <- length_app.
  rewrite lookup_app_r by lia. by rewrite Nat.sub_diag.
Qed.

(** A marker replaced by a contiguous run of markers of the same total
    length: the array stays contiguous, as long as before, and free of empty
    nodes. *)
Lemma replace_segment (l : list Marker) (p : nat) (m : Marker) (seg : list Marker) :
  l !! p = Some m ->
  contiguous_from 0 l ->
  Forall (fun m => 0 < node_length m) l ->
  contiguous_from (offset m) seg ->
  total_length seg = node_length m ->
  Forall (fun m => 0 < node_length m) seg ->
  contiguous_from 0 (take p l ++ seg ++ drop (S p) l) /\
  total_length (take p l ++ seg ++ drop (S p) l) = total_length l /\
  Forall (fun m => 0 < node_length m) (take p l ++ seg ++ drop (S p) l).
Proof.
  intros Hp Hc Hpos Hseg Htot Hsegpos.
  pose proof (take_drop_middle l p m Hp) as Hl.
  rewrite <- Hl in Hc, Hpos.
  apply contiguous_from_app in Hc as [Hc1 Hc2].
  change (m :: drop (S p) l) with ([m] ++ drop (S p) l) in Hc2.
  apply contiguous_from_app in Hc2 as [[Hm _] Hc3].
  change (total_length [m]) with (node_length m + 0) in Hc3.
  apply Forall_app in Hpos as [Hpos1 Hpos2]. apply Forall_cons in Hpos2 as [_ Hpos3].
  split; [|split].
  - apply contiguous_from_app. split; [exact Hc1|].
    apply contiguous_from_app. rewrite <- Hm. split; [exact Hseg|].
    rewrite Htot. rewrite Z.add_0_r in Hc3. rewrite Hm. exact Hc3.
  - transitivity (total_length (take p l ++ m :: drop (S p) l)); [|by rewrite Hl].
    rewrite !total_length_app, total_length_cons. lia.
  - apply Forall_app. split; [exact Hpos1|]. apply Forall_app. by split.
Qed.

Lemma js_substr_length (t : jsstring) (start len : Z) :
  0 <= start -> 0 <= len -> start + len <= jslength t ->
  jslength (js_substr t start len) = len.
Proof.
  unfold jslength, js_substr. intros H0 H1 H2.
  rewrite length_take, length_drop. lia.
Qed.

Lemma js_substr_from_length (t : jsstring) (start : Z) :
  0 <= start -> start <= jslength t ->
  jslength (js_substr_from t start) = jslength t - start.
Proof.
  unfold jslength, js_substr_from. intros H0 H1. rewrite length_drop. lia.
Qed.

(** The markers that replace a split marker are contiguous from its
    offset, as long together as its node, and none has an empty node. *)
Lemma segment_props (m : Marker) (start end' : Z) (fresh : nat) :
  0 <= start -> start <= end' -> end' < node_length m ->
  contiguous_from (offset m) (segment m start end' fresh) /\
  total_length (segment m start end' fresh) = node_length m /\
  Forall (fun m => 0 < node_length m) (segment m start end' fresh).
Proof.
  intros H0 H1 H2. unfold segment, head_node, tail_node.
  assert (Hmid : jslength (js_substr (nodeValue (node m)) start (end' - start + 1))
                 = end' - start + 1).
  { apply js_substr_length; unfold node_length in H2; lia. }
  assert (Hhead : jslength (js_substr (nodeValue (node m)) 0 start) = start).
  { apply js_substr_length; unfold node_length in H2; lia. }
  assert (Htail : jslength (js_substr_from (nodeValue (node m)) (end' + 1))
                  = jslength (nodeValue (node m)) - end' - 1).
  { unfold node_length in *. rewrite js_substr_from_length; lia. }
  unfold total_length. unfold node_length in *.
  destruct (Z.gtb_spec start 0) as [Hs|Hs];
    destruct (Z.eqb_spec end' (jslength (nodeValue (node m)) - 1)) as [He|He];
    cbn [negb app contiguous_from foldr];
    (split; [|split]); repeat constructor;
    unfold node_length, middle_node; cbn [node offset nodeValue nid];
    rewrite ?Hmid, ?Hhead, ?Htail; lia.
Qed.

(** *** What each block does to the array *)

Lemma fresh_ref_not_in (ms : list nat) (st l : list Marker) :
  view_of ms st = Some l -> length st ∉ ms.
Proof.
  intros Hv Hin. pose proof (view_of_bound ms st l _ Hv Hin). lia.
Qed.

(** The first block: a new marker right before the one that is split. *)
Lemma head_view (ms : list nat) (st front rest : list Marker) (marker : nat)
  (m x : Marker) :
  view_of ms st = Some (front ++ m :: rest) -> NoDup ms ->
  ms !! length front = Some marker -> st !! marker = Some m ->
  let ms1 := splice_insert ms (Z.of_nat (length front)) (length st) in
  let st1 := st ++ [x] in
  view_of ms1 st1 = Some (front ++ [x] ++ m :: rest) /\ NoDup ms1 /\
  ms1 !! (length front + 1)%nat = Some marker /\ st1 !! marker = Some m.
Proof.
  intros Hv Hnd Hp Hm ms1 st1.
  assert (length ms = length (front ++ m :: rest)) as Hlen.
  { apply view_of_Forall2 in Hv. by eapply Forall2_length. }
  rewrite length_app in Hlen. simpl in Hlen.
  split; [|split; [|split]].
  - replace (front ++ [x] ++ m :: rest)
      with (splice_insert (front ++ m :: rest) (Z.of_nat (length front)) x).
    + apply view_of_splice; [by apply view_of_alloc|].
      subst st1. by rewrite lookup_app_r, Nat.sub_diag.
    + rewrite splice_insert_at, take_app_length, drop_app_length. reflexivity.
  - apply splice_insert_NoDup; [exact Hnd | by eapply fresh_ref_not_in].
  - subst ms1. replace (length front + 1)%nat with (S (length front)) by lia.
    rewrite splice_insert_lookup_gt; [exact Hp | lia | lia].
  - subst st1. rewrite lookup_app_l; [exact Hm | by apply lookup_lt_Some in Hm].
Qed.

(** The second block: the split marker, reassigned twice. *)
Lemma middle_view (ms : list nat) (st front pre rest : list Marker) (marker : nat)
  (cur x y : Marker) :
  view_of ms st = Some (front ++ pre ++ cur :: rest) -> NoDup ms ->
  ms !! (length front + length pre)%nat = Some marker ->
  let st2 := <[marker := y]> (<[marker := x]> st) in
  view_of ms st2 = Some (front ++ pre ++ y :: rest) /\ st2 !! marker = Some y /\
  length st2 = length st /\
  (forall r, r <> marker -> st2 !! r = st !! r).
Proof.
  intros Hv Hnd Hp st2. subst st2. rewrite list_insert_insert_eq.
  assert (marker < length st)%nat as Hlt.
  { eapply view_of_bound; [exact Hv|]. by eapply list_elem_of_lookup_2. }
  split; [|split; [|split]].
  - rewrite <- (insert_segment front pre rest _ cur y eq_refl).
    by apply view_of_assign.
  - by apply list_lookup_insert_eq.
  - by rewrite length_insert.
  - intros r Hr. by apply list_lookup_insert_ne.
Qed.

(** The third block: a new marker right after the one that is split. *)
Lemma tail_view (ms : list nat) (st front pre rest : list Marker) (marker : nat)
  (y z : Marker) :
  view_of ms st = Some (front ++ pre ++ y :: rest) -> NoDup ms ->
  ms !! (length front + length pre)%nat = Some marker -> st !! marker = Some y ->
  let ms3 := splice_insert ms (Z.of_nat (length front + length pre) + 1) (length st) in
  let st3 := st ++ [z] in
  view_of ms3 st3 = Some (front ++ pre ++ y :: z :: rest) /\ NoDup ms3 /\
  ms3 !! (length front + length pre)%nat = Some marker /\ st3 !! marker = Some y.
Proof.
  intros Hv Hnd Hp Hm ms3 st3.
  assert (length ms = length (front ++ pre ++ y :: rest)) as Hlen.
  { apply view_of_Forall2 in Hv. by eapply Forall2_length. }
  rewrite !length_app in Hlen. simpl in Hlen.
  split; [|split; [|split]].
  - replace (front ++ pre ++ y :: z :: rest)
      with (splice_insert (front ++ pre ++ y :: rest)
              (Z.of_nat (length front + length pre) + 1) z).
    + apply view_of_splice; [by apply view_of_alloc|].
      subst st3. by rewrite lookup_app_r, Nat.sub_diag.
    + change (pre ++ y :: rest) with (pre ++ [y] ++ rest).
      rewrite (app_assoc pre [y] rest).
      rewrite (splice_insert_segment front (pre ++ [y]) rest).
      * by rewrite <- (app_assoc pre [y]).
      * rewrite length_app. simpl. lia.
  - apply splice_insert_NoDup; [exact Hnd | by eapply fresh_ref_not_in].
  - subst ms3. rewrite splice_insert_lookup_lt; [exact Hp | lia | lia].
  - subst st3. rewrite lookup_app_l; [exact Hm | by apply lookup_lt_Some in Hm].
Qed.

(** *** The three blocks, as steps of a state *)

Lemma head_step (s : State) (front rest : list Marker) (marker : nat) (m : Marker)
  (start : Z) (root1 : Node) :
  view s = Some (front ++ m :: rest) -> NoDup (markers s) ->
  markers s !! length front = Some marker -> store s !! marker = Some m ->
  match head_node m start (next_id s) with
  | Some n => insert_before (Text n) (nid (node m)) (root s)
  | None => Some (root s)
  end = Some root1 ->
  exists s1 pre,
    truncate_head marker (node m) (nodeValue (node m)) start (Z.of_nat (length front)) s
      = (Normal (Z.of_nat (length front) + (if start >? 0 then 1 else 0)), s1) /\
    pre = match head_node m start (next_id s) with
          | Some n => [{| node := n; offset := offset m |}]
          | None => []
          end /\
    view s1 = Some (front ++ pre ++ m :: rest) /\ NoDup (markers s1) /\
    markers s1 !! (length front + length pre)%nat = Some marker /\
    store s1 !! marker = Some m /\
    root s1 = root1 /\ text s1 = text s /\ node_env s1 = node_env s /\
    next_id s1 = (next_id s + length pre)%nat /\
    (forall r, (r < length (store s))%nat -> store s1 !! r = store s !! r) /\
    (forall r, r ∈ markers s -> r ∈ markers s1).
Proof.
  intros Hv Hnd Hp Hm Hdom.
  rewrite (truncate_head_run _ _ _ _ _ _ m Hm). unfold head_node in *.
  destruct (start >? 0).
  - cbv zeta. rewrite Hdom.
    destruct (head_view _ _ _ _ _ _
                {| node := {| nid := next_id s;
                              nodeValue := js_substr (nodeValue (node m)) 0 start |};
                   offset := offset m |} Hv Hnd Hp Hm) as (Hv1 & Hnd1 & Hp1 & Hm1).
    eexists _, _. split; [reflexivity|]. split; [reflexivity|].
    cbn [root text markers store next_id node_env length].
    split; [exact Hv1|]. split; [exact Hnd1|]. split; [exact Hp1|]. split; [exact Hm1|].
    split; [reflexivity|]. split; [reflexivity|]. split; [reflexivity|].
    split; [lia|]. split; [intros r Hr; by rewrite lookup_app_l|].
    intros r Hr. rewrite splice_insert_perm. set_solver.
  - injection Hdom as <-. exists s, []. rewrite Z.add_0_r.
    split; [reflexivity|]. split; [reflexivity|].
    cbn [app length]. rewrite !Nat.add_0_r.
    repeat (split; [done|]). done.
Qed.

Lemma middle_step (s : State) (front pre rest : list Marker) (marker : nat)
  (cur : Marker) (text' : jsstring) (start end' : Z) (root2 : Node) :
  view s = Some (front ++ pre ++ cur :: rest) -> NoDup (markers s) ->
  markers s !! (length front + length pre)%nat = Some marker ->
  store s !! marker = Some cur ->
  insert_before
    (Text {| nid := next_id s; nodeValue := js_substr text' start (end' - start + 1) |})
    (nid (node cur)) (root s) = Some root2 ->
  exists s2,
    let y := {| node := {| nid := next_id s;
                           nodeValue := js_substr text' start (end' - start + 1) |};
                offset := offset cur + start |} in
    truncate_middle marker text' start end' s = (Normal tt, s2) /\
    view s2 = Some (front ++ pre ++ y :: rest) /\ NoDup (markers s2) /\
    markers s2 = markers s /\
    store s2 !! marker = Some y /\
    root s2 = root2 /\ text s2 = text s /\ node_env s2 = node_env s /\
    next_id s2 = S (next_id s) /\
    length (store s2) = length (store s) /\
    (forall r, r <> marker -> store s2 !! r = store s !! r).
Proof.
  intros Hv Hnd Hp Hm Hdom.
  rewrite (truncate_middle_run _ _ _ _ _ cur Hm). cbv zeta. rewrite Hdom.
  destruct (middle_view _ _ _ _ _ _ _
              {| node := node cur; offset := offset cur + start |}
              {| node := {| nid := next_id s;
                            nodeValue := js_substr text' start (end' - start + 1) |};
                 offset := offset cur + start |} Hv Hnd Hp) as (Hv2 & Hm2 & Hlen & Hframe).
  eexists. split; [reflexivity|].
  cbn [root text markers store next_id node_env].
  split; [exact Hv2|]. split; [exact Hnd|]. split; [reflexivity|]. split; [exact Hm2|].
  repeat (split; [done|]). exact Hframe.
Qed.

Lemma tail_step (s : State) (front pre rest : list Marker) (marker : nat)
  (m y : Marker) (start end' : Z) (root3 : Node) :
  view s = Some (front ++ pre ++ y :: rest) -> NoDup (markers s) ->
  markers s !! (length front + length pre)%nat = Some marker ->
  store s !! marker = Some y ->
  let tail := if negb (end' =? node_length m - 1) then
                Some {| nid := next_id s;
                        nodeValue := js_substr_from (nodeValue (node m)) (end' + 1) |}
              else None in
  match tail with
  | Some n => insert_after (Text n) (nid (node y)) (root s)
  | None => Some (root s)
  end = Some root3 ->
  exists s3 post,
    truncate_tail marker (nodeValue (node m)) start end'
      (Z.of_nat (length front + length pre)) s = (Normal tt, s3) /\
    post = match tail with
           | Some n => [{| node := n; offset := offset y + end' - start + 1 |}]
           | None => []
           end /\
    view s3 = Some (front ++ pre ++ y :: post ++ rest) /\ NoDup (markers s3) /\
    markers s3 !! (length front + length pre)%nat = Some marker /\
    store s3 !! marker = Some y /\
    root s3 = root3 /\ text s3 = text s /\ node_env s3 = node_env s /\
    next_id s3 = (next_id s + length post)%nat /\
    (forall r, (r < length (store s))%nat -> store s3 !! r = store s !! r) /\
    (forall r, r ∈ markers s -> r ∈ markers s3).
Proof.
  intros Hv Hnd Hp Hm tail Hdom. subst tail.
  rewrite (truncate_tail_run _ _ _ _ _ _ y Hm). fold (node_length m).
  destruct (negb (end' =? node_length m - 1)).
  - assert (length (markers s) = length (front ++ pre ++ y :: rest)) as Hlen.
    { apply view_of_Forall2 in Hv. by eapply Forall2_length. }
    rewrite !length_app in Hlen. simpl in Hlen.
    destruct (Z.geb_spec (Z.of_nat (length front + length pre))
                (Z.of_nat (length (markers s)))); [lia|].
    cbv zeta. rewrite Hdom.
    destruct (tail_view _ _ _ _ _ _ _
                {| node := {| nid := next_id s;
                              nodeValue := js_substr_from (nodeValue (node m)) (end' + 1) |};
                   offset := offset y + end' - start + 1 |} Hv Hnd Hp Hm)
      as (Hv3 & Hnd3 & Hp3 & Hm3).
    eexists _, _. split; [reflexivity|]. split; [reflexivity|].
    cbn [root text markers store next_id node_env length app].
    split; [exact Hv3|]. split; [exact Hnd3|]. split; [exact Hp3|]. split; [exact Hm3|].
    split; [reflexivity|]. split; [reflexivity|]. split; [reflexivity|].
    split; [lia|]. split; [intros r Hr; by rewrite lookup_app_l|].
    intros r Hr. rewrite splice_insert_perm. set_solver.
  - injection Hdom as <-. exists s, [].
    split; [reflexivity|]. split; [reflexivity|].
    cbn [app length]. rewrite !Nat.add_0_r.
    repeat (split; [done|]). done.
Qed.

(** *** [truncate] that runs to its end *)
Lemma well_formed_ext (s s' : State) (l : list Marker) :
  markers s' = markers s -> store s' = store s -> text s' = text s ->
  well_formed s l -> well_formed s' l.
Proof.
  intros Hm Hs Ht [Hv Hnd Hc Hpos Htext]. unfold view in Hv.
  constructor; unfold view; congruence.
Qed.

Lemma well_formed_set_root (s : State) (l : list Marker) (r : Node) :
  well_formed s l -> well_formed (set_root r s) l.
Proof. intros [? ? ? ? ?]. by constructor. Qed.

Lemma truncate_run (s : State) (l : list Marker) (marker p : nat) (m : Marker)
  (start end' : Z) (root' : Node) :
  well_formed s l -> markers s !! p = Some marker -> store s !! marker = Some m ->
  0 <= start -> start <= end' -> end' < node_length m ->
  truncate_dom (node m) (head_node m start (next_id s))
    (middle_node m start end' (next_id s)) (tail_node m start end' (next_id s))
    (root s) = Some root' ->
  exists s',
    truncate marker start end' s
      = (Normal (Z.of_nat p + (if start >? 0 then 1 else 0)), s') /\
    root s' = root' /\ text s' = text s /\ node_env s' = node_env s /\
    next_id s' = (next_id s + length (segment m start end' (next_id s)))%nat /\
    well_formed s' (take p l ++ segment m start end' (next_id s) ++ drop (S p) l) /\
    store s' !! marker
      = Some {| node := middle_node m start end' (next_id s); offset := offset m + start |} /\
    (forall r, r <> marker -> (r < length (store s))%nat -> store s' !! r = store s !! r) /\
    (forall r, r ∈ markers s -> r ∈ markers s').
Proof.
  intros Hwf Hp Hm H0 H1 H2 Hdom.
  pose proof Hwf as [Hv Hnd Hc Hpos Htext].
  assert (Hlp : l !! p = Some m).
  { rewrite (view_lookup s l p Hv), Hp. exact Hm. }
  pose proof (indexOf_position s l p m Hwf Hlp) as Hidx.
  destruct (segment_props m start end' (next_id s) H0 H1 H2) as (Hsc & Hst & Hsp).
  destruct (replace_segment l p m _ Hlp Hc Hpos Hsc Hst Hsp) as (Hc' & Ht' & Hp').
  pose proof (take_drop_middle l p m Hlp) as Hl.
  assert (Hfront : length (take p l) = p).
  { apply length_take_le. apply lookup_lt_Some in Hlp. lia. }
  clear Hsc Hst Hsp Hc Hpos Hwf.
  set (front := take p l) in *. set (rest := drop (S p) l) in *.
  unfold view in Hv.
  rewrite <- Hl in Hv. rewrite <- Hfront in Hp, Hidx |- *. clear Hl Hlp Hfront.
  (* the edits of the tree, one by one *)
  unfold truncate_dom in Hdom.
  apply bind_Some in Hdom as (root1 & E1 & Hdom).
  apply bind_Some in Hdom as (root2 & E2 & Hdom).
  apply bind_Some in Hdom as (root3 & E3 & E4).
  (* the call *)
  unfold truncate. rewrite (run_deref _ _ m) by exact Hm.
  unfold bind at 1, pure_call. rewrite Hidx.
  destruct (Z.ltb_spec start 0); [lia|].
  destruct (Z.ltb_spec end' 0); [lia|].
  destruct (Z.gtb_spec start end'); [lia|].
  cbn [orb]. fold (node_length m).
  destruct (Z.geb_spec end' (node_length m)); [lia|].
  destruct (head_step s front rest marker m start root1 Hv Hnd Hp Hm E1)
    as (s1 & pre & Hrun1 & Hpre & Hv1 & Hnd1 & Hp1 & Hm1 & Hr1 & Ht1 & He1 & Hn1 & Hf1 & Hk1).
  unfold bind at 1. rewrite Hrun1.
  assert (Hmid : middle_node m start end' (next_id s)
                 = {| nid := next_id s1;
                      nodeValue := js_substr (nodeValue (node m)) start (end' - start + 1) |}).
  { unfold middle_node, head_node in *. rewrite Hn1, Hpre.
    destruct (start >? 0); simpl; f_equal; lia. }
  rewrite Hmid in E2, E3. rewrite <- Hr1 in E2.
  destruct (middle_step s1 front pre rest marker m (nodeValue (node m)) start end' root2
              Hv1 Hnd1 Hp1 Hm1 E2)
    as (s2 & Hrun2 & Hv2 & Hnd2 & Hms2 & Hm2 & Hr2 & Ht2 & He2 & Hn2 & Hl2 & Hf2).
  cbv zeta in Hv2, Hm2.
  unfold bind at 1. rewrite Hrun2.
  set (y := {| node := {| nid := next_id s1;
                          nodeValue := js_substr (nodeValue (node m)) start (end' - start + 1) |};
               offset := offset m + start |}) in *.
  rewrite <- Hms2 in Hp1.
  assert (E3' : match (if negb (end' =? node_length m - 1) then
                         Some {| nid := next_id s2;
                                 nodeValue := js_substr_from (nodeValue (node m)) (end' + 1) |}
                       else None) with
                | Some n => insert_after (Text n) (nid (node y)) (root s2)
                | None => Some (root s2)
                end = Some root3).
  { unfold tail_node in E3. rewrite Hmid in E3. cbn [nid] in E3.
    rewrite Hn2, Hr2. exact E3. }
  destruct (tail_step s2 front pre rest marker m y start end' root3
              Hv2 Hnd2 Hp1 Hm2 E3')
    as (s3 & post & Hrun3 & Hpost & Hv3 & Hnd3 & Hp3 & Hm3 & Hr3 & Ht3 & He3 & Hn3 & Hf3 & Hk3).
  unfold bind at 1.
  replace (Z.of_nat (length front) + (if start >? 0 then 1 else 0))
    with (Z.of_nat (length front + length pre)).
  2:{ rewrite Hpre. unfold head_node. destruct (start >? 0); simpl; lia. }
  rewrite Hrun3.
  (* the array at the end *)
  assert (Hseg : segment m start end' (next_id s) = pre ++ y :: post).
  { unfold segment. rewrite <- Hpre. f_equal. rewrite Hmid. fold y. f_equal.
    rewrite Hpost. unfold tail_node. rewrite Hmid, Hn2. reflexivity. }
  rewrite Hseg in Hc', Ht', Hp' |- *.
  repeat rewrite <- app_assoc in Hc'. repeat rewrite <- app_assoc in Ht'.
  repeat rewrite <- app_assoc in Hp'. repeat rewrite <- app_assoc.
  cbn [app] in Hc', Ht', Hp' |- *.
  assert (Hwf3 : well_formed s3 (front ++ pre ++ y :: post ++ rest)).
  { constructor; try assumption. rewrite Ht3, Ht2, Ht1, Htext. by rewrite Ht'. }
  (* the assertion of development builds, and the removal *)
  rewrite run_gets.
  assert (Hassert : (if development s3 then assert else ret tt) s3 = (Normal tt, s3)).
  { destruct (development s3); [|reflexivity]. by apply (assert_run s3 _ Hv3). }
  unfold bind at 1. rewrite Hassert.
  rewrite run_dom_edit, Hr3, E4.
  exists (set_root root' s3). split; [reflexivity|].
  cbn [root text node_env next_id store set_root].
  split; [reflexivity|]. split; [congruence|]. split; [congruence|].
  split; [rewrite Hn3, Hn2, Hn1, length_app; simpl; lia|].
  split; [by apply well_formed_set_root|].
  split; [rewrite Hmid; exact Hm3|].
  split; [|intros r Hr; apply Hk3; rewrite Hms2; by apply Hk1].
  intros r Hr Hlt.
  assert (r < length (store s1))%nat.
  { apply lookup_lt_is_Some. rewrite Hf1 by exact Hlt. by apply lookup_lt_is_Some_2. }
  rewrite Hf3 by lia. rewrite Hf2 by exact Hr. by apply Hf1.
Qed.

(** When the split node has a parent, every edit of the tree goes through. *)
Lemma truncate_dom_parented (old : TextNode) (head : option TextNode) (middle : TextNode)
  (tail : option TextNode) (root0 : Node) :
  parented (nid old) root0 ->
  is_Some (truncate_dom old head middle tail root0).
Proof.
  intros Hpar. unfold truncate_dom.
  assert (exists root1, match head with
                        | Some n => insert_before (Text n) (nid old) root0
                        | None => Some root0
                        end = Some root1 /\ parented (nid old) root1)
    as (root1 & -> & Hpar1).
  { destruct head as [n|]; [|by eexists].
    destruct (proj1 (DomFacts.parented_replace_child (nid old)
                       (fun c => [Text n; c]) root0) Hpar) as [root1 E1].
    exists root1. split; [exact E1|].
    apply (DomFacts.parented_after_edit _ _ _ _ _ E1). left.
    split; [exact Hpar|]. intros c. set_solver. }
  cbn [mbind option_bind].
  destruct (proj1 (DomFacts.parented_replace_child (nid old)
                     (fun c => [Text middle; c]) root1) Hpar1) as [root2 E2].
  unfold insert_before at 1. rewrite E2. cbn [mbind option_bind].
  assert (parented (nid old) root2) as Hpar2.
  { apply (DomFacts.parented_after_edit _ _ _ _ _ E2). left.
    split; [exact Hpar1|]. intros c. set_solver. }
  assert (parented (nid middle) root2) as Hmid2.
  { apply (DomFacts.parented_after_edit _ _ _ _ _ E2). right.
    intros c _. exists (Text middle). split; [set_solver | reflexivity]. }
  assert (exists root3, match tail with
                        | Some n => insert_after (Text n) (nid middle) root2
                        | None => Some root2
                        end = Some root3 /\ parented (nid old) root3)
    as (root3 & -> & Hpar3).
  { destruct tail as [n|]; [|by eexists].
    destruct (proj1 (DomFacts.parented_replace_child (nid middle)
                       (fun c => [c; Text n]) root2) Hmid2) as [root3 E3].
    exists root3. split; [exact E3|].
    apply (DomFacts.parented_after_edit _ _ _ _ _ E3). left.
    split; [exact Hpar2|]. intros c. set_solver. }
  cbn [mbind option_bind].
  by apply DomFacts.parented_replace_child.
Qed.

(** When the split node has no parent, [truncate] throws at its first edit
    of the tree, with the array as it was. *)
Lemma truncate_unparented (s : State) (l : list Marker) (marker p : nat) (m : Marker)
  (start end' : Z) :
  well_formed s l -> markers s !! p = Some marker -> store s !! marker = Some m ->
  0 <= start -> start <= end' -> end' < node_length m ->
  ~ parented (nid (node m)) (root s) ->
  exists s', truncate marker start end' s = (Throw JsTypeError, s') /\
             well_formed s' l.
Proof.
  intros Hwf Hp Hm H0 H1 H2 Hnp.
  pose proof Hwf as [Hv Hnd Hc Hpos Htext].
  assert (Hlp : l !! p = Some m).
  { rewrite (view_lookup s l p Hv), Hp. exact Hm. }
  pose proof (indexOf_position s l p m Hwf Hlp) as Hidx.
  assert (Hnone : forall g, replace_child (nid (node m)) g (root s) = None).
  { intros g. destruct (replace_child _ g _) eqn:E; [|reflexivity].
    exfalso. apply Hnp. apply (DomFacts.parented_replace_child _ g). by eexists. }
  unfold truncate. rewrite (run_deref _ _ m) by exact Hm.
  unfold bind at 1, pure_call. rewrite Hidx.
  destruct (Z.ltb_spec start 0); [lia|].
  destruct (Z.ltb_spec end' 0); [lia|].
  destruct (Z.gtb_spec start end'); [lia|].
  cbn [orb]. fold (node_length m).
  destruct (Z.geb_spec end' (node_length m)); [lia|].
  unfold bind at 1. rewrite (truncate_head_run _ _ _ _ _ _ m Hm).
  destruct (Z.gtb_spec start 0) as [Hs|Hs].
  - cbv zeta. unfold insert_before. rewrite Hnone.
    eexists. split; [reflexivity|]. by apply (well_formed_ext s).
  - unfold bind at 1. rewrite (truncate_middle_run _ _ _ _ _ m Hm).
    cbv zeta. unfold insert_before. rewrite Hnone.
    eexists. split; [reflexivity|].
    assert (start = 0) as -> by lia.
    assert ({| node := node m; offset := offset m + 0 |} = m) as ->.
    { rewrite Z.add_0_r. by destruct m. }
    apply (well_formed_ext s); [reflexivity| |reflexivity|exact Hwf].
    cbn [store]. by apply list_insert_id.
Qed.

(** A valid [truncate] call on a well-formed index leaves a well-formed
    index whose marker nodes are as long together as before, whatever the
    call ends with. *)
Lemma truncate_well_formed (s : State) (l : list Marker) (marker : nat)
  (start end' : Z) :
  well_formed s l -> valid_call s marker start end' ->
  exists l', well_formed (snd (truncate marker start end' s)) l' /\
             total_length l' = total_length l.
Proof.
  intros Hwf (Hin & m & Hm & H0 & H1 & H2).
  apply list_elem_of_lookup in Hin as [p Hp].
  destruct (replace_child (nid (node m)) (fun c => [c]) (root s)) as [r|] eqn:Hpar.
  - destruct (truncate_dom_parented (node m) (head_node m start (next_id s))
                (middle_node m start end' (next_id s))
                (tail_node m start end' (next_id s)) (root s)) as [root' Hdom].
    { unfold parented. rewrite Hpar. by eexists. }
    destruct (truncate_run s l marker p m start end' root' Hwf Hp Hm H0 H1 H2 Hdom)
      as (s' & Hrun & _ & _ & _ & _ & Hwf' & _).
    rewrite Hrun. eexists. split; [exact Hwf'|].
    pose proof Hwf as [Hv _ Hc Hpos _].
    assert (Hlp : l !! p = Some m).
    { rewrite (view_lookup s l p Hv), Hp. exact Hm. }
    destruct (segment_props m start end' (next_id s) H0 H1 H2) as (Hsc & Hst & Hsp).
    by destruct (replace_segment l p m _ Hlp Hc Hpos Hsc Hst Hsp) as (_ & Ht' & _).
  - destruct (truncate_unparented s l marker p m start end' Hwf Hp Hm H0 H1 H2)
      as (s' & Hrun & Hwf').
    { unfold parented. rewrite Hpar. by intros [? ?]. }
    rewrite Hrun. by exists l.
Qed.

(** ** TextContent.js: [parse] *)

Lemma filter_concat {A : Type} (P : A -> Prop) `{!forall x, Decision (P x)}
  (ls : list (list A)) :
  filter P (concat ls) = concat (map (filter P) ls).
Proof.
  induction ls as [|l ls IH]; [reflexivity|].
  simpl. by rewrite filter_app, IH.
Qed.

Lemma recorded_Element (parent : string) (i : nat) (tag : string) (hl : bool)
  (ch : list Node) :
  recorded parent (Element i tag hl ch) = concat (map (recorded tag) ch).
Proof.
  unfold recorded. simpl. rewrite filter_concat, map_map. reflexivity.
Qed.

Lemma markers_from_app (o : Z) (a b : list TextNode) :
  markers_from o (a ++ b) =
  markers_from o a ++ markers_from (o + total_length (markers_from o a)) b.
Proof.
  revert o. induction a as [|t a IH]; intros o.
  - cbn [markers_from app]. change (total_length []) with 0. by rewrite Z.add_0_r.
  - cbn [markers_from app]. rewrite IH, total_length_cons.
    unfold node_length at 1. cbn [node]. by rewrite Z.add_assoc.
Qed.

Lemma markers_from_length (o : Z) (ts : list TextNode) :
  length (markers_from o ts) = length ts.
Proof. revert o. induction ts as [|t ts IH]; intros o; simpl; [done | by rewrite IH]. Qed.

Lemma markers_from_nodes (o : Z) (ts : list TextNode) :
  map node (markers_from o ts) = ts.
Proof. revert o. induction ts as [|t ts IH]; intros o; simpl; [done | by rewrite IH]. Qed.

Lemma markers_from_total (o o' : Z) (ts : list TextNode) :
  total_length (markers_from o ts) = total_length (markers_from o' ts).
Proof.
  revert o o'. induction ts as [|t ts IH]; intros o o'; [done|].
  cbn [markers_from]. rewrite !total_length_cons.
  rewrite (IH _ (o' + jslength (nodeValue t))). reflexivity.
Qed.

Lemma markers_from_contiguous (o : Z) (ts : list TextNode) :
  contiguous_from o (markers_from o ts).
Proof.
  revert o. induction ts as [|t ts IH]; intros o; simpl; [done|].
  split; [reflexivity|]. apply IH.
Qed.

Lemma visit_result_app (ts1 ts2 : list (string * TextNode)) (o : Z) (s s1 s2 : State) :
  visit_result ts1 o s s1 ->
  visit_result ts2 (o + total_length (markers_from o (map snd ts1))) s1 s2 ->
  visit_result (ts1 ++ ts2) o s s2.
Proof.
  intros (Hm1 & Hs1 & Ht1 & Hr1 & Hn1 & He1) (Hm2 & Hs2 & Ht2 & Hr2 & Hn2 & He2).
  unfold visit_result.
  rewrite Hm2, Hs2, Ht2, Hr2, Hn2, He2, Hm1, Hs1, Ht1, Hr1, Hn1, He1.
  rewrite !length_app, !map_app, markers_from_app, concat_app, seq_app.
  rewrite markers_from_length, length_map, <- !app_assoc. done.
Qed.

Lemma visit_run (tag : string) (n : Node) (o : Z) (s : State) :
  exists s',
    _visit (Some tag) n o s
      = (Normal (o + total_length (markers_from o (map snd (recorded tag n)))), s') /\
    visit_result (recorded tag n) o s s'.
Proof.
  revert tag o s.
  induction n as [t | i tag' hl ch IH] using DomFacts.Node_forall_ind; intros tag o s.
  - unfold recorded, nonempty. simpl.
    destruct (Z.ltb_spec (jslength (nodeValue t)) 1) as [Hlt|Hge].
    + rewrite filter_cons_False by (simpl; destruct (Z.ltb_spec (jslength (nodeValue t)) 1); [done|lia]).
      rewrite filter_nil. simpl. exists s. change (total_length []) with 0. rewrite Z.add_0_r.
      split; [reflexivity|]. unfold visit_result. simpl. by rewrite !app_nil_r.
    + rewrite filter_cons_True by (simpl; destruct (Z.ltb_spec (jslength (nodeValue t)) 1); [lia|done]).
      rewrite filter_nil. cbn [map markers_from snd]. rewrite total_length_cons. change (total_length []) with 0.
      unfold node_length. cbn [node]. rewrite Z.add_0_r.
      run.
      destruct (bool_decide (tag ∈ IGNORE_TAGNAMES)) eqn:Hb; run;
        (eexists; split; [reflexivity|]); unfold visit_result, contribution;
        cbn [markers store text root next_id node_env set_markers set_text
             set_store length seq map concat markers_from fst snd];
        unfold jslength; rewrite ?Nat2Z.id, ?app_nil_r, Hb; done.
  - rewrite recorded_Element. simpl.
    revert o s. induction IH as [|c ch IHc _ IHch]; intros o s.
    + simpl. exists s. change (total_length []) with 0. rewrite Z.add_0_r.
      split; [reflexivity|]. unfold visit_result. simpl. by rewrite !app_nil_r.
    + simpl. destruct (IHc tag' o s) as (s1 & Hrun1 & Hres1).
      unfold bind at 1. rewrite Hrun1.
      destruct (IHch (o + total_length (markers_from o (map snd (recorded tag' c)))) s1)
        as (s2 & Hrun2 & Hres2).
      rewrite Hrun2. exists s2. split.
      * rewrite map_app, markers_from_app, total_length_app. by rewrite Z.add_assoc.
      * by eapply visit_result_app.
Qed.

Lemma view_of_fresh (st new : list Marker) :
  view_of (seq (length st) (length new)) (st ++ new) = Some new.
Proof.
  apply view_of_Forall2. apply Forall2_same_length_lookup_2.
  { by rewrite length_seq. }
  intros i r m Hr Hm. apply lookup_seq in Hr as [-> _].
  rewrite lookup_app_r by lia. rewrite <- Hm. f_equal. lia.
Qed.

Lemma contribution_length (p : string * TextNode) :
  length (contribution p) = length (nodeValue p.2).
Proof.
  unfold contribution. destruct (bool_decide _); [|reflexivity].
  apply length_replicate.
Qed.

Lemma flattened_length (o : Z) (ts : list (string * TextNode)) :
  jslength (concat (map contribution ts)) = total_length (markers_from o (map snd ts)).
Proof.
  revert o. induction ts as [|p ts IH]; intros o; [reflexivity|].
  cbn [map concat markers_from]. rewrite total_length_cons.
  unfold jslength in *. rewrite length_app, contribution_length, Nat2Z.inj_add.
  rewrite (IH (o + Z.of_nat (length (nodeValue p.2)))). reflexivity.
Qed.

Lemma recorded_nonempty (o : Z) (ts : list (string * TextNode)) :
  Forall (fun p => nonempty p = true) ts ->
  Forall (fun m => 0 < node_length m) (markers_from o (map snd ts)).
Proof.
  intros H. revert o. induction H as [|p ts Hp _ IH]; intros o; [constructor|].
  cbn [map markers_from]. constructor; [|apply IH].
  unfold nonempty in Hp. unfold node_length. cbn [node].
  destruct (Z.ltb_spec (jslength (nodeValue p.2)) 1); [discriminate | lia].
Qed.

(** The index [_visit] builds from an empty one is well formed. *)
Lemma visit_result_well_formed (tag : string) (n : Node) (s s' : State) :
  markers s = [] -> text s = [] ->
  visit_result (recorded tag n) 0 s s' ->
  well_formed s' (markers_from 0 (map snd (recorded tag n))).
Proof.
  intros Hms Htx (Hm & Hs & Ht & _). constructor.
  - unfold view. rewrite Hm, Hs, Hms. cbn [app].
    rewrite <- (length_map snd), <- (markers_from_length 0).
    apply view_of_fresh.
  - rewrite Hm, Hms. apply NoDup_seq.
  - apply markers_from_contiguous.
  - apply recorded_nonempty. unfold recorded.
    apply Forall_forall. intros p Hp. by apply list_elem_of_filter in Hp as [Hp _].
  - rewrite Ht, Htx. apply flattened_length.
Qed.

(** [parse] on a root that is an element: it returns, and what it leaves. *)
Lemma parse_run (s0 : State) (i : nat) (tag : string) (hl : bool) (ch : list Node) :
  root s0 = Element i tag hl ch ->
  exists s',
    parse s0 = (Normal tt, s') /\
    visit_result (recorded "" (root s0)) 0 (set_markers [] (set_text [] s0)) s' /\
    well_formed s' (markers_from 0 (map snd (recorded "" (root s0)))).
Proof.
  intros Hroot. unfold parse. run.
  destruct (visit_run "" (root s0) 0 (set_markers [] (set_text [] s0)))
    as (s' & Hrun & Hres).
  assert (Hnone : _visit None (root s0) 0 (set_markers [] (set_text [] s0))
                  = _visit (Some ""%string) (root s0) 0 (set_markers [] (set_text [] s0))).
  { rewrite Hroot. reflexivity. }
  pose proof (visit_result_well_formed "" (root s0) (set_markers [] (set_text [] s0)) s'
                eq_refl eq_refl Hres) as Hwf.
  unfold bind at 1. rewrite Hnone, Hrun. run.
  exists s'. split; [|split; [exact Hres | exact Hwf]].
  destruct (development s'); [|reflexivity].
  rewrite run_gets.
  destruct (Z.eqb_spec (Z.of_nat (length (markers s'))) 0) as [|Hne]; [reflexivity|].
  cbn [negb]. rewrite run_gets.
  pose proof Hwf as [Hv _ Hc _ _].
  rewrite (marker_at_view s' _ _ Hv).
  rewrite (view_length s' _ Hv) in Hne |- *.
  destruct (array_get_in_range (markers_from 0 (map snd (recorded "" (root s0))))
              (Z.of_nat (length (markers_from 0 (map snd (recorded "" (root s0))))) - 1))
    as [a Ha]; [lia|].
  rewrite Ha. run. apply array_get_Some in Ha as [_ Ha].
  rewrite (offsets_last _ _ a Hc Ha) by lia.
  fold (node_length a).
  destruct (Z.eqb_spec (0 + (offset a + node_length a) - node_length a) (offset a));
    [reflexivity | lia].
Qed.

(** An index that [parse] returned from is well formed. *)
Lemma parse_well_formed (s0 : State) :
  fst (parse s0) = Normal tt -> exists l, well_formed (snd (parse s0)) l.
Proof.
  destruct (root s0) as [t | i tag hl ch] eqn:Hroot.
  - unfold parse. run. rewrite Hroot. cbn [_visit].
    destruct (Z.ltb_spec (jslength (nodeValue t)) 1) as [Hlt|Hge].
    + run. intros _. exists [].
      destruct (development _); cbn [snd];
        (constructor; [reflexivity | constructor | exact I | constructor | reflexivity]).
    + run. discriminate.
  - intros _. destruct (parse_run s0 i tag hl ch Hroot) as (s' & Hrun & _ & Hwf).
    rewrite Hrun. by eexists.
Qed.

(** Every index reached from a parse by valid [truncate] calls is well
    formed. *)
Lemma reachable_well_formed (s : State) :
  reachable s -> exists l, well_formed s l.
Proof.
  induction 1 as [s0 Hparse | s marker start end' _ [l Hwf] Hvalid].
  - by apply parse_well_formed.
  - destruct (truncate_well_formed s l marker start end' Hwf Hvalid) as (l' & Hwf' & _).
    by exists l'.
Qed.

(** *** [truncate] at a known place of the tree *)

(** The edits of [truncate] on a tree with unique identities, where the
    split node is a child of the node at [p]: the nodes of the new markers
    take its place, in order. *)
Lemma truncate_dom_at (p : Path) (i : nat) (tag : string) (hl : bool)
  (L R : list Node) (m : Marker) (start end' : Z) (N : nat) :
  tree_ok N (plug p (Element i tag hl (L ++ Text (node m) :: R))) ->
  let nodes := map (fun k => Text (node k)) (segment m start end' N) in
  truncate_dom (node m) (head_node m start N) (middle_node m start end' N)
    (tail_node m start end' N) (plug p (Element i tag hl (L ++ Text (node m) :: R)))
  = Some (plug p (Element i tag hl (L ++ nodes ++ R))) /\
  tree_ok (N + length nodes) (plug p (Element i tag hl (L ++ nodes ++ R))).
Proof.
  intros Hok nodes. subst nodes.
  unfold truncate_dom, segment, head_node, tail_node, middle_node.
  destruct (start >? 0); destruct (negb (end' =? node_length m - 1));
    cbn [map app node nid length mbind option_bind].
  - set (h := {| nid := N; nodeValue := js_substr (nodeValue (node m)) 0 start |}).
    set (y := {| nid := S N;
                 nodeValue := js_substr (nodeValue (node m)) start (end' - start + 1) |}).
    set (t := {| nid := S (S N);
                 nodeValue := js_substr_from (nodeValue (node m)) (end' + 1) |}).
    destruct (DomFacts.insert_before_at p i tag hl L R (Text (node m)) (Text h) N
                Hok eq_refl) as [E1 Hok1].
    cbn [node_id] in E1. rewrite E1. cbn [mbind option_bind].
    destruct (DomFacts.insert_before_at p i tag hl (L ++ [Text h]) R (Text (node m))
                (Text y) (S N)) as [E2 Hok2];
      [by rewrite <- app_assoc | reflexivity |].
    repeat rewrite <- app_assoc in E2. repeat rewrite <- app_assoc in Hok2. cbn [app node_id] in E2, Hok2.
    rewrite E2. cbn [mbind option_bind].
    destruct (DomFacts.insert_after_at p i tag hl (L ++ [Text h]) (Text (node m) :: R)
                (Text y) (Text t) (S (S N))) as [E3 Hok3];
      [by rewrite <- app_assoc | reflexivity |].
    repeat rewrite <- app_assoc in E3. repeat rewrite <- app_assoc in Hok3. cbn [app node_id] in E3, Hok3.
    change (nid y) with (S N) in E3. rewrite E3. cbn [mbind option_bind].
    destruct (DomFacts.remove_at p i tag hl (L ++ [Text h; Text y; Text t]) R
                (Text (node m)) (S (S (S N)))) as [E4 Hok4];
      [by rewrite <- app_assoc|].
    repeat rewrite <- app_assoc in E4. repeat rewrite <- app_assoc in Hok4. cbn [app node_id] in E4, Hok4.
    rewrite E4. split; [reflexivity|].
    by replace (N + 3)%nat with (S (S (S N))) by lia.
  - set (h := {| nid := N; nodeValue := js_substr (nodeValue (node m)) 0 start |}).
    set (y := {| nid := S N;
                 nodeValue := js_substr (nodeValue (node m)) start (end' - start + 1) |}).
    destruct (DomFacts.insert_before_at p i tag hl L R (Text (node m)) (Text h) N
                Hok eq_refl) as [E1 Hok1].
    cbn [node_id] in E1. rewrite E1. cbn [mbind option_bind].
    destruct (DomFacts.insert_before_at p i tag hl (L ++ [Text h]) R (Text (node m))
                (Text y) (S N)) as [E2 Hok2];
      [by rewrite <- app_assoc | reflexivity |].
    repeat rewrite <- app_assoc in E2. repeat rewrite <- app_assoc in Hok2. cbn [app node_id] in E2, Hok2.
    rewrite E2. cbn [mbind option_bind].
    destruct (DomFacts.remove_at p i tag hl (L ++ [Text h; Text y]) R
                (Text (node m)) (S (S N))) as [E4 Hok4];
      [by rewrite <- app_assoc|].
    repeat rewrite <- app_assoc in E4. repeat rewrite <- app_assoc in Hok4. cbn [app node_id] in E4, Hok4.
    rewrite E4. split; [reflexivity|].
    by replace (N + 2)%nat with (S (S N)) by lia.
  - set (y := {| nid := N;
                 nodeValue := js_substr (nodeValue (node m)) start (end' - start + 1) |}).
    set (t := {| nid := S N;
                 nodeValue := js_substr_from (nodeValue (node m)) (end' + 1) |}).
    destruct (DomFacts.insert_before_at p i tag hl L R (Text (node m)) (Text y) N
                Hok eq_refl) as [E2 Hok2].
    cbn [node_id] in E2. rewrite E2. cbn [mbind option_bind].
    destruct (DomFacts.insert_after_at p i tag hl L (Text (node m) :: R)
                (Text y) (Text t) (S N) Hok2 eq_refl) as [E3 Hok3].
    cbn [node_id] in E3. change (nid y) with N in E3. rewrite E3.
    cbn [mbind option_bind].
    destruct (DomFacts.remove_at p i tag hl (L ++ [Text y; Text t]) R
                (Text (node m)) (S (S N))) as [E4 Hok4];
      [by rewrite <- app_assoc|].
    repeat rewrite <- app_assoc in E4. repeat rewrite <- app_assoc in Hok4. cbn [app node_id] in E4, Hok4.
    rewrite E4. split; [reflexivity|].
    by replace (N + 2)%nat with (S (S N)) by lia.
  - set (y := {| nid := N;
                 nodeValue := js_substr (nodeValue (node m)) start (end' - start + 1) |}).
    destruct (DomFacts.insert_before_at p i tag hl L R (Text (node m)) (Text y) N
                Hok eq_refl) as [E2 Hok2].
    cbn [node_id] in E2. rewrite E2. cbn [mbind option_bind].
    destruct (DomFacts.remove_at p i tag hl (L ++ [Text y]) R
                (Text (node m)) (S N)) as [E4 Hok4];
      [by rewrite <- app_assoc|].
    repeat rewrite <- app_assoc in E4. repeat rewrite <- app_assoc in Hok4. cbn [app node_id] in E4, Hok4.
    rewrite E4. split; [reflexivity|].
    by replace (N + 1)%nat with (S N) by lia.
Qed.

(** ** TextContent.js: the specified properties *)

Lemma well_formed_sorted (s : State) (l : list Marker) :
  well_formed s l -> sorted l /\ contiguous l.
Proof.
  intros [_ _ Hc _ _]. split.
  - intros i j a b Ha Hb Hij. by apply (offsets_mono l i j a b).
  - intros i a b Ha Hb. by apply (offsets_next l i a b).
Qed.

(** C1. For every freshly parsed index and every sequence of valid
    [truncate] calls on it, the markers array is sorted ascending by offset
    and contiguous (each marker starts where the one before it ends), and a
    further valid [truncate] call leaves it sorted and contiguous with the
    same sum of the lengths of all marker nodes. *)
Theorem truncate_keeps_index_contiguous (s : State) :
  reachable s ->
  exists l, view s = Some l /\ sorted l /\ contiguous l /\
    forall marker start end',
      valid_call s marker start end' ->
      exists l', view (snd (truncate marker start end' s)) = Some l' /\
                 sorted l' /\ contiguous l' /\
                 total_length l' = total_length l.
Proof.
  intros Hreach. destruct (reachable_well_formed s Hreach) as [l Hwf].
  exists l. destruct (well_formed_sorted s l Hwf) as [Hs Hc].
  split; [apply Hwf|]. split; [exact Hs|]. split; [exact Hc|].
  intros marker start end' Hvalid.
  destruct (truncate_well_formed s l marker start end' Hwf Hvalid) as (l' & Hwf' & Htot).
  exists l'. destruct (well_formed_sorted _ l' Hwf') as [Hs' Hc'].
  split; [apply Hwf'|]. by repeat split.
Qed.

Lemma truncate_keeps_index_contiguous_witness :
  reachable sample_index /\
  exists l, view sample_index = Some l /\ sorted l /\ contiguous l /\
    forall marker start end',
      valid_call sample_index marker start end' ->
      exists l', view (snd (truncate marker start end' sample_index)) = Some l' /\
                 sorted l' /\ contiguous l' /\
                 total_length l' = total_length l.
Proof.
  assert (reachable sample_index) as H.
  { apply (reach_parse (constructor sample_root 6 "development")). reflexivity. }
  split; [exact H | apply (truncate_keeps_index_contiguous sample_index H)].
Defined.

(** Past the end of the text, on any well-formed index that is not empty,
    [indexOf] answers with the last marker. *)
Lemma indexOf_past_end (s : State) (l : list Marker) (o : Z) :
  well_formed s l -> l <> [] -> total_length l <= o ->
  indexOf s o = Normal (Z.of_nat (length l) - 1).
Proof.
  intros Hwf Hne Ho.
  destruct (indexOf_well_formed s l o Hwf Hne) as (i & m & Hi & _ & _ & _ & Hlast).
  { pose proof (total_length_nonneg l). lia. }
  rewrite Hi, <- (Hlast Ho). f_equal. lia.
Qed.

(** C2, at the failing input.  The index of [sample_root] holds 19
    characters; [indexOf] throws for a negative offset, but for the offsets
    19 and 100, at and past the end of the text, it returns the index of the
    last marker, which ends at 19. *)
Theorem indexOf_past_the_end_returns_last_marker :
  jslength (text sample_index) = 19 /\
  indexOf sample_index (-1) = Throw (JsError "Invalid offset of text content state") /\
  indexOf sample_index 19 = Normal 2 /\
  indexOf sample_index 100 = Normal 2 /\
  marker_at sample_index 2
    = Some {| node := {| nid := 5; nodeValue := js " match" |}; offset := 13 |}.
Proof. repeat split. Qed.

(** C3. For every index reached from a parse and every offset [o] inside
    the flattened text, [indexOf o] returns the index of a marker whose node
    contains [o]. *)
Theorem indexOf_lands_on_containing_marker (s : State) (o : Z) :
  reachable s -> 0 <= o < jslength (text s) ->
  exists i m, indexOf s o = Normal i /\ marker_at s i = Some m /\
              offset m <= o < offset m + node_length m.
Proof.
  intros Hreach Ho. destruct (reachable_well_formed s Hreach) as [l Hwf].
  pose proof Hwf as [Hv _ _ _ Htext]. rewrite Htext in Ho.
  assert (l <> []) as Hne.
  { intros ->. change (total_length []) with 0 in Ho. lia. }
  destruct (indexOf_well_formed s l o Hwf Hne) as (i & m & Hi & Hm & Hle & Hin & _); [lia|].
  exists (Z.of_nat i), m. split; [exact Hi|].
  split; [by rewrite (marker_at_view s l _ Hv), array_get_nat|].
  split; [exact Hle | apply Hin; lia].
Qed.

Lemma indexOf_lands_on_containing_marker_witness :
  (reachable sample_index /\ 0 <= 10 < jslength (text sample_index)) /\
  exists i m, indexOf sample_index 10 = Normal i /\ marker_at sample_index i = Some m /\
              offset m <= 10 < offset m + node_length m.
Proof.
  assert (reachable sample_index) as H.
  { apply (reach_parse (constructor sample_root 6 "development")). reflexivity. }
  assert (0 <= 10 < jslength (text sample_index)) as Ho by (vm_compute; split; congruence).
  split; [split; [exact H | exact Ho]|].
  apply (indexOf_lands_on_containing_marker sample_index 10 H Ho).
Defined.

(** C8. After [parse] on a root element, the flattened text is the
    concatenation, in pre-order, of what every non-empty text node
    contributes (its content, or as many spaces under a never-rendered
    parent); the markers are those of the non-empty text nodes, in the same
    order and contiguous from 0, so an empty text node has no marker; and
    the text is as long as the offset of the last marker plus the length of
    its node. *)
Theorem parse_flattens_text (s0 : State) (i : nat) (tag : string) (hl : bool)
  (ch : list Node) :
  root s0 = Element i tag hl ch ->
  let ts := filter (fun p => nonempty p = true)
              (concat (map (texts_with_parent tag) ch)) in
  exists s',
    parse s0 = (Normal tt, s') /\
    text s' = concat (map contribution ts) /\
    view s' = Some (markers_from 0 (map snd ts)) /\
    map node (markers_from 0 (map snd ts)) = map snd ts /\
    (forall m, last (markers_from 0 (map snd ts)) = Some m ->
               jslength (text s') = offset m + node_length m).
Proof.
  intros Hroot ts.
  destruct (parse_run s0 i tag hl ch Hroot) as (s' & Hrun & Hres & Hwf).
  assert (recorded "" (root s0) = ts) as Hts by (by rewrite Hroot).
  rewrite Hts in Hres, Hwf.
  exists s'. split; [exact Hrun|].
  destruct Hres as (_ & _ & Ht & _). cbn [text set_markers set_text app] in Ht.
  split; [exact Ht|]. split; [apply Hwf|]. split; [apply markers_from_nodes|].
  intros m Hlast. destruct Hwf as [_ _ Hc _ Htext]. rewrite Htext.
  rewrite last_lookup in Hlast.
  apply (offsets_last _ _ m Hc Hlast).
  apply lookup_lt_Some in Hlast. lia.
Qed.

Lemma parse_flattens_text_witness :
  let s0 := constructor sample_root 6 "production" in
  root s0 = sample_root /\
  exists s',
    parse s0 = (Normal tt, s') /\
    text s' = js "Positive      match" /\
    view s' = Some [ {| node := {| nid := 1; nodeValue := js "Positive " |}; offset := 0 |};
                     {| node := {| nid := 3; nodeValue := js "x();" |}; offset := 9 |};
                     {| node := {| nid := 5; nodeValue := js " match" |}; offset := 13 |} ].
Proof.
  intros s0. split; [reflexivity|].
  destruct (parse_flattens_text s0 0 "P" false _ eq_refl) as (s' & Hrun & Ht & Hv & _).
  exists s'. split; [exact Hrun|]. split; [exact Ht | exact Hv].
Defined.

(** C9. A [truncate] whose arguments violate [0 <= start <= end < length]
    throws, and the state it throws in is the state it was called in: no
    marker and no node has been touched.  On an index reached from a parse,
    for a marker of the index, the error is one of the two of the sanity
    checks. *)
Theorem truncate_invalid_arguments_atomic (s : State) (marker : nat) (m : Marker)
  (start end' : Z) :
  store s !! marker = Some m ->
  ~ (0 <= start /\ start <= end' /\ end' < node_length m) ->
  exists e, truncate marker start end' s = (Throw e, s) /\
    (reachable s -> marker ∈ markers s ->
     e = JsError "Invalid truncation parameters" \/ e = JsError "End offset overflow").
Proof.
  intros Hm Hbad. unfold truncate. rewrite (run_deref _ _ m) by exact Hm.
  unfold bind at 1, pure_call.
  destruct (indexOf s (offset m)) as [index|e] eqn:Hidx.
  - fold (node_length m).
    destruct (Z.ltb_spec start 0); [|destruct (Z.ltb_spec end' 0);
      [|destruct (Z.gtb_spec start end');
        [|destruct (Z.geb_spec end' (node_length m)); [|lia]]]];
      cbn [orb]; eexists; (split; [reflexivity|]); auto.
  - exists e. split; [reflexivity|]. intros Hreach Hin. exfalso.
    destruct (reachable_well_formed s Hreach) as [l Hwf].
    apply list_elem_of_lookup in Hin as [p Hp].
    assert (l !! p = Some m) as Hlp.
    { rewrite (view_lookup s l p (wf_view s l Hwf)), Hp. exact Hm. }
    rewrite (indexOf_position s l p m Hwf Hlp) in Hidx. discriminate.
Qed.

Lemma truncate_invalid_arguments_atomic_witness :
  let m := {| node := {| nid := 5; nodeValue := js " match" |}; offset := 13 |} in
  (store sample_index !! 2%nat = Some m /\
   ~ (0 <= 2 /\ 2 <= 6 /\ 6 < node_length m)) /\
  truncate 2 2 6 sample_index = (Throw (JsError "End offset overflow"), sample_index).
Proof.
  intros m.
  assert (store sample_index !! 2%nat = Some m) as Hm by reflexivity.
  assert (~ (0 <= 2 /\ 2 <= 6 /\ 6 < node_length m)) as Hbad.
  { intros (_ & _ & H). vm_compute in H. discriminate. }
  split; [split; [exact Hm | exact Hbad]|].
  destruct (truncate_invalid_arguments_atomic sample_index 2 m 2 6 Hm Hbad) as (e & He & _).
  rewrite He. f_equal. vm_compute in He. congruence.
Defined.

Lemma texts_with_parent_nodes (tag : string) (n : Node) :
  map snd (texts_with_parent tag n) = text_nodes n.
Proof.
  revert tag. induction n as [t | i tag' hl ch IH] using DomFacts.Node_forall_ind;
    intros tag; [reflexivity|].
  simpl. induction IH as [|c ch IHc _ IHch]; [reflexivity|].
  simpl. by rewrite map_app, IHc, IHch.
Qed.

(** C10. On an index whose markers array is empty, [indexOf] throws the
    [TypeError] of the read of [markers[0].offset], whatever the offset; and
    the markers array is empty after the constructor, after [dispose], and
    after a [parse] over a root element without non-empty text nodes. *)
Theorem indexOf_on_empty_index_type_error :
  (forall s o, markers s = [] -> indexOf s o = Throw JsTypeError) /\
  (forall r n e, markers (constructor r n e) = []) /\
  (forall s, markers (dispose s) = []) /\
  (forall s0 i tag hl ch,
     root s0 = Element i tag hl ch ->
     Forall (fun t => nodeValue t = []) (text_nodes (root s0)) ->
     fst (parse s0) = Normal tt /\ markers (snd (parse s0)) = []).
Proof.
  split; [|split; [|split]].
  - intros s o Hempty. unfold indexOf, indexOf_while, marker_at. by rewrite Hempty.
  - reflexivity.
  - reflexivity.
  - intros s0 i tag hl ch Hroot Hblank.
    destruct (parse_run s0 i tag hl ch Hroot) as (s' & Hrun & (Hm & _) & _).
    rewrite Hrun. split; [reflexivity|]. cbn [snd]. rewrite Hm.
    assert (recorded "" (root s0) = []) as ->; [|reflexivity].
    unfold recorded. rewrite <- (texts_with_parent_nodes "") in Hblank.
    induction (texts_with_parent "" (root s0)) as [|p ts IH]; [reflexivity|].
    apply Forall_cons in Hblank as [Hp Hts].
    rewrite filter_cons_False; [by apply IH|].
    unfold nonempty. simpl in Hp. rewrite Hp. simpl. discriminate.
Qed.

Lemma indexOf_on_empty_index_type_error_witness :
  let fresh := constructor sample_root 6 "production" in
  let blank := constructor blank_root 3 "production" in
  (markers fresh = [] /\ indexOf fresh 0 = Throw JsTypeError) /\
  (markers (dispose sample_index) = [] /\
   indexOf (dispose sample_index) 3 = Throw JsTypeError) /\
  (root blank = blank_root /\
   Forall (fun t => nodeValue t = []) (text_nodes (root blank)) /\
   indexOf (snd (parse blank)) 0 = Throw JsTypeError).
Proof.
  intros fresh blank.
  destruct indexOf_on_empty_index_type_error as (Hidx & Hnew & Hdisp & Hparse).
  split; [|split].
  - split; [apply Hnew | apply Hidx, Hnew].
  - split; [apply Hdisp | apply Hidx, Hdisp].
  - assert (Forall (fun t => nodeValue t = []) (text_nodes (root blank))) as Hblank.
    { repeat constructor. }
    split; [reflexivity|]. split; [exact Hblank|].
    apply Hidx. by apply (Hparse blank 0%nat "P"%string false _ eq_refl).
Defined.

End TextContentFacts.

(** ** HighlightRenderer.js *)

Module HighlightRendererFacts.
Import Dom HighlightRenderer.

Lemma on_content_run {A : Type} (c : @M TextContent.State A) (s : State)
  (a : completion A) (c' : TextContent.State) :
  c (content s) = (a, c') ->
  on_content c s = (a, {| content := c'; decorated := decorated s |}).
Proof. intros H. unfold on_content. by rewrite H. Qed.

(** [_createHighlightElement] on a text node that is a child of the node at
    [p], in a tree with unique identities below the counter: a new [span]
    takes the place of the text node and holds it as its only child;
    nothing else changes. *)
Lemma wrap_at (s : State) (p : Path) (i : nat) (tag : string) (hl : bool)
  (L R : list Node) (n : TextNode) :
  let N := TextContent.next_id (content s) in
  TextContent.root (content s) = plug p (Element i tag hl (L ++ Text n :: R)) ->
  tree_ok N (TextContent.root (content s)) ->
  exists s',
    _createHighlightElement n s = (Normal N, s') /\
    TextContent.root (content s')
      = plug p (Element i tag hl (L ++ Element N "SPAN" true [Text n] :: R)) /\
    tree_ok (S N) (TextContent.root (content s')) /\
    TextContent.next_id (content s') = S N /\
    TextContent.text (content s') = TextContent.text (content s) /\
    TextContent.markers (content s') = TextContent.markers (content s) /\
    TextContent.store (content s') = TextContent.store (content s) /\
    TextContent.node_env (content s') = TextContent.node_env (content s) /\
    decorated s' = decorated s.
Proof.
  intros N Hroot Hok. rewrite Hroot in Hok.
  set (span := Element N "SPAN" true []).
  destruct (DomFacts.insert_before_at p i tag hl L R (Text n) span N Hok eq_refl)
    as [E1 Hok1].
  destruct (DomFacts.remove_at p i tag hl (L ++ [span]) R (Text n) (S N))
    as [E2 Hok2]; [by rewrite <- app_assoc|].
  repeat rewrite <- app_assoc in E2. repeat rewrite <- app_assoc in Hok2. cbn [app node_id] in E1, E2, Hok2.
  pose proof (DomFacts.edit_at p i tag hl L R span
                (fun q => match q with
                          | Element i tag hl ch => [Element i tag hl (ch ++ [Text n])]
                          | Text _ => [q]
                          end) (proj1 Hok2)) as E3.
  cbn [node_id span app] in E3.
  eexists. split.
  - unfold _createHighlightElement. apply on_content_run.
    rewrite bind_gets, bind_modify, !TextContentFacts.run_dom_edit.
    cbn [TextContent.root TextContent.set_next_id TextContent.set_root].
    fold N. rewrite Hroot. fold span. rewrite E1, !TextContentFacts.run_dom_edit.
    cbn [TextContent.root TextContent.set_next_id TextContent.set_root].
    rewrite E2, !TextContentFacts.run_dom_edit.
    cbn [TextContent.root TextContent.set_next_id TextContent.set_root].
    unfold append_to. subst span. rewrite E3. reflexivity.
  - cbn [content decorated TextContent.root TextContent.next_id TextContent.text
         TextContent.markers TextContent.store TextContent.node_env
         TextContent.set_root TextContent.set_next_id].
    split; [reflexivity|]. split; [|by repeat split].
    apply (DomFacts.tree_ok_replace p i tag hl L [Text n] [Element N "SPAN" true [Text n]]
             R N (S N) Hok); [| |lia].
    + unfold ids_of. simpl. apply NoDup_cons. split; [|apply NoDup_singleton].
      intros Hin. apply list_elem_of_singleton in Hin.
      destruct Hok as [_ Hlt]. rewrite Forall_forall in Hlt.
      assert (nid n < N)%nat; [|lia]. apply Hlt.
      rewrite DomFacts.ids_plug, DomFacts.ids_Element, DomFacts.ids_of_app,
        DomFacts.ids_of_cons. simpl. set_solver.
    + intros y Hy. unfold ids_of in *. simpl in *.
      apply elem_of_cons in Hy as [->|Hy]; [right; lia | by left].
Qed.

Lemma bind_on_content {A B : Type} (c : @M TextContent.State A) (k : A -> @M State B)
  (s : State) (a : A) (c' : TextContent.State) :
  c (content s) = (Normal a, c') ->
  bind (on_content c) k s = k a {| content := c'; decorated := decorated s |}.
Proof. intros H. unfold bind, on_content. by rewrite H. Qed.

Lemma deref_run (c : TextContent.State) (r : nat) (m : TextContent.Marker) :
  TextContent.store c !! r = Some m -> TextContent.deref r c = (Normal m, c).
Proof. intros H. unfold TextContent.deref. by rewrite bind_gets, H. Qed.

Lemma segment_nodes (m : TextContent.Marker) (start end' : Z) (N : nat) :
  map (fun k => Text (TextContent.node k)) (TextContent.segment m start end' N)
  = match TextContent.head_node m start N with Some h => [Text h] | None => [] end
    ++ Text (TextContent.middle_node m start end' N)
    :: match TextContent.tail_node m start end' N with Some t => [Text t] | None => [] end.
Proof.
  unfold TextContent.segment. rewrite map_app. cbn [map TextContent.node].
  by destruct (TextContent.head_node m start N), (TextContent.tail_node m start end' N).
Qed.

Lemma text_nodes_ids (n : Node) : map nid (text_nodes n) `sublist_of` ids n.
Proof.
  induction n as [t | i tag hl ch IH] using DomFacts.Node_forall_ind; [reflexivity|].
  simpl. apply sublist_cons.
  induction IH as [|c ch IHc _ IHch]; [reflexivity|].
  simpl. rewrite map_app. by apply sublist_app.
Qed.

Lemma after_skip (t : TextNode) (front rest : list TextNode) :
  nid t ∉ map nid front -> after (nid t) (front ++ t :: rest) = rest.
Proof.
  induction front as [|x front IH]; intros Hnot; simpl.
  - by rewrite Nat.eqb_refl.
  - destruct (Nat.eqb_spec (nid x) (nid t)) as [Heq|_]; [|apply IH; set_solver].
    exfalso. apply Hnot. simpl. rewrite Heq. set_solver.
Qed.

Lemma text_nodes_children (l1 l2 : list Node) :
  concat (map text_nodes (l1 ++ l2))
  = concat (map text_nodes l1) ++ concat (map text_nodes l2).
Proof. by rewrite map_app, concat_app. Qed.

(** [_surround] on a marker whose node is a child of the node at [p]: the
    node is split, and a new [span] that holds the middle part takes its
    place between what is left of it. *)
Lemma surround_at (s : State) (p : Path) (i : nat) (tag : string) (hl : bool)
  (L R : list Node) (descr : Highlight.RangeDescriptor) (m : TextContent.Marker)
  (start : Z) (end_opt : option Z) (l : list TextContent.Marker) (pos : nat) :
  let c := content s in
  let N := TextContent.next_id c in
  let end' := match end_opt with
              | None => jslength (nodeValue (TextContent.node m)) - 1
              | Some e => e
              end in
  TextContent.well_formed c l ->
  TextContent.markers c !! pos = Some (Highlight.marker descr) ->
  TextContent.store c !! Highlight.marker descr = Some m ->
  TextContent.root c = plug p (Element i tag hl (L ++ Text (TextContent.node m) :: R)) ->
  tree_ok N (TextContent.root c) ->
  0 <= start -> start <= end' -> end' < TextContent.node_length m ->
  let before := match TextContent.head_node m start N with
                | Some h => [Text h] | None => [] end in
  let after := match TextContent.tail_node m start end' N with
               | Some t => [Text t] | None => [] end in
  let middle := TextContent.middle_node m start end' N in
  let e := (N + length (TextContent.segment m start end' N))%nat in
  exists s' l',
    _surround descr start end_opt s = (Normal e, s') /\
    TextContent.root (content s')
      = plug p (Element i tag hl
                  (L ++ before ++ Element e "SPAN" true [Text middle] :: after ++ R)) /\
    tree_ok (S e) (TextContent.root (content s')) /\
    TextContent.next_id (content s') = S e /\
    TextContent.well_formed (content s') l' /\
    (forall r, r <> Highlight.marker descr ->
               (r < length (TextContent.store c))%nat ->
               TextContent.store (content s') !! r = TextContent.store c !! r) /\
    (forall r, r ∈ TextContent.markers c -> r ∈ TextContent.markers (content s')) /\
    decorated s' = decorated s.
Proof.
  intros c N end' Hwf Hpos Hm Hroot Hok H0 H1 H2 before after middle e.
  rewrite Hroot in Hok.
  destruct (TextContentFacts.truncate_dom_at p i tag hl L R m start end' N Hok)
    as [Hdom Hok1].
  rewrite <- Hroot in Hdom. rewrite segment_nodes in Hdom. rewrite segment_nodes in Hok1.
  destruct (TextContentFacts.truncate_run c l _ pos m start end' _ Hwf Hpos Hm H0 H1 H2 Hdom)
    as (c1 & Hrun & Hr1 & Ht1 & He1 & Hn1 & Hwf1 & Hm1 & Hf1 & Hk1).
  fold before after middle in Hr1, Hok1.
  set (s1 := {| content := c1; decorated := decorated s |}).
  assert (length (before ++ Text middle :: after)
          = length (TextContent.segment m start end' N)) as Hlen.
  { rewrite <- (length_map (fun k => Text (TextContent.node k))), segment_nodes. done. }
  destruct (wrap_at s1 p i tag hl (L ++ before) (after ++ R) middle)
    as (s2 & Hwrap & Hr2 & Hok2 & Hn2 & Ht2 & Hms2 & Hst2 & He2 & Hd2).
  { cbn [content s1]. rewrite Hr1. by rewrite <- !app_assoc. }
  { cbn [content s1]. rewrite Hr1, Hn1. fold N. rewrite <- Hlen. exact Hok1. }
  cbn [content s1] in Hwrap, Hr2, Hok2, Hn2, Ht2, Hms2, Hst2, He2.
  rewrite Hn1 in Hwrap, Hr2, Hok2, Hn2. fold N e in Hwrap, Hr2, Hok2, Hn2.
  exists s2. eexists. split.
  - unfold _surround.
    rewrite (bind_on_content _ _ s m c) by (by apply deref_run).
    assert ({| content := c; decorated := decorated s |} = s) as -> by (by destruct s).
    rewrite (bind_on_content _ _ s _ c1) by exact Hrun.
    fold s1. rewrite (bind_on_content _ _ s1 _ c1) by (by apply deref_run).
    assert ({| content := c1; decorated := decorated s1 |} = s1) as -> by reflexivity.
    exact Hwrap.
  - split; [rewrite Hr2; by rewrite <- !app_assoc|].
    split; [exact Hok2|]. split; [exact Hn2|].
    split; [eapply (TextContentFacts.well_formed_ext c1); eauto|].
    split; [intros r Hr Hlt; rewrite Hst2; by apply Hf1|].
    split; [intros r Hr; rewrite Hms2; by apply Hk1 | exact Hd2].
Qed.

(** The text nodes of a tree in which three text nodes, with no other text
    between them, are children of the node at [p]. *)
Lemma text_nodes_three (p : Path) (i : nat) (tag : string) (hl : bool)
  (B G1 G2 A : list Node) (ta tb tc : TextNode) :
  concat (map text_nodes G1) = [] -> concat (map text_nodes G2) = [] ->
  text_nodes (plug p (Element i tag hl (B ++ Text ta :: G1 ++ Text tb :: G2 ++ Text tc :: A)))
  = (texts_before p ++ concat (map text_nodes B))
    ++ ta :: tb :: tc :: concat (map text_nodes A) ++ texts_after p.
Proof.
  intros HG1 HG2. rewrite DomFacts.text_nodes_plug. cbn [text_nodes].
  rewrite text_nodes_children. cbn [map concat text_nodes app].
  rewrite text_nodes_children, HG1. cbn [map concat text_nodes app].
  rewrite text_nodes_children, HG2. cbn [map concat text_nodes app].
  by rewrite <- !app_assoc.
Qed.

(** C4. A range that starts in a text node [ta] and ends in a text node
    [tc], with one text node [tb] and no other text between them, the three
    being children of one element: [surround] returns three wrapper
    elements; they take the places of the three text nodes in the tree, in
    document order, and hold the end of [ta] from the start offset, [tb],
    and the start of [tc] up to the end offset; their text contents make up
    the spanned text; and the decorator gets one call of [decorate], with
    the three wrappers. *)
Theorem surround_wraps_three_text_nodes (s : State) (h : Highlight.Highlight)
  (p : Path) (i : nat) (tag : string) (hl : bool) (B G1 G2 A : list Node)
  (ta tb tc : TextNode) (ma mc : TextContent.Marker) (l : list TextContent.Marker) :
  let c := content s in
  let rangeStart := Highlight.start (Highlight.range h) in
  let rangeEnd := Highlight.end' (Highlight.range h) in
  let so := Highlight.offset rangeStart in
  let eo := Highlight.offset rangeEnd in
  TextContent.well_formed c l ->
  TextContent.root c
    = plug p (Element i tag hl (B ++ Text ta :: G1 ++ Text tb :: G2 ++ Text tc :: A)) ->
  tree_ok (TextContent.next_id c) (TextContent.root c) ->
  concat (map text_nodes G1) = [] -> concat (map text_nodes G2) = [] ->
  Highlight.marker rangeStart ∈ TextContent.markers c ->
  TextContent.store c !! Highlight.marker rangeStart = Some ma ->
  TextContent.node ma = ta ->
  Highlight.marker rangeEnd ∈ TextContent.markers c ->
  TextContent.store c !! Highlight.marker rangeEnd = Some mc ->
  TextContent.node mc = tc ->
  0 <= so < jslength (nodeValue ta) ->
  0 <= eo < jslength (nodeValue tc) ->
  exists (e1 e2 e3 : nat) (a' c' : TextNode) (before after : list Node) (s' : State),
    surround h s = Some (Normal [e1; e2; e3], s') /\
    TextContent.root (content s')
      = plug p (Element i tag hl
                  (B ++ before ++ wrapper e1 a' :: G1 ++ wrapper e2 tb :: G2
                     ++ wrapper e3 c' :: after ++ A)) /\
    nodeValue a' = drop (Z.to_nat so) (nodeValue ta) /\
    nodeValue c' = take (Z.to_nat (eo + 1)) (nodeValue tc) /\
    textContent (wrapper e1 a') ++ textContent (wrapper e2 tb) ++ textContent (wrapper e3 c')
      = spanned ta tb tc so eo /\
    decorated s'
      = decorated s
        ++ [([e1; e2; e3],
             Highlight.with_range h (Highlight.clearStartOffset (Highlight.range h)))].
Proof.
  intros c rangeStart rangeEnd so eo Hwf Hroot Hok HG1 HG2 Hina Hma Hta Hinc Hmc Htc Hso Heo.
  (* the three text nodes are distinct, and [ta] is the first with its identity *)
  pose proof (text_nodes_three p i tag hl B G1 G2 A ta tb tc HG1 HG2) as Htexts.
  rewrite <- Hroot in Htexts.
  assert (NoDup (map nid (text_nodes (TextContent.root c)))) as Hnd.
  { eapply sublist_NoDup; [apply Hok | apply text_nodes_ids]. }
  rewrite Htexts, map_app in Hnd. cbn [map] in Hnd.
  apply NoDup_app in Hnd as (_ & Hfront & Hnd).
  apply NoDup_cons in Hnd as (Hab & Hnd). apply NoDup_cons in Hnd as (Hbc & _).
  assert (nid ta ∉ map nid (texts_before p ++ concat (map text_nodes B))) as Hfirst.
  { intros Hin. apply (Hfront _ Hin). set_solver. }
  assert (nid ta <> nid tc) as Hac by set_solver.
  assert (nid tb <> nid tc) as Hbc' by set_solver.
  assert (Highlight.marker rangeStart <> Highlight.marker rangeEnd) as Hne.
  { intros Heq. rewrite Heq, Hmc in Hma. injection Hma as <-. congruence. }
  apply list_elem_of_lookup in Hina as [pa Hpa].
  (* the start segment *)
  destruct (surround_at s p i tag hl B (G1 ++ Text tb :: G2 ++ Text tc :: A)
              rangeStart ma so None l pa)
    as (s1 & l1 & Hrun1 & Hr1 & Hok1 & Hn1 & Hwf1 & Hf1 & Hk1 & Hd1);
    try assumption; try lia; try (rewrite Hta; assumption);
    try (unfold TextContent.node_length; rewrite Hta; lia).
  fold c in Hrun1, Hr1, Hok1, Hn1, Hf1, Hk1.
  assert (TextContent.tail_node ma so (jslength (nodeValue (TextContent.node ma)) - 1)
            (TextContent.next_id c) = None) as Htail1.
  { unfold TextContent.tail_node, TextContent.node_length. by rewrite Z.eqb_refl. }
  rewrite Htail1 in Hr1. cbn [app] in Hr1.
  set (before := match TextContent.head_node ma so (TextContent.next_id c) with
                 | Some h => [Text h] | None => [] end) in *.
  set (a' := TextContent.middle_node ma so
               (jslength (nodeValue (TextContent.node ma)) - 1) (TextContent.next_id c)) in *.
  set (e1 := (TextContent.next_id c
              + length (TextContent.segment ma so
                          (jslength (nodeValue (TextContent.node ma)) - 1)
                          (TextContent.next_id c)))%nat) in *.
  (* the node in between *)
  destruct (wrap_at s1 p i tag hl (B ++ before ++ wrapper e1 a' :: G1)
              (G2 ++ Text tc :: A) tb)
    as (s2 & Hrun2 & Hr2 & Hok2 & Hn2 & Ht2 & Hms2 & Hst2 & He2 & Hd2).
  { rewrite Hr1. by rewrite <- !app_assoc. }
  { by rewrite Hn1. }
  rewrite Hn1 in Hrun2, Hr2, Hok2, Hn2. set (e2 := S e1) in *.
  (* the end segment *)
  assert (TextContent.well_formed (content s2) l1) as Hwf2.
  { by apply (TextContentFacts.well_formed_ext (content s1)). }
  assert (Highlight.marker rangeEnd ∈ TextContent.markers (content s2)) as Hinc2.
  { rewrite Hms2. by apply Hk1. }
  apply list_elem_of_lookup in Hinc2 as [pc Hpc].
  assert (TextContent.store (content s2) !! Highlight.marker rangeEnd = Some mc) as Hmc2.
  { rewrite Hst2, Hf1; [exact Hmc | by apply not_eq_sym | by apply lookup_lt_Some in Hmc]. }
  destruct (surround_at s2 p i tag hl
              (B ++ before ++ wrapper e1 a' :: G1 ++ wrapper e2 tb :: G2) A
              rangeEnd mc 0 (Some eo) l1 pc)
    as (s3 & l3 & Hrun3 & Hr3 & Hok3 & Hn3 & Hwf3 & Hf3 & Hk3 & Hd3);
    try assumption; try lia;
    try (unfold TextContent.node_length; rewrite Htc; lia).
  { rewrite Hr2, Htc. rewrite <- !app_assoc. cbn [app]. by rewrite <- !app_assoc. }
  { by rewrite Hn2. }
  assert (TextContent.head_node mc 0 (TextContent.next_id (content s2)) = None) as Hhead3
    by reflexivity.
  rewrite Hhead3 in Hr3. cbn [app] in Hr3. rewrite Hn2 in Hrun3, Hr3.
  set (after := match TextContent.tail_node mc 0 eo (S e2) with
                | Some t => [Text t] | None => [] end) in *.
  set (c' := TextContent.middle_node mc 0 eo (S e2)) in *.
  set (e3 := (S e2 + length (TextContent.segment mc 0 eo (S e2)))%nat) in *.
  exists e1, e2, e3, a', c', before, after.
  eexists. split; [|split; [|split; [|split; [|split]]]].
  - unfold surround. fold rangeStart rangeEnd. fold c. rewrite Hma, Hmc, Hta, Htc.
    destruct (Nat.eqb_spec (nid ta) (nid tc)) as [|_]; [done|].
    unfold following. rewrite Htexts, (after_skip ta _ _ Hfirst).
    cbn [collect].
    destruct (Nat.eqb_spec (nid tb) (nid tc)) as [|_]; [done|].
    rewrite Nat.eqb_refl. f_equal.
    fold so eo. unfold bind at 1. rewrite Hrun1.
    cbn [surround_each]. unfold _surroundWhole.
    rewrite bind_assoc. unfold bind at 1. rewrite Hrun2.
    repeat (first [rewrite bind_assoc | rewrite bind_ret]; cbn beta).
    unfold bind at 1. rewrite Hrun3.
    unfold decorator_decorate. rewrite bind_modify. cbn [app]. reflexivity.
  - cbn [content]. rewrite Hr3. unfold wrapper.
    rewrite <- !app_assoc. cbn [app]. by rewrite <- !app_assoc.
  - subst a'. unfold TextContent.middle_node. cbn [nodeValue]. rewrite Hta.
    unfold js_substr. apply take_ge. rewrite length_drop. unfold jslength in *. lia.
  - subst c'. unfold TextContent.middle_node. cbn [nodeValue]. rewrite Htc.
    unfold js_substr. rewrite drop_0. f_equal. lia.
  - unfold textContent, wrapper, spanned. cbn [text_nodes map concat app].
    rewrite !app_nil_r.
    subst a' c'. unfold TextContent.middle_node. cbn [nodeValue]. rewrite Hta, Htc.
    unfold js_substr. rewrite drop_0.
    rewrite take_ge by (rewrite length_drop; unfold jslength in *; lia).
    do 3 f_equal. lia.
  - cbn [decorated]. by rewrite Hd3, Hd2, Hd1.
Qed.

Lemma surround_wraps_three_text_nodes_witness :
  let c := content three_state in
  (TextContent.root c = three_root /\ tree_ok (TextContent.next_id c) (TextContent.root c)) /\
  exists (e1 e2 e3 : nat) (s' : State),
    surround three_highlight three_state = Some (Normal [e1; e2; e3], s') /\
    decorated s'
      = [([e1; e2; e3],
          Highlight.with_range three_highlight
            (Highlight.clearStartOffset (Highlight.range three_highlight)))].
Proof.
  intros c.
  assert (tree_ok (TextContent.next_id c) (TextContent.root c)) as Hok.
  { split; [apply (bool_decide_unpack _); vm_compute; exact I|].
    apply (bool_decide_unpack _). vm_compute. exact I. }
  split; [split; [reflexivity | exact Hok]|].
  destruct (TextContentFacts.parse_well_formed
              (TextContent.constructor three_root 7 "development") eq_refl) as [l Hwf].
  set (ta := {| nid := 2; nodeValue := TextContent.js "abc" |}).
  set (tb := {| nid := 4; nodeValue := TextContent.js "def" |}).
  set (tc := {| nid := 6; nodeValue := TextContent.js "ghi" |}).
  destruct (surround_wraps_three_text_nodes three_state three_highlight
              (Below 0 "DIV" false [] Here []) 1 "P" false
              [] [Element 3 "BR" false []] [Element 5 "I" false []] []
              ta tb tc
              {| TextContent.node := ta; TextContent.offset := 0 |}
              {| TextContent.node := tc; TextContent.offset := 6 |} l)
    as (e1 & e2 & e3 & a' & c' & before & after & s' & Hrun & _ & _ & _ & _ & Hdec);
    try reflexivity; try exact Hwf; try exact Hok;
    try (vm_compute; split; congruence).
  - apply (bool_decide_unpack _). vm_compute. exact I.
  - apply (bool_decide_unpack _). vm_compute. exact I.
  - exists e1, e2, e3, s'. split; [exact Hrun | exact Hdec].
Defined.

End HighlightRendererFacts.

(** ** Cursor.js *)

Module CursorFacts.
Import Cursor.

(** The call inside [set] passes [dontRecurse = true], and a call with
    [dontRecurse = true] makes no call to [set]. *)
Lemma set_body_closed (self self' : Z -> bool -> option ScrollToCallback -> @M State bool)
  (i : Z) (cb : option ScrollToCallback) (s : State) :
  set_body self i true cb s = set_body self' i true cb s.
Proof.
  unfold set_body. destruct (i <? 0); [reflexivity|].
  rewrite !bind_gets.
  destruct (markers_find i (iterableQueries s) (highlights s)); reflexivity.
Qed.

(** [set] satisfies the recursive equation of the method. *)
Lemma set_unfold (i : Z) (dontRecurse : bool) (cb : option ScrollToCallback) (s : State) :
  set i dontRecurse cb s = set_body set i dontRecurse cb s.
Proof.
  unfold set at 1. unfold set_body at 1 3. destruct (i <? 0); [reflexivity|].
  rewrite !bind_gets.
  destruct (markers_find i (iterableQueries s) (highlights s)); [reflexivity|].
  destruct dontRecurse; [reflexivity|]. cbn [negb]. apply set_body_closed.
Qed.

(** What [set] does once the index resolves to [h]: the active highlight is
    replaced, the target revealed, and the index committed unless it is
    the current one.  It does not throw. *)
Lemma set_resolved (i : Z) (d : bool) (cb : option ScrollToCallback) (s : State)
  (h : Highlight.Highlight) :
  0 <= i -> markers_find i (iterableQueries s) (highlights s) = Some h ->
  exists s',
    set i d cb s = (Normal (negb (index s =? i)), s') /\
    index s' = i /\ total s' = total s /\ highlights s' = highlights s /\
    iterableQueries s' = iterableQueries s.
Proof.
  intros Hi Hfind. rewrite set_unfold. unfold set_body.
  destruct (Z.ltb_spec i 0); [lia|].
  rewrite bind_gets, Hfind.
  unfold clearActive_, log, bind, gets, modify, ret.
  destruct s as [idx act q tot hs view tr]. cbn [active index total highlights
    iterableQueries in_view trace set_active set_index].
  destruct act as [a|]; destruct (Highlight.elements h) as [|first coll];
    destruct cb as [callback|];
    cbn [negb active index total highlights iterableQueries in_view trace
         set_active set_index];
    try destruct (callback first); try destruct (view first);
    cbn [negb active index total highlights iterableQueries in_view trace
         set_active set_index];
    destruct (Z.eqb_spec idx i) as [->|Hne];
    eexists; (split; [reflexivity|]); cbn [index total highlights iterableQueries];
    auto.
Qed.

(** What [set] does when the index does not resolve. *)
Lemma set_unresolved (i : Z) (cb : option ScrollToCallback) (s : State) :
  0 <= i -> markers_find i (iterableQueries s) (highlights s) = None ->
  set i true cb s = (Normal false, s) /\
  set i false cb s = set 0 true None s.
Proof.
  intros Hi Hfind.
  split; rewrite (set_unfold i); unfold set_body;
    (destruct (Z.ltb_spec i 0); [lia|]); rewrite bind_gets, Hfind; reflexivity.
Qed.

(** For an index that is not negative, [set] returns; nothing a callback
    throws comes out of it. *)
Lemma set_returns (i : Z) (d : bool) (cb : option ScrollToCallback) (s : State) :
  0 <= i -> exists b s', set i d cb s = (Normal b, s').
Proof.
  intros Hi.
  destruct (markers_find i (iterableQueries s) (highlights s)) as [h|] eqn:Hfind.
  - destruct (set_resolved i d cb s h Hi Hfind) as (s' & Hrun & _). by eexists _, _.
  - destruct (set_unresolved i cb s Hi Hfind) as [Htrue Hfalse].
    destruct d; [by eexists _, _|]. rewrite Hfalse.
    destruct (markers_find 0 (iterableQueries s) (highlights s)) as [h|] eqn:Hfind0.
    + destruct (set_resolved 0 true None s h ltac:(lia) Hfind0) as (s' & Hrun & _).
      by eexists _, _.
    + destruct (set_unresolved 0 None s ltac:(lia) Hfind0) as [Htrue0 _].
      by eexists _, _.
Qed.



(** A [set] that finds its highlight, in full: what it returns, every field
    of the cursor afterwards, and what it has done in between. *)
Lemma set_resolved_trace (i : Z) (d : bool) (cb : option ScrollToCallback) (s : State)
  (h : Highlight.Highlight) :
  0 <= i -> markers_find i (iterableQueries s) (highlights s) = Some h ->
  exists s',
    set i d cb s = (Normal (negb (index s =? i)), s') /\
    index s' = i /\ total s' = total s /\ highlights s' = highlights s /\
    iterableQueries s' = iterableQueries s /\ in_view s' = in_view s /\
    active s' = match Highlight.elements h with [] => None | _ :: _ => Some h end /\
    trace s' = trace s ++ deactivation s ++ activation cb s h
               ++ (if index s =? i then [] else [EmitUpdate i (total s)]).
Proof.
  intros Hi Hfind. rewrite set_unfold. unfold set_body.
  destruct (Z.ltb_spec i 0); [lia|].
  rewrite bind_gets, Hfind.
  unfold clearActive_, log, bind, gets, modify, ret, activation, deactivation.
  destruct s as [idx act q tot hs view tr]. cbn [active index total highlights
    iterableQueries in_view trace set_active set_index].
  destruct act as [a|]; destruct (Highlight.elements h) as [|first coll];
    destruct cb as [callback|];
    cbn [negb active index total highlights iterableQueries in_view trace
         set_active set_index];
    try destruct (callback first); try destruct (view first);
    cbn [negb active index total highlights iterableQueries in_view trace
         set_active set_index];
    destruct (Z.eqb_spec idx i) as [->|Hne];
    eexists; (split; [reflexivity|]);
    cbn [index total highlights iterableQueries in_view active trace app
         set_active set_index];
    repeat rewrite <- app_assoc; cbn [app]; rewrite ?app_nil_r; auto 10.
Qed.

(** C6. [set] throws for every negative index, in the state it was called
    in; the message names the index (in decimal, for an index above
    [-10^21], where JavaScript prints a number so).  An index that is not
    negative is looked up: when it resolves, [set] makes no retry and moves
    there.  When it does not resolve: with [dontRecurse] set, [set] returns
    [false] and changes nothing; without, it is the one call [set(0, true)],
    without the callback; this call looks index 0 up and, when it resolves,
    moves the cursor to 0 and makes that highlight the active one; when 0
    does not resolve either, it makes no further retry, returns [false]
    and changes nothing. *)
Theorem set_validates_index_and_retries_once :
  (forall s i d cb,
     i < 0 ->
     exists msg,
       set i d cb s = (Throw (JsError msg), s) /\
       (- 10 ^ 21 < i -> msg = "Invalid cursor index specified: " +:+ pretty i)) /\
  (forall s i d cb h,
     0 <= i -> markers_find i (iterableQueries s) (highlights s) = Some h ->
     exists s',
       set i d cb s = (Normal (negb (index s =? i)), s') /\
       index s' = i /\ total s' = total s /\ highlights s' = highlights s /\
       iterableQueries s' = iterableQueries s /\ in_view s' = in_view s /\
       active s' = match Highlight.elements h with [] => None | _ :: _ => Some h end /\
       trace s' = trace s ++ deactivation s ++ activation cb s h
                  ++ (if index s =? i then [] else [EmitUpdate i (total s)])) /\
  (forall s i cb,
     0 <= i -> markers_find i (iterableQueries s) (highlights s) = None ->
     set i true cb s = (Normal false, s) /\
     set i false cb s = set 0 true None s /\
     (markers_find 0 (iterableQueries s) (highlights s) = None ->
      set i false cb s = (Normal false, s)) /\
     (forall h,
        markers_find 0 (iterableQueries s) (highlights s) = Some h ->
        exists s',
          set i false cb s = (Normal (negb (index s =? 0)), s') /\
          index s' = 0 /\ total s' = total s /\ highlights s' = highlights s /\
          iterableQueries s' = iterableQueries s /\ in_view s' = in_view s /\
          active s' = match Highlight.elements h with [] => None | _ :: _ => Some h end /\
          trace s' = trace s ++ deactivation s ++ activation None s h
                     ++ (if index s =? 0 then [] else [EmitUpdate 0 (total s)]))).
Proof.
  split; [|split].
  - intros s i d cb Hneg. eexists. split.
    + rewrite set_unfold. unfold set_body.
      destruct (Z.ltb_spec i 0); [reflexivity | lia].
    + reflexivity.
  - intros s i d cb h Hi Hfind. by apply set_resolved_trace.
  - intros s i cb Hi Hfind.
    destruct (set_unresolved i cb s Hi Hfind) as [Htrue Hfalse].
    split; [exact Htrue|]. split; [exact Hfalse|]. split.
    + intros Hfind0. rewrite Hfalse.
      by destruct (set_unresolved 0 None s ltac:(lia) Hfind0) as [Htrue0 _].
    + intros h Hfind0. rewrite Hfalse.
      by apply set_resolved_trace.
Qed.

Lemma set_validates_index_and_retries_once_witness :
  let none := snd (constructor [] (fun _ => true)) in
  let a := Highlight.mkHighlight "a" "q" no_range [10%nat] in
  let b := Highlight.mkHighlight "b" "q" no_range [11%nat] in
  let before := [EmitUpdate (-1) 3; EmitClear; EmitSetiterable None] in
  (-3 < 0 /\
   set (-3) false None sample_cursor
     = (Throw (JsError "Invalid cursor index specified: -3"), sample_cursor)) /\
  (0 <= 1 /\
   markers_find 1 (iterableQueries sample_cursor) (highlights sample_cursor) = Some b /\
   exists s', set 1 false None sample_cursor = (Normal true, s') /\
              index s' = 1 /\ active s' = Some b /\
              trace s' = before ++ [SetActive b; EmitUpdate 1 3]) /\
  (0 <= 7 /\
   markers_find 7 (iterableQueries sample_cursor) (highlights sample_cursor) = None /\
   markers_find 0 (iterableQueries sample_cursor) (highlights sample_cursor) = Some a /\
   set 7 true None sample_cursor = (Normal false, sample_cursor) /\
   exists s', set 7 false None sample_cursor = (Normal true, s') /\
              index s' = 0 /\ active s' = Some a /\
              trace s' = before ++ [SetActive a; EmitUpdate 0 3]) /\
  (markers_find 0 (iterableQueries none) (highlights none) = None /\
   set 7 false None none = (Normal false, none)).
Proof.
  intros none a b before.
  destruct set_validates_index_and_retries_once as (Hneg & Hhit & Hmiss).
  split; [|split; [|split]].
  - split; [lia|].
    destruct (Hneg sample_cursor (-3) false None ltac:(lia)) as (msg & Hrun & Hmsg).
    rewrite Hrun, (Hmsg ltac:(lia)). reflexivity.
  - split; [lia|]. split; [reflexivity|].
    destruct (Hhit sample_cursor 1 false None b ltac:(lia) eq_refl)
      as (s' & Hrun & Hidx & _ & _ & _ & _ & Hact & Htr).
    exists s'. split; [exact Hrun|]. split; [exact Hidx|].
    split; [exact Hact | exact Htr].
  - destruct (Hmiss sample_cursor 7 None ltac:(lia) eq_refl) as (Htrue & _ & _ & Hretry).
    split; [lia|]. split; [reflexivity|]. split; [reflexivity|]. split; [exact Htrue|].
    destruct (Hretry a eq_refl) as (s' & Hrun & Hidx & _ & _ & _ & _ & Hact & Htr).
    exists s'. split; [exact Hrun|]. split; [exact Hidx|].
    split; [exact Hact | exact Htr].
  - split; [reflexivity|].
    destruct (Hmiss none 7 None ltac:(lia) eq_refl) as (_ & _ & Hnone & _).
    by apply Hnone.
Defined.

(** C7, at the failing input.  Every element is in view for
    [sample_cursor]; yet [set(0, false, scrollTo)] calls the callback on the
    first element of the target, where the same call without callback leaves
    the viewport alone.  What the callback throws is logged and [set]
    returns [true]. *)
Theorem set_calls_scrollTo_on_visible_target :
  let h := Highlight.mkHighlight "a" "q" no_range [10%nat] in
  let before := [EmitUpdate (-1) 3; EmitClear; EmitSetiterable None] in
  in_view sample_cursor 10 = true /\
  trace sample_cursor = before /\
  trace (snd (set 0 false None sample_cursor))
    = before ++ [SetActive h; EmitUpdate 0 3] /\
  trace (snd (set 0 false (Some (fun _ => None)) sample_cursor))
    = before ++ [SetActive h; CallScrollTo 10; EmitUpdate 0 3] /\
  fst (set 0 false (Some failing_callback) sample_cursor) = Normal true /\
  trace (snd (set 0 false (Some failing_callback) sample_cursor))
    = before ++ [SetActive h; CallScrollTo 10;
                 ConsoleError "failed to scroll to highlight:" (JsError "no scrolling");
                 EmitUpdate 0 3].
Proof. repeat split; reflexivity. Qed.

End CursorFacts.

(** ** TextContent.js: the accessors *)

Module TextContentLaws.
Import Dom TextContent TextContentFacts.

(** *** [indexOf] and [at] *)

(** Whatever the array holds, the loop of [indexOf] stays between [min] and
    [max]. *)
Lemma indexOf_while_range (s : State) (o : Z) :
  forall (gap : nat) (min max k : Z),
    Z.to_nat (max - min) = gap -> min <= max ->
    indexOf_while s o min max = Normal k -> min <= k <= max.
Proof.
  induction gap as [gap IH] using (well_founded_induction lt_wf).
  intros min max k Hgap Hle. rewrite indexOf_loop_unfold.
  destruct (Z.ltb_spec min max) as [Hlt|Hge].
  2:{ intros Hk. injection Hk as <-. lia. }
  pose proof (mid_bounds min max Hlt) as Hmid. cbv zeta.
  set (mid := (min + max) / 2) in *.
  destruct (marker_at s mid) as [m|]; [|discriminate].
  destruct (offset m <? o); intros Hk.
  - pose proof (IH (Z.to_nat (max - (mid + 1))) ltac:(lia) (mid + 1) max k
                  eq_refl ltac:(lia) Hk). lia.
  - pose proof (IH (Z.to_nat (mid - min)) ltac:(lia) min mid k
                  eq_refl ltac:(lia) Hk). lia.
Qed.

Lemma indexOf_range (s : State) (o i : Z) :
  indexOf s o = Normal i -> 0 <= i < Z.of_nat (length (markers s)).
Proof.
  unfold indexOf. cbv zeta.
  destruct (indexOf_while s o 0 (Z.of_nat (length (markers s)) - 1)) as [k|e] eqn:Hk;
    [|discriminate].
  destruct (marker_at s k) as [m|] eqn:Hm; [|discriminate].
  assert (0 <= k < Z.of_nat (length (markers s))) as Hrange.
  { unfold marker_at in Hm. apply bind_Some in Hm as (r & Hr & _).
    apply array_get_Some in Hr as [Hk0 Hr]. apply lookup_lt_Some in Hr. lia. }
  destruct (offset m <=? o); [intros Hi; injection Hi as <-; exact Hrange|].
  destruct (Z.eqb_spec k 0); [discriminate|].
  intros Hi. injection Hi as <-. lia.
Qed.

(** [at] returns the marker object of every index of the array. *)
Lemma at_in_range (s : State) (i : Z) :
  0 <= i < Z.of_nat (length (markers s)) ->
  exists r, at_ s i = Normal (Some r) /\ markers s !! Z.to_nat i = Some r.
Proof.
  intros Hrange. destruct (array_get_in_range (markers s) i Hrange) as [r Hr].
  exists r. unfold at_.
  destruct (Z.ltb_spec i 0); [lia|].
  destruct (Z.geb_spec i (Z.of_nat (length (markers s)))); [lia|].
  cbn [orb]. rewrite Hr. split; [reflexivity|].
  by apply array_get_Some in Hr as [_ Hr].
Qed.

(** X1. Whenever [indexOf] returns, [at] accepts what it returned: the result
    is never [-1] and never past the last marker, on any array and for any
    offset. *)
Theorem indexOf_result_is_a_marker_index (s : State) (o i : Z) :
  indexOf s o = Normal i ->
  0 <= i < Z.of_nat (length (markers s)) /\
  exists r, at_ s i = Normal (Some r) /\ markers s !! Z.to_nat i = Some r.
Proof.
  intros Hi. pose proof (indexOf_range s o i Hi) as Hrange.
  split; [exact Hrange | by apply at_in_range].
Qed.

Lemma indexOf_result_is_a_marker_index_witness :
  indexOf sample_index 10 = Normal 1 /\
  0 <= 1 < Z.of_nat (length (markers sample_index)) /\
  exists r, at_ sample_index 1 = Normal (Some r) /\
            markers sample_index !! Z.to_nat 1 = Some r.
Proof.
  split; [reflexivity|].
  apply (indexOf_result_is_a_marker_index sample_index 10 1). reflexivity.
Defined.

(** X2. On a well-formed index, [indexOf] is the inverse of [at] on the
    offsets of the markers: for the marker object [at(k)] returns,
    [indexOf] of its offset returns [k]. *)
Theorem indexOf_inverts_at (s : State) (l : list Marker) (k : Z) (r : nat) (m : Marker) :
  well_formed s l -> at_ s k = Normal (Some r) -> store s !! r = Some m ->
  indexOf s (offset m) = Normal k.
Proof.
  intros Hwf Hat Hm. pose proof (wf_view _ _ Hwf) as Hv.
  unfold at_ in Hat.
  destruct (Z.ltb_spec k 0) as [|Hk0]; [discriminate|].
  destruct (Z.geb_spec k (Z.of_nat (length (markers s)))); [discriminate|].
  cbn [orb] in Hat. injection Hat as Hr. apply array_get_Some in Hr as [_ Hr].
  rewrite <- (Z2Nat.id k Hk0). apply (indexOf_position s l _ m Hwf).
  by rewrite (view_lookup s l _ Hv), Hr.
Qed.

Lemma indexOf_inverts_at_witness :
  let m := {| node := {| nid := 3; nodeValue := js "x();" |}; offset := 9 |} in
  exists l,
    (well_formed sample_index l /\ at_ sample_index 1 = Normal (Some 1%nat) /\
     store sample_index !! 1%nat = Some m) /\
    indexOf sample_index (offset m) = Normal 1.
Proof.
  intros m.
  destruct (parse_well_formed (constructor sample_root 6 "development") eq_refl)
    as [l Hwf].
  exists l. refine (conj (conj Hwf (conj eq_refl eq_refl)) _).
  apply (indexOf_inverts_at sample_index l 1 1 m Hwf eq_refl eq_refl).
Defined.

(** X3. On a well-formed index, [indexOf] is monotone: of two offsets that are
    not negative, the larger one is never given the smaller index. *)
Theorem indexOf_is_monotone (s : State) (l : list Marker) (o1 o2 : Z) :
  well_formed s l -> l <> [] -> 0 <= o1 -> o1 <= o2 ->
  exists i1 i2, indexOf s o1 = Normal i1 /\ indexOf s o2 = Normal i2 /\ i1 <= i2.
Proof.
  intros Hwf Hne H1 H12.
  destruct (indexOf_well_formed s l o1 Hwf Hne H1) as (i1 & m1 & Hi1 & Hm1 & Hle1 & _ & _).
  destruct (indexOf_well_formed s l o2 Hwf Hne ltac:(lia))
    as (i2 & m2 & Hi2 & Hm2 & _ & Hin2 & Hlast2).
  exists (Z.of_nat i1), (Z.of_nat i2). split; [exact Hi1|]. split; [exact Hi2|].
  destruct (Z_lt_le_dec o2 (total_length l)) as [Hlt|Hge].
  - destruct (le_lt_dec i1 i2) as [|Hgt]; [lia|]. exfalso.
    pose proof (offsets_strict l i2 i1 m2 m1 (wf_contiguous _ _ Hwf)
                  (wf_nonempty _ _ Hwf) Hm2 Hm1 Hgt).
    specialize (Hin2 Hlt). lia.
  - specialize (Hlast2 Hge). apply lookup_lt_Some in Hm1. lia.
Qed.

Lemma indexOf_is_monotone_witness :
  exists l,
    (well_formed sample_index l /\ l <> [] /\ 0 <= 3 /\ 3 <= 12) /\
    exists i1 i2, indexOf sample_index 3 = Normal i1 /\
                  indexOf sample_index 12 = Normal i2 /\ i1 <= i2.
Proof.
  destruct (parse_well_formed (constructor sample_root 6 "development") eq_refl)
    as [l Hwf].
  assert (l <> []) as Hne.
  { intros ->. pose proof (wf_view _ _ Hwf) as Hv. discriminate Hv. }
  exists l. refine (conj (conj Hwf (conj Hne (conj _ _))) _); [lia | lia |].
  apply (indexOf_is_monotone sample_index l 3 12 Hwf Hne); lia.
Defined.


(** *** [find] *)

(** More fuel than [l - i] changes nothing. *)
Lemma find_loop_fuel (s : State) (t : TextNode) (f1 f2 : nat) (i l : Z) :
  (Z.to_nat (l - i) <= f1)%nat -> (Z.to_nat (l - i) <= f2)%nat ->
  find_loop f1 s t i l = find_loop f2 s t i l.
Proof.
  revert f2 i.
  induction f1 as [|f1 IH]; intros f2 i H1 H2.
  - destruct f2 as [|f2]; [reflexivity|].
    simpl. destruct (Z.ltb_spec i l); [lia | reflexivity].
  - destruct f2 as [|f2].
    + simpl. destruct (Z.ltb_spec i l); [lia | reflexivity].
    + simpl. destruct (Z.ltb_spec i l) as [Hlt|]; [|reflexivity].
      destruct (marker_at s i) as [m|]; [|reflexivity].
      destruct (Nat.eqb (nid (node m)) (nid t)); [reflexivity|].
      apply IH; lia.
Qed.

(** The model of the loop satisfies the equation of
    [for (i = start; i < l; ++i) { ... } return -1]. *)
Lemma find_loop_unfold (s : State) (t : TextNode) (i l : Z) :
  find_loop (Z.to_nat (l - i)) s t i l =
  if i <? l then
    match marker_at s i with
    | None => Throw JsTypeError
    | Some m =>
        if Nat.eqb (nid (node m)) (nid t) then Normal i
        else find_loop (Z.to_nat (l - (i + 1))) s t (i + 1) l
    end
  else Normal (-1).
Proof.
  destruct (Z.ltb_spec i l) as [Hlt|Hge].
  - destruct (Z.to_nat (l - i)) as [|f] eqn:Hf; [lia|].
    simpl. destruct (Z.ltb_spec i l); [|lia].
    destruct (marker_at s i) as [m|]; [|reflexivity].
    destruct (Nat.eqb (nid (node m)) (nid t)); [reflexivity|].
    apply find_loop_fuel; lia.
  - destruct (Z.to_nat (l - i)); simpl; [reflexivity|].
    destruct (Z.ltb_spec i l); [lia | reflexivity].
Qed.

(** From a start inside the array or at its end, the loop returns the first
    index from there on whose marker has the node, or [-1] when no marker
    from there on has it. *)
Lemma find_loop_spec (s : State) (l : list Marker) (t : TextNode) :
  view s = Some l ->
  forall (gap : nat) (i : Z),
    Z.to_nat (Z.of_nat (length l) - i) = gap -> 0 <= i ->
    exists k, find_loop (Z.to_nat (Z.of_nat (length l) - i)) s t i (Z.of_nat (length l))
              = Normal k /\
      (forall j m, i <= j -> (k = -1 \/ j < k) -> array_get l j = Some m ->
                   nid (node m) <> nid t) /\
      (k = -1 \/
       i <= k /\ exists m, array_get l k = Some m /\ nid (node m) = nid t).
Proof.
  intros Hv gap.
  induction gap as [gap IH] using (well_founded_induction lt_wf).
  intros i Hgap Hi. rewrite find_loop_unfold.
  destruct (Z.ltb_spec i (Z.of_nat (length l))) as [Hlt|Hge].
  2:{ exists (-1). split; [reflexivity|]. split; [|by left].
      intros j m Hj _ Hm. apply array_get_Some in Hm as [_ Hm].
      apply lookup_lt_Some in Hm. lia. }
  rewrite (marker_at_view s l i Hv).
  destruct (array_get_in_range l i) as [m Hm]; [lia|]. rewrite Hm.
  destruct (Nat.eqb_spec (nid (node m)) (nid t)) as [Heq|Hne].
  - exists i. split; [reflexivity|]. split.
    + intros j mj Hj [Hk|Hk] _; lia.
    + right. split; [lia|]. by exists m.
  - destruct (IH (Z.to_nat (Z.of_nat (length l) - (i + 1))) ltac:(lia) (i + 1) eq_refl)
      as (k & Hk & Hnone & Hfound); [lia|].
    exists k. split; [exact Hk|]. split.
    + intros j mj Hj Hjk Hmj.
      destruct (Z.eq_dec j i) as [->|Hji]; [congruence|].
      apply (Hnone j mj); [lia| |exact Hmj].
      destruct Hjk; [by left | by right].
    + destruct Hfound as [->|(Hik & m' & Hm' & Heq)]; [by left|].
      right. split; [lia|]. by exists m'.
Qed.

(** X4. [find] on a text node, from a start that is not negative: the result
    is the first index from the start on whose marker holds that very node,
    and [-1] when there is none. *)
Theorem find_returns_first_match (s : State) (l : list Marker) (t : TextNode)
  (start : option Z) :
  let i := match start with None => 0 | Some i => i end in
  view s = Some l -> 0 <= i ->
  exists k, find s (Text t) start = Normal k /\
    (forall j m, i <= j -> (k = -1 \/ j < k) -> array_get l j = Some m ->
                 nid (node m) <> nid t) /\
    (k = -1 \/
     i <= k < Z.of_nat (length l) /\
     exists m, array_get l k = Some m /\ nid (node m) = nid t).
Proof.
  intros i Hv Hi. unfold find. fold i. cbv zeta.
  rewrite (view_length s l Hv).
  destruct (find_loop_spec s l t Hv _ i eq_refl Hi) as (k & Hk & Hnone & Hfound).
  exists k. split; [exact Hk|]. split; [exact Hnone|].
  destruct Hfound as [->|(Hik & m & Hm & Heq)]; [by left|].
  right. split; [|by exists m].
  split; [lia|]. apply array_get_Some in Hm as [_ Hm]. apply lookup_lt_Some in Hm. lia.
Qed.

Lemma find_returns_first_match_witness :
  (view sample_index
     = Some [ {| node := {| nid := 1; nodeValue := js "Positive " |}; offset := 0 |};
              {| node := {| nid := 3; nodeValue := js "x();" |}; offset := 9 |};
              {| node := {| nid := 5; nodeValue := js " match" |}; offset := 13 |} ]
   /\ 0 <= 1) /\
  exists k, find sample_index (Text {| nid := 5; nodeValue := js " match" |}) (Some 1)
            = Normal k.
Proof.
  split; [split; [reflexivity | lia]|].
  destruct (find_returns_first_match sample_index _
              {| nid := 5; nodeValue := js " match" |} (Some 1) eq_refl ltac:(lia))
    as (k & Hk & _).
  by exists k.
Defined.

(** X5. What [find] does outside of that: a node that is no text node gives
    [-1] whatever the start; a text node with a negative start reads
    [this.markers[start]], which is [undefined], and the call ends with a
    [TypeError], on an empty array too. *)
Theorem find_edge_cases (s : State) (t : TextNode) (i : nat) (tag : string) (hl : bool)
  (ch : list Node) (start : option Z) (n : Z) :
  find s (Element i tag hl ch) start = Normal (-1) /\
  (n < 0 -> find s (Text t) (Some n) = Throw JsTypeError).
Proof.
  split; [reflexivity|]. intros Hn. unfold find. cbv zeta.
  rewrite find_loop_unfold.
  destruct (Z.ltb_spec n (Z.of_nat (length (markers s)))); [|lia].
  unfold marker_at, array_get. destruct (Z.ltb_spec n 0); [reflexivity | lia].
Qed.

Lemma find_edge_cases_witness :
  -1 < 0 /\
  find (constructor sample_root 6 "development")
    (Text {| nid := 1; nodeValue := js "Positive " |}) (Some (-1)) = Throw JsTypeError.
Proof.
  split; [lia|].
  apply (find_edge_cases (constructor sample_root 6 "development")
           {| nid := 1; nodeValue := js "Positive " |} 0 "P" false [] None (-1)).
  lia.
Defined.

(** Where every marker holds a node of its own, [find] gives back the index
    of the marker a node was taken from. *)
Lemma find_of_marker_node (s : State) (l : list Marker) (k : nat) (m : Marker) :
  view s = Some l -> NoDup (map (fun a => nid (node a)) l) -> l !! k = Some m ->
  find s (Text (node m)) None = Normal (Z.of_nat k).
Proof.
  intros Hv Hnd Hm.
  destruct (find_returns_first_match s l (node m) None Hv ltac:(cbv zeta; lia))
    as (k' & Hk' & Hnone & Hfound).
  cbv zeta in Hnone, Hfound. rewrite Hk'. f_equal.
  destruct Hfound as [->|(Hrange & m' & Hm' & Heq)].
  - exfalso. apply (Hnone (Z.of_nat k) m); [lia | by left | by rewrite array_get_nat | done].
  - apply array_get_Some in Hm' as [_ Hm'].
    assert (Z.to_nat k' = k) as <-; [|lia].
    apply (NoDup_lookup _ _ _ (nid (node m)) Hnd).
    + by rewrite list_lookup_fmap, Hm', <- Heq.
    + by rewrite list_lookup_fmap, Hm.
Qed.

Lemma recorded_distinct (parent : string) (n : Node) :
  NoDup (ids n) -> NoDup (map nid (map snd (recorded parent n))).
Proof.
  intros Hnd. eapply sublist_NoDup; [exact Hnd|].
  etrans; [|apply HighlightRendererFacts.text_nodes_ids].
  rewrite <- (texts_with_parent_nodes parent n).
  apply fmap_sublist, fmap_sublist. unfold recorded. apply sublist_filter.
Qed.

(** X6. After [parse] of a tree with distinct nodes, [find] is the inverse of
    [at]: for the node of the marker [at(k)] returns, [find] returns [k]. *)
Theorem find_inverts_at_after_parse (s0 : State) (i : nat) (tag : string) (hl : bool)
  (ch : list Node) (k : Z) (r : nat) (m : Marker) :
  root s0 = Element i tag hl ch -> NoDup (ids (root s0)) ->
  at_ (snd (parse s0)) k = Normal (Some r) ->
  store (snd (parse s0)) !! r = Some m ->
  find (snd (parse s0)) (Text (node m)) None = Normal k.
Proof.
  intros Hroot Hnd.
  destruct (parse_run s0 i tag hl ch Hroot) as (s & Hparse & _ & Hwf).
  rewrite Hparse. cbn [snd]. intros Hat Hm.
  pose proof (wf_view _ _ Hwf) as Hv.
  unfold at_ in Hat.
  destruct (Z.ltb_spec k 0) as [|Hk0]; [discriminate|].
  destruct (Z.geb_spec k (Z.of_nat (length (markers s)))); [discriminate|].
  cbn [orb] in Hat. injection Hat as Hr.
  apply array_get_Some in Hr as [_ Hr].
  rewrite <- (Z2Nat.id k Hk0).
  apply (find_of_marker_node s _ _ m Hv).
  - rewrite <- (map_map node nid). rewrite markers_from_nodes.
    by apply recorded_distinct.
  - by rewrite (view_lookup s _ _ Hv), Hr.
Qed.

Lemma find_inverts_at_after_parse_witness :
  let s0 := constructor sample_root 6 "development" in
  let m := {| node := {| nid := 5; nodeValue := js " match" |}; offset := 13 |} in
  (root s0 = Element 0 "P" false
               [Text {| nid := 1; nodeValue := js "Positive " |};
                Element 2 "SCRIPT" false [Text {| nid := 3; nodeValue := js "x();" |}];
                Text {| nid := 4; nodeValue := [] |};
                Text {| nid := 5; nodeValue := js " match" |}] /\
   NoDup (ids (root s0)) /\
   at_ (snd (parse s0)) 2 = Normal (Some 2%nat) /\
   store (snd (parse s0)) !! 2%nat = Some m) /\
  find (snd (parse s0)) (Text (node m)) None = Normal 2.
Proof.
  intros s0 m.
  assert (NoDup (ids (root s0))) as Hnd by (apply (bool_decide_unpack _); vm_compute; exact I).
  split; [repeat split; [exact Hnd]|].
  apply (find_inverts_at_after_parse s0 0 "P" false _ 2 2 m eq_refl Hnd eq_refl eq_refl).
Defined.

(** *** [substr] *)

(** X7. A call of [substr] inside the text returns [len] characters from
    [offset] on, or as many as there are up to the end of the text. *)
Theorem substr_returns_the_characters (s : State) (o len : Z) :
  0 <= o < jslength (text s) -> 0 <= len ->
  exists r, substr s o len = Normal r /\
    jslength r = Z.min len (jslength (text s) - o) /\
    forall k, 0 <= k < jslength r -> array_get r k = array_get (text s) (o + k).
Proof.
  intros Ho Hlen. unfold substr.
  destruct (Z.ltb_spec o 0); [lia|].
  destruct (Z.geb_spec o (jslength (text s))); [lia|]. cbn [orb].
  destruct (Z.ltb_spec len 0); [lia|].
  eexists. split; [reflexivity|]. unfold js_substr, jslength in *.
  rewrite length_take, length_drop. split; [lia|].
  intros k Hk. unfold array_get.
  destruct (Z.ltb_spec k 0); [lia|]. destruct (Z.ltb_spec (o + k) 0); [lia|].
  rewrite lookup_take_lt by lia. rewrite lookup_drop. f_equal. lia.
Qed.

Lemma substr_returns_the_characters_witness :
  (0 <= 9 < jslength (text sample_index) /\ 0 <= 100) /\
  exists r, substr sample_index 9 100 = Normal r /\
    jslength r = Z.min 100 (jslength (text sample_index) - 9) /\
    forall k, 0 <= k < jslength r -> array_get r k = array_get (text sample_index) (9 + k).
Proof.
  assert (0 <= 9 < jslength (text sample_index)) as Ho by (vm_compute; split; congruence).
  split; [split; [exact Ho | lia]|].
  apply (substr_returns_the_characters sample_index 9 100 Ho). lia.
Defined.

Lemma markers_from_lookup (o : Z) (ts : list (string * TextNode)) (k : nat)
  (p : string * TextNode) :
  ts !! k = Some p ->
  markers_from o (map snd ts) !! k
  = Some {| node := p.2;
            offset := o + jslength (concat (map contribution (take k ts))) |}.
Proof.
  revert o k. induction ts as [|q ts IH]; intros o k Hk; [done|].
  destruct k as [|k]; cbn [map markers_from take concat].
  - injection Hk as ->. cbn. do 2 f_equal. unfold jslength. cbn. lia.
  - cbn in Hk. cbn [lookup list_lookup]. rewrite (IH _ _ Hk). do 2 f_equal.
    unfold jslength. rewrite length_app, contribution_length. lia.
Qed.

(** X8. After [parse], the text and the markers agree: for the [k]-th text node
    that is not empty, in document order, marker [k] holds that node, and
    [substr] at the marker's offset, over the node's length, returns what the
    node contributed to the text: its content, or as many spaces when its
    parent is never rendered. *)
Theorem substr_of_a_marker_after_parse (s0 : State) (i : nat) (tag : string) (hl : bool)
  (ch : list Node) (k : nat) (p : string * TextNode) :
  root s0 = Element i tag hl ch ->
  filter (fun p => nonempty p = true) (concat (map (texts_with_parent tag) ch)) !! k
    = Some p ->
  exists m, marker_at (snd (parse s0)) (Z.of_nat k) = Some m /\ node m = p.2 /\
            substr (snd (parse s0)) (offset m) (node_length m) = Normal (contribution p).
Proof.
  intros Hroot Hp.
  destruct (parse_run s0 i tag hl ch Hroot) as (s & Hparse & Hvisit & Hwf).
  rewrite Hparse. cbn [snd].
  rewrite Hroot in Hvisit, Hwf.
  change (recorded "" (Element i tag hl ch))
    with (filter (fun p => nonempty p = true) (concat (map (texts_with_parent tag) ch)))
    in Hvisit, Hwf.
  set (ts := filter (fun p => nonempty p = true) (concat (map (texts_with_parent tag) ch)))
    in *.
  pose proof (wf_view _ _ Hwf) as Hv.
  destruct Hvisit as (_ & _ & Htext & _). cbn [text set_markers set_text app] in Htext.
  eexists. split.
  { rewrite (marker_at_view s _ _ Hv), array_get_nat.
    apply (markers_from_lookup 0 ts k p Hp). }
  cbn [node offset]. split; [reflexivity|].
  assert (nonempty p = true) as Hne.
  { apply list_elem_of_lookup_2 in Hp. unfold ts in Hp.
    by apply list_elem_of_filter in Hp as [Hp _]. }
  unfold nonempty in Hne. apply negb_true_iff, Z.ltb_ge in Hne.
  unfold substr, node_length. cbn [node].
  set (front := concat (map contribution (take k ts))).
  set (rest := concat (map contribution (drop (S k) ts))).
  assert (concat (map contribution ts) = front ++ contribution p ++ rest) as Hsplit.
  { rewrite <- (take_drop_middle ts k p Hp) at 1. by rewrite map_app, concat_app. }
  rewrite Htext, Hsplit.
  assert (jslength (contribution p) = jslength (nodeValue p.2)) as Hlen.
  { unfold jslength. by rewrite contribution_length. }
  unfold jslength in *. rewrite !length_app.
  destruct (Z.ltb_spec (0 + Z.of_nat (length front)) 0); [lia|].
  destruct (Z.geb_spec (0 + Z.of_nat (length front))
              (Z.of_nat (length front + (length (contribution p) + length rest))));
    [lia|]. cbn [orb].
  destruct (Z.ltb_spec (Z.of_nat (length (nodeValue p.2))) 0); [lia|].
  f_equal. unfold js_substr.
  replace (Z.to_nat (0 + Z.of_nat (length front))) with (length front) by lia.
  rewrite drop_app_length, Nat2Z.id.
  apply take_app_length'. lia.
Qed.

Lemma substr_of_a_marker_after_parse_witness :
  let s0 := constructor sample_root 6 "development" in
  let p := ("SCRIPT"%string, {| nid := 3; nodeValue := js "x();" |}) in
  (root s0 = Element 0 "P" false
               [Text {| nid := 1; nodeValue := js "Positive " |};
                Element 2 "SCRIPT" false [Text {| nid := 3; nodeValue := js "x();" |}];
                Text {| nid := 4; nodeValue := [] |};
                Text {| nid := 5; nodeValue := js " match" |}] /\
   filter (fun p => nonempty p = true)
     (concat (map (texts_with_parent "P")
                [Text {| nid := 1; nodeValue := js "Positive " |};
                 Element 2 "SCRIPT" false [Text {| nid := 3; nodeValue := js "x();" |}];
                 Text {| nid := 4; nodeValue := [] |};
                 Text {| nid := 5; nodeValue := js " match" |}])) !! 1%nat = Some p) /\
  exists m, marker_at (snd (parse s0)) (Z.of_nat 1) = Some m /\ node m = p.2 /\
            substr (snd (parse s0)) (offset m) (node_length m) = Normal (js "    ").
Proof.
  intros s0 p. split; [split; reflexivity|].
  apply (substr_of_a_marker_after_parse s0 0 "P" false _ 1 p eq_refl eq_refl).
Defined.

(** *** [assert] *)

Lemma assert_loop_spec (s : State) (refs : list nat) (l : list Marker) (o : Z) :
  view_of refs (store s) = Some l ->
  (contiguous_from o l /\ assert_loop refs o s = (Normal tt, s)) \/
  (~ contiguous_from o l /\
   assert_loop refs o s = (Throw (JsError "Halting due to invalid offset"), s)).
Proof.
  rewrite view_of_Forall2. intros Hv. revert o.
  induction Hv as [|r m refs l Hr Hv IH]; intros o.
  - left. split; [exact I | reflexivity].
  - cbn [assert_loop contiguous_from]. rewrite (run_deref _ _ m) by exact Hr.
    destruct (Z.eqb_spec (offset m) o) as [Ho|Hne]; cbn [negb].
    + destruct (IH (o + jslength (nodeValue (node m)))) as [[Hc Hrun]|[Hc Hrun]].
      * left. split; [by split | exact Hrun].
      * right. split; [|exact Hrun]. intros [_ Hc']. by apply Hc.
    + right. split; [|reflexivity]. intros [Ho _]. by apply Hne.
Qed.

(** X9. [assert] only reads the index, and it accepts exactly the arrays that
    are contiguous from offset 0: it returns on these and throws on every
    other array. *)
Theorem assert_accepts_exactly_contiguous (s : State) (l : list Marker) :
  view s = Some l ->
  (contiguous_from 0 l /\ assert s = (Normal tt, s)) \/
  (~ contiguous_from 0 l /\
   assert s = (Throw (JsError "Halting due to invalid offset"), s)).
Proof.
  intros Hv. unfold assert. rewrite run_gets. by apply assert_loop_spec.
Qed.

Lemma assert_accepts_exactly_contiguous_witness :
  let gap := {| root := sample_root; text := js "ab";
                markers := [0%nat; 1%nat];
                store := [ {| node := {| nid := 1; nodeValue := js "a" |}; offset := 0 |};
                           {| node := {| nid := 5; nodeValue := js "b" |}; offset := 2 |} ];
                next_id := 6; node_env := "development" |} in
  view gap = Some (store gap) /\
  ((contiguous_from 0 (store gap) /\ assert gap = (Normal tt, gap)) \/
   (~ contiguous_from 0 (store gap) /\
    assert gap = (Throw (JsError "Halting due to invalid offset"), gap))).
Proof.
  intros gap. split; [reflexivity|].
  apply (assert_accepts_exactly_contiguous gap (store gap)). reflexivity.
Defined.

(** *** [parse] and [setRoot] *)

(** X10. [setRoot] leaves nothing of the old index: on whatever state it is
    called, the text and the markers it ends with are those a new
    [TextContent] over that root has after [parse], and [parse] returns. *)
Theorem setRoot_is_a_parse_from_scratch (s fresh : State) (r : Node) (i : nat)
  (tag : string) (hl : bool) (ch : list Node) :
  r = Element i tag hl ch -> root fresh = r ->
  exists s1 s2,
    setRoot r s = (Normal tt, s1) /\ parse fresh = (Normal tt, s2) /\
    root s1 = r /\ text s1 = text s2 /\ view s1 = view s2.
Proof.
  intros Hr Hfresh.
  destruct (parse_run (set_root r s) i tag hl ch Hr) as (s1 & Hrun1 & Hvis1 & Hwf1).
  destruct (parse_run fresh i tag hl ch ltac:(by rewrite Hfresh))
    as (s2 & Hrun2 & Hvis2 & Hwf2).
  exists s1, s2. split; [exact Hrun1|]. split; [exact Hrun2|].
  destruct Hvis1 as (_ & _ & Ht1 & Hr1 & _). destruct Hvis2 as (_ & _ & Ht2 & _).
  cbn [root text set_root set_markers set_text] in Ht1, Ht2, Hr1, Hwf1.
  rewrite Hfresh in Ht2, Hwf2.
  split; [exact Hr1|]. split; [by rewrite Ht1, Ht2|].
  by rewrite (wf_view _ _ Hwf1), (wf_view _ _ Hwf2).
Qed.

Lemma setRoot_is_a_parse_from_scratch_witness :
  (sample_root = Element 0 "P" false
                   [Text {| nid := 1; nodeValue := js "Positive " |};
                    Element 2 "SCRIPT" false [Text {| nid := 3; nodeValue := js "x();" |}];
                    Text {| nid := 4; nodeValue := [] |};
                    Text {| nid := 5; nodeValue := js " match" |}] /\
   root (constructor sample_root 6 "production") = sample_root) /\
  exists s1 s2,
    setRoot sample_root (constructor blank_root 3 "development") = (Normal tt, s1) /\
    parse (constructor sample_root 6 "production") = (Normal tt, s2) /\
    root s1 = sample_root /\ text s1 = text s2 /\ view s1 = view s2.
Proof.
  split; [split; reflexivity|].
  apply (setRoot_is_a_parse_from_scratch (constructor blank_root 3 "development")
           (constructor sample_root 6 "production") sample_root 0 "P" false _
           eq_refl eq_refl).
Defined.

(** *** [truncate] *)

Lemma segment_length (m : Marker) (start end' : Z) (fresh : nat) :
  Z.of_nat (length (segment m start end' fresh))
  = 1 + (if start >? 0 then 1 else 0) + (if end' =? node_length m - 1 then 0 else 1).
Proof.
  unfold segment, head_node, tail_node.
  destruct (start >? 0), (end' =? node_length m - 1); reflexivity.
Qed.

Lemma segment_lookup_middle (front rest : list Marker) (m : Marker) (start end' : Z)
  (fresh : nat) :
  (front ++ segment m start end' fresh ++ rest)
    !! (length front + (if start >? 0 then 1 else 0))%nat
  = Some {| node := middle_node m start end' fresh; offset := offset m + start |}.
Proof.
  unfold segment, head_node. destruct (start >? 0).
  - rewrite <- app_assoc. cbn [app].
    by apply (lookup_segment front [_]).
  - cbn [app]. by apply (lookup_segment front []).
Qed.

(** The pieces [truncate] cuts a text into spell that text. *)
Lemma segment_text (m : Marker) (start end' : Z) (fresh : nat) :
  0 <= start -> start <= end' -> end' < node_length m ->
  concat (map (fun k => nodeValue (node k)) (segment m start end' fresh))
  = nodeValue (node m).
Proof.
  intros H0 H1 H2. unfold node_length, jslength in H2.
  set (v := nodeValue (node m)) in *.
  assert (concat (map (fun k => nodeValue (node k)) (segment m start end' fresh))
          = js_substr v 0 start ++ js_substr v start (end' - start + 1)
            ++ js_substr_from v (end' + 1)) as ->.
  { unfold segment, head_node, tail_node, middle_node, node_length, jslength. fold v.
    destruct (Z.gtb_spec start 0) as [Hs|Hs];
      destruct (Z.eqb_spec end' (Z.of_nat (length v) - 1)) as [He|He];
      cbn [negb map app concat node nodeValue]; rewrite ?app_nil_r.
    - unfold js_substr_from. rewrite (drop_ge v) by lia. by rewrite !app_nil_r.
    - reflexivity.
    - assert (start = 0) as -> by lia. unfold js_substr_from.
      rewrite (drop_ge v) by lia. by rewrite !app_nil_r.
    - assert (start = 0) as -> by lia. reflexivity. }
  unfold js_substr, js_substr_from. rewrite drop_0.
  rewrite <- (take_drop (Z.to_nat start) v) at 4. f_equal.
  rewrite <- (take_drop (Z.to_nat (end' - start + 1)) (drop (Z.to_nat start) v)) at 2.
  f_equal. rewrite drop_drop. f_equal. lia.
Qed.

(** In an array that is contiguous and has no empty node, a marker sits at
    one place only. *)
Lemma position_unique (l : list Marker) (i j : nat) (a : Marker) :
  contiguous_from 0 l -> Forall (fun m => 0 < node_length m) l ->
  l !! i = Some a -> l !! j = Some a -> i = j.
Proof.
  intros Hc Hpos Hi Hj.
  pose proof (Forall_lookup_1 _ _ _ _ Hpos Hi) as Hlen. cbv beta in Hlen.
  apply (containing_unique l i j a a (offset a) Hc Hpos Hi Hj); lia.
Qed.

(** X11. A [truncate] with valid arguments, on the marker at place [p] of a
    well-formed index whose node is in the tree: the index it returns is the
    place the marker object now has (so [at] of it is that object, and
    [indexOf] of the marker's new offset is that index); the marker's offset
    has moved by [start] and its node holds the characters [start..end] of
    the old node; the array has one more marker for a text cut off in front
    and one more for a text cut off behind; the flattened text is as it
    was. *)
Theorem truncate_returns_the_place_of_its_marker (s : State) (l : list Marker)
  (marker p : nat) (m : Marker) (start end' : Z) :
  well_formed s l -> markers s !! p = Some marker -> store s !! marker = Some m ->
  0 <= start -> start <= end' -> end' < node_length m ->
  parented (nid (node m)) (root s) ->
  exists (i : Z) (s' : State) (n' : TextNode),
    truncate marker start end' s = (Normal i, s') /\
    i = Z.of_nat p + (if start >? 0 then 1 else 0) /\
    at_ s' i = Normal (Some marker) /\
    store s' !! marker = Some {| node := n'; offset := offset m + start |} /\
    nodeValue n' = js_substr (nodeValue (node m)) start (end' - start + 1) /\
    indexOf s' (offset m + start) = Normal i /\
    Z.of_nat (length (markers s'))
      = Z.of_nat (length (markers s)) + (if start >? 0 then 1 else 0)
        + (if end' =? node_length m - 1 then 0 else 1) /\
    text s' = text s.
Proof.
  intros Hwf Hp Hm H0 H1 H2 Hpar.
  destruct (truncate_dom_parented (node m) (head_node m start (next_id s))
              (middle_node m start end' (next_id s))
              (tail_node m start end' (next_id s)) (root s) Hpar) as [root' Hdom].
  destruct (truncate_run s l marker p m start end' root' Hwf Hp Hm H0 H1 H2 Hdom)
    as (s' & Hrun & _ & Htext & _ & _ & Hwf' & Hstore & _ & Hkeep).
  pose proof (wf_view _ _ Hwf) as Hv. pose proof (wf_view _ _ Hwf') as Hv'.
  assert (l !! p = Some m) as Hlp by (by rewrite (view_lookup s l p Hv), Hp).
  assert (length (take p l) = p) as Hfront.
  { apply length_take_le. apply lookup_lt_Some in Hlp. lia. }
  set (mm := {| node := middle_node m start end' (next_id s); offset := offset m + start |})
    in *.
  set (l' := take p l ++ segment m start end' (next_id s) ++ drop (S p) l) in *.
  set (idx := (p + (if start >? 0 then 1 else 0))%nat).
  assert (l' !! idx = Some mm) as Hidx.
  { unfold l', idx.
    replace (p + (if start >? 0 then 1 else 0))%nat
      with (length (take p l) + (if start >? 0 then 1 else 0))%nat by (by rewrite Hfront).
    apply segment_lookup_middle. }
  assert (markers s' !! idx = Some marker) as Hplace.
  { assert (marker ∈ markers s') as Hin.
    { apply Hkeep. by apply list_elem_of_lookup_2 in Hp. }
    apply list_elem_of_lookup in Hin as [j Hj].
    assert (l' !! j = Some mm) as Hj' by (by rewrite (view_lookup s' l' j Hv'), Hj).
    by rewrite <- (position_unique l' j idx mm (wf_contiguous _ _ Hwf')
                     (wf_nonempty _ _ Hwf') Hj' Hidx). }
  assert (Z.of_nat idx = Z.of_nat p + (if start >? 0 then 1 else 0)) as Hz.
  { unfold idx. destruct (start >? 0); lia. }
  exists (Z.of_nat idx), s', (middle_node m start end' (next_id s)).
  split; [by rewrite Hz|]. split; [exact Hz|]. split.
  { destruct (at_in_range s' (Z.of_nat idx)) as (r & Hat & Hr).
    - apply lookup_lt_Some in Hplace. lia.
    - rewrite Nat2Z.id, Hplace in Hr. by injection Hr as <-. }
  split; [exact Hstore|]. split; [reflexivity|].
  split; [exact (indexOf_position s' l' idx mm Hwf' Hidx)|].
  split; [|exact Htext].
  rewrite (view_length s' l' Hv'), (view_length s l Hv). unfold l'.
  rewrite !length_app, Hfront, length_drop.
  pose proof (segment_length m start end' (next_id s)) as Hseg.
  apply lookup_lt_Some in Hlp. lia.
Qed.

Lemma truncate_returns_the_place_of_its_marker_witness :
  let m := {| node := {| nid := 1; nodeValue := js "Positive " |}; offset := 0 |} in
  exists l,
    (well_formed sample_index l /\ markers sample_index !! 0%nat = Some 0%nat /\
     store sample_index !! 0%nat = Some m /\ 0 <= 2 /\ 2 <= 4 /\ 4 < node_length m /\
     parented (nid (node m)) (root sample_index)) /\
    exists (i : Z) (s' : State) (n' : TextNode),
      truncate 0 2 4 sample_index = (Normal i, s') /\ i = 1 /\
      at_ s' i = Normal (Some 0%nat) /\
      store s' !! 0%nat = Some {| node := n'; offset := 2 |} /\
      nodeValue n' = js "sit".
Proof.
  intros m.
  destruct (parse_well_formed (constructor sample_root 6 "development") eq_refl)
    as [l Hwf].
  assert (parented (nid (node m)) (root sample_index)) as Hpar.
  { unfold parented. vm_compute. by eexists. }
  assert (4 < node_length m) as Hlen by (vm_compute; congruence).
  exists l.
  refine (conj (conj Hwf (conj eq_refl (conj eq_refl
            (conj _ (conj _ (conj Hlen Hpar)))))) _); [lia | lia |].
  destruct (truncate_returns_the_place_of_its_marker sample_index l 0 0 m 2 4
              Hwf eq_refl eq_refl ltac:(lia) ltac:(lia) Hlen Hpar)
    as (i & s' & n' & Hrun & Hi & Hat & Hst & Hval & _).
  exists i, s', n'. split; [exact Hrun|]. split; [exact Hi|].
  split; [exact Hat|]. split; [exact Hst | exact Hval].
Defined.

Lemma text_nodes_of_texts (seg : list Marker) :
  concat (map text_nodes (map (fun a => Text (node a)) seg)) = map node seg.
Proof. induction seg as [|a seg IH]; [done|]. cbn. by rewrite <- IH. Qed.

(** X12. A [truncate] with valid arguments, on a marker of a well-formed index
    whose node is a child of an element of the tree, all nodes of the tree
    having identities of their own: the one, two or three nodes it makes
    take the place of the old node among the children of that element; the
    text of the document is the same before and after; and the identities
    are still distinct. *)
Theorem truncate_splits_the_node_in_place (s : State) (l : list Marker)
  (marker p : nat) (m : Marker) (start end' : Z)
  (pth : Path) (i : nat) (tag : string) (hl : bool) (L R : list Node) :
  well_formed s l -> markers s !! p = Some marker -> store s !! marker = Some m ->
  0 <= start -> start <= end' -> end' < node_length m ->
  root s = plug pth (Element i tag hl (L ++ Text (node m) :: R)) ->
  tree_ok (next_id s) (root s) ->
  exists (k : Z) (s' : State),
    truncate marker start end' s = (Normal k, s') /\
    root s' = plug pth (Element i tag hl
                (L ++ map (fun a => Text (node a)) (segment m start end' (next_id s))
                   ++ R)) /\
    textContent (root s') = textContent (root s) /\
    tree_ok (next_id s') (root s').
Proof.
  intros Hwf Hp Hm H0 H1 H2 Hroot Hok. rewrite Hroot in Hok.
  destruct (truncate_dom_at pth i tag hl L R m start end' (next_id s) Hok) as [Hdom Hok'].
  rewrite <- Hroot in Hdom.
  destruct (truncate_run s l marker p m start end' _ Hwf Hp Hm H0 H1 H2 Hdom)
    as (s' & Hrun & Hroot' & _ & _ & Hnext & _).
  eexists _, s'. split; [exact Hrun|]. split; [exact Hroot'|]. split.
  - rewrite Hroot', Hroot. unfold textContent. rewrite !DomFacts.text_nodes_plug.
    cbn [text_nodes].
    rewrite !HighlightRendererFacts.text_nodes_children. cbn [map concat text_nodes].
    rewrite text_nodes_of_texts. rewrite !map_app, !concat_app. cbn [map concat].
    rewrite map_map, (segment_text m start end' (next_id s) H0 H1 H2).
    by rewrite app_nil_r.
  - rewrite Hroot', Hnext. rewrite length_map in Hok'. exact Hok'.
Qed.

Lemma truncate_splits_the_node_in_place_witness :
  let m := {| node := {| nid := 1; nodeValue := js "Positive " |}; offset := 0 |} in
  exists l,
    (well_formed sample_index l /\ markers sample_index !! 0%nat = Some 0%nat /\
     store sample_index !! 0%nat = Some m /\ 0 <= 2 /\ 2 <= 4 /\ 4 < node_length m /\
     root sample_index = sample_root /\
     tree_ok (next_id sample_index) (root sample_index)) /\
    exists (k : Z) (s' : State),
      truncate 0 2 4 sample_index = (Normal k, s') /\
      textContent (root s') = textContent sample_root.
Proof.
  intros m.
  destruct (parse_well_formed (constructor sample_root 6 "development") eq_refl)
    as [l Hwf].
  assert (tree_ok (next_id sample_index) (root sample_index)) as Hok.
  { split; [apply (bool_decide_unpack _); vm_compute; exact I|].
    apply (bool_decide_unpack _). vm_compute. exact I. }
  assert (4 < node_length m) as Hlen by (vm_compute; congruence).
  exists l.
  refine (conj (conj Hwf (conj eq_refl (conj eq_refl
            (conj _ (conj _ (conj Hlen (conj eq_refl Hok))))))) _); [lia | lia |].
  destruct (truncate_splits_the_node_in_place sample_index l 0 0 m 2 4 Here 0 "P" false []
              [Element 2 "SCRIPT" false [Text {| nid := 3; nodeValue := js "x();" |}];
               Text {| nid := 4; nodeValue := [] |};
               Text {| nid := 5; nodeValue := js " match" |}]
              Hwf eq_refl eq_refl ltac:(lia) ltac:(lia) Hlen eq_refl Hok)
    as (k & s' & Hrun & _ & Htext & _).
  exists k, s'. split; [exact Hrun | exact Htext].
Defined.

(** X13. [truncate] over the whole of a node, [start = 0] and
    [end = length - 1], cuts nothing off: it returns the place the marker
    had, the array has the markers it had, with the offsets they had, and
    the text is the same; but the marker's node is a new node, with the
    text of the old one. *)
Theorem truncate_of_a_whole_node_replaces_it (s : State) (l : list Marker)
  (marker p : nat) (m : Marker) :
  well_formed s l -> markers s !! p = Some marker -> store s !! marker = Some m ->
  parented (nid (node m)) (root s) ->
  exists s',
    truncate marker 0 (node_length m - 1) s = (Normal (Z.of_nat p), s') /\
    view s'
      = Some (take p l
              ++ {| node := {| nid := next_id s; nodeValue := nodeValue (node m) |};
                    offset := offset m |} :: drop (S p) l) /\
    next_id s' = S (next_id s) /\ text s' = text s.
Proof.
  intros Hwf Hp Hm Hpar.
  pose proof (wf_view _ _ Hwf) as Hv.
  assert (l !! p = Some m) as Hlp by (by rewrite (view_lookup s l p Hv), Hp).
  pose proof (Forall_lookup_1 _ _ _ _ (wf_nonempty _ _ Hwf) Hlp) as Hlen.
  cbv beta in Hlen.
  destruct (truncate_dom_parented (node m) (head_node m 0 (next_id s))
              (middle_node m 0 (node_length m - 1) (next_id s))
              (tail_node m 0 (node_length m - 1) (next_id s)) (root s) Hpar)
    as [root' Hdom].
  destruct (truncate_run s l marker p m 0 (node_length m - 1) root' Hwf Hp Hm
              ltac:(lia) ltac:(lia) ltac:(lia) Hdom)
    as (s' & Hrun & _ & Htext & _ & Hnext & Hwf' & _).
  assert (segment m 0 (node_length m - 1) (next_id s)
          = [ {| node := {| nid := next_id s; nodeValue := nodeValue (node m) |};
                 offset := offset m |} ]) as Hseg.
  { unfold segment, head_node, tail_node, middle_node.
    rewrite Z.eqb_refl. cbn [Z.gtb Z.compare negb app].
    rewrite Z.add_0_r. do 3 f_equal.
    unfold js_substr, node_length, jslength. rewrite drop_0. apply take_ge. lia. }
  rewrite Hseg in Hwf', Hnext. cbn [length app] in Hwf', Hnext.
  exists s'. split; [by rewrite Hrun, Z.add_0_r|].
  split; [exact (wf_view _ _ Hwf')|]. split; [lia | exact Htext].
Qed.

Lemma truncate_of_a_whole_node_replaces_it_witness :
  let m := {| node := {| nid := 3; nodeValue := js "x();" |}; offset := 9 |} in
  exists l,
    (well_formed sample_index l /\ markers sample_index !! 1%nat = Some 1%nat /\
     store sample_index !! 1%nat = Some m /\
     parented (nid (node m)) (root sample_index)) /\
    exists s',
      truncate 1 0 (node_length m - 1) sample_index = (Normal 1, s') /\
      store s' !! 1%nat
        = Some {| node := {| nid := 6; nodeValue := js "x();" |}; offset := 9 |}.
Proof.
  intros m.
  destruct (parse_well_formed (constructor sample_root 6 "development") eq_refl)
    as [l Hwf].
  assert (parented (nid (node m)) (root sample_index)) as Hpar.
  { unfold parented. vm_compute. by eexists. }
  exists l.
  refine (conj (conj Hwf (conj eq_refl (conj eq_refl Hpar))) _).
  destruct (truncate_of_a_whole_node_replaces_it sample_index l 1 1 m
              Hwf eq_refl eq_refl Hpar) as (s' & Hrun & _).
  exists s'. split; [exact Hrun|].
  pose proof (f_equal snd Hrun) as Hs. cbn [snd] in Hs. rewrite <- Hs. reflexivity.
Defined.

(** *** [dispose] *)

(** X14. After [dispose] the index answers no question: [at] throws for every
    index and [substr] for every offset and length, both with their
    validation error; [indexOf] ends with a [TypeError] for every offset;
    [find] from a start that is not negative returns [-1] for every node.
    The root is kept, so a [parse] brings the index back. *)
Theorem disposed_index_rejects_every_access (s : State) (i o len start : Z) (n : Node) :
  at_ (dispose s) i = Throw (JsError "Invalid marker index") /\
  substr (dispose s) o len = Throw (JsError "Invalid start offset") /\
  indexOf (dispose s) o = Throw JsTypeError /\
  (0 <= start -> find (dispose s) n (Some start) = Normal (-1)) /\
  parse (dispose s) = parse s.
Proof.
  split; [|split; [|split; [|split]]].
  - unfold at_, dispose. cbn [markers length].
    destruct (Z.ltb_spec i 0); [reflexivity|].
    destruct (Z.geb_spec i (Z.of_nat 0)); [reflexivity | lia].
  - unfold substr, dispose, jslength. cbn [text length].
    destruct (Z.ltb_spec o 0); [reflexivity|].
    destruct (Z.geb_spec o (Z.of_nat 0)); [reflexivity | lia].
  - reflexivity.
  - intros Hstart. destruct n as [t|e tag hl ch]; [|reflexivity].
    unfold find. cbv zeta. rewrite find_loop_unfold. cbn [dispose markers length].
    destruct (Z.ltb_spec start (Z.of_nat 0)); [lia | reflexivity].
  - reflexivity.
Qed.

Lemma disposed_index_rejects_every_access_witness :
  0 <= 0 /\
  find (dispose sample_index) (Text {| nid := 1; nodeValue := js "Positive " |}) (Some 0)
  = Normal (-1).
Proof.
  split; [lia|].
  apply (disposed_index_rejects_every_access sample_index 0 0 0 0
           (Text {| nid := 1; nodeValue := js "Positive " |})).
  lia.
Defined.

End TextContentLaws.

(** ** HighlightRenderer.js: one text node, a whole text node, and what is left as it was *)

Module HighlightRendererLaws.
Import Dom HighlightRenderer HighlightRendererFacts.

(** [_surround] does not touch the flattened text. *)
Lemma surround_at_text (s : State) (p : Path) (i : nat) (tag : string) (hl : bool)
  (L R : list Node) (descr : Highlight.RangeDescriptor) (m : TextContent.Marker)
  (start : Z) (end_opt : option Z) (l : list TextContent.Marker) (pos : nat) :
  let c := content s in
  let end' := match end_opt with
              | None => jslength (nodeValue (TextContent.node m)) - 1
              | Some e => e
              end in
  TextContent.well_formed c l ->
  TextContent.markers c !! pos = Some (Highlight.marker descr) ->
  TextContent.store c !! Highlight.marker descr = Some m ->
  TextContent.root c = plug p (Element i tag hl (L ++ Text (TextContent.node m) :: R)) ->
  tree_ok (TextContent.next_id c) (TextContent.root c) ->
  0 <= start -> start <= end' -> end' < TextContent.node_length m ->
  TextContent.text (content (snd (_surround descr start end_opt s)))
  = TextContent.text c.
Proof.
  intros c end' Hwf Hpos Hm Hroot Hok H0 H1 H2.
  rewrite Hroot in Hok.
  destruct (TextContentFacts.truncate_dom_at p i tag hl L R m start end'
              (TextContent.next_id c) Hok) as [Hdom Hok1].
  rewrite <- Hroot in Hdom. rewrite segment_nodes in Hdom. rewrite segment_nodes in Hok1.
  destruct (TextContentFacts.truncate_run c l _ pos m start end' _ Hwf Hpos Hm H0 H1 H2 Hdom)
    as (c1 & Hrun & Hr1 & Ht1 & He1 & Hn1 & Hwf1 & Hm1 & Hf1 & Hk1).
  set (s1 := {| content := c1; decorated := decorated s |}).
  assert (length (match TextContent.head_node m start (TextContent.next_id c) with
                  | Some h => [Text h] | None => [] end
                  ++ Text (TextContent.middle_node m start end' (TextContent.next_id c))
                  :: match TextContent.tail_node m start end' (TextContent.next_id c) with
                     | Some t => [Text t] | None => [] end)
          = length (TextContent.segment m start end' (TextContent.next_id c))) as Hlen.
  { rewrite <- (length_map (fun k => Text (TextContent.node k))), segment_nodes. done. }
  destruct (wrap_at s1 p i tag hl
              (L ++ match TextContent.head_node m start (TextContent.next_id c) with
                    | Some h => [Text h] | None => [] end)
              (match TextContent.tail_node m start end' (TextContent.next_id c) with
               | Some t => [Text t] | None => [] end ++ R)
              (TextContent.middle_node m start end' (TextContent.next_id c)))
    as (s2 & Hwrap & _ & _ & _ & Ht2 & _).
  { cbn [content s1]. rewrite Hr1. by rewrite <- !app_assoc. }
  { cbn [content s1]. rewrite Hr1, Hn1. rewrite <- Hlen. exact Hok1. }
  cbn [content s1] in Hwrap, Ht2.
  assert (_surround descr start end_opt s = (Normal (TextContent.next_id c1), s2)) as ->.
  { unfold _surround.
    rewrite (bind_on_content _ _ s m c) by (by apply deref_run).
    assert ({| content := c; decorated := decorated s |} = s) as -> by (by destruct s).
    rewrite (bind_on_content _ _ s _ c1) by exact Hrun.
    fold s1. rewrite (bind_on_content _ _ s1 _ c1) by (by apply deref_run).
    assert ({| content := c1; decorated := decorated s1 |} = s1) as -> by reflexivity.
    exact Hwrap. }
  cbn [snd]. by rewrite Ht2, Ht1.
Qed.

(** The text under a wrapped piece and its neighbours is the text of the
    node they were cut from. *)
Lemma wrapped_segment_text (m : TextContent.Marker) (start end' : Z) (N : nat) :
  0 <= start -> start <= end' -> end' < TextContent.node_length m ->
  concat (map nodeValue (concat (map text_nodes
    match TextContent.head_node m start N with Some h => [Text h] | None => [] end)))
  ++ nodeValue (TextContent.middle_node m start end' N)
  ++ concat (map nodeValue (concat (map text_nodes
       match TextContent.tail_node m start end' N with Some t => [Text t] | None => [] end)))
  = nodeValue (TextContent.node m).
Proof.
  intros H0 H1 H2.
  rewrite <- (TextContentLaws.segment_text m start end' N H0 H1 H2).
  unfold TextContent.segment.
  destruct (TextContent.head_node m start N), (TextContent.tail_node m start end' N);
    cbn; rewrite ?app_nil_r; reflexivity.
Qed.

(** What [surround] does for a range inside one text node. *)
Lemma surround_one_node (s : State) (h : Highlight.Highlight)
  (p : Path) (i : nat) (tag : string) (hl : bool) (B A : list Node)
  (ma me : TextContent.Marker) (l : list TextContent.Marker) :
  let c := content s in
  let rangeStart := Highlight.start (Highlight.range h) in
  let rangeEnd := Highlight.end' (Highlight.range h) in
  let so := Highlight.offset rangeStart in
  let eo := Highlight.offset rangeEnd in
  TextContent.well_formed c l ->
  TextContent.root c = plug p (Element i tag hl (B ++ Text (TextContent.node ma) :: A)) ->
  tree_ok (TextContent.next_id c) (TextContent.root c) ->
  Highlight.marker rangeStart ∈ TextContent.markers c ->
  TextContent.store c !! Highlight.marker rangeStart = Some ma ->
  TextContent.store c !! Highlight.marker rangeEnd = Some me ->
  nid (TextContent.node me) = nid (TextContent.node ma) ->
  0 <= so -> so <= eo -> eo < jslength (nodeValue (TextContent.node ma)) ->
  exists (e : nat) (mid : TextNode) (before after : list Node) (s' : State)
         (l' : list TextContent.Marker),
    surround h s = Some (Normal [e], s') /\
    TextContent.root (content s')
      = plug p (Element i tag hl (B ++ before ++ wrapper e mid :: after ++ A)) /\
    nodeValue mid = js_substr (nodeValue (TextContent.node ma)) so (eo - so + 1) /\
    textContent (TextContent.root (content s')) = textContent (TextContent.root c) /\
    TextContent.text (content s') = TextContent.text c /\
    TextContent.well_formed (content s') l' /\
    decorated s'
      = decorated s
        ++ [([e], Highlight.with_range h (Highlight.clearStartOffset (Highlight.range h)))].
Proof.
  intros c rangeStart rangeEnd so eo Hwf Hroot Hok Hin Hma Hme Hsame H0 H1 H2.
  apply list_elem_of_lookup in Hin as [pa Hpa].
  pose proof (surround_at_text s p i tag hl B A rangeStart ma so (Some eo) l pa
                Hwf Hpa Hma Hroot Hok H0 H1 H2) as Htext.
  destruct (surround_at s p i tag hl B A rangeStart ma so (Some eo) l pa
              Hwf Hpa Hma Hroot Hok H0 H1 H2)
    as (s1 & l1 & Hrun & Hr1 & _ & _ & Hwf1 & _ & _ & Hd1).
  fold c in Hrun, Hr1, Htext. rewrite Hrun in Htext. cbn [snd] in Htext.
  eexists _, _, _, _.
  exists {| content := content s1;
            decorated := decorated s1
              ++ [([(TextContent.next_id c
                     + length (TextContent.segment ma so eo (TextContent.next_id c)))%nat],
                   Highlight.with_range h
                     (Highlight.clearStartOffset (Highlight.range h)))] |}, l1.
  split; [|split; [|split; [|split; [|split; [|split]]]]].
  - unfold surround. fold rangeStart rangeEnd. fold c. rewrite Hma, Hme, Hsame.
    rewrite Nat.eqb_refl. f_equal. fold so eo.
    unfold bind at 1. rewrite Hrun. reflexivity.
  - cbn [content]. exact Hr1.
  - reflexivity.
  - cbn [content]. rewrite Hr1, Hroot. unfold textContent.
    rewrite !DomFacts.text_nodes_plug. cbn [text_nodes].
    repeat rewrite text_nodes_children. cbn [map concat text_nodes].
    repeat rewrite text_nodes_children.
    repeat rewrite map_app. repeat rewrite concat_app. cbn [map concat].
    rewrite ?app_nil_r.
    rewrite <- (wrapped_segment_text ma so eo (TextContent.next_id c) H0 H1 H2).
    repeat rewrite <- app_assoc. reflexivity.
  - exact Htext.
  - exact Hwf1.
  - cbn [decorated]. by rewrite Hd1.
Qed.

(** X15. A range that starts and ends in one text node, a child of an element of
    the tree: [surround] returns one wrapper element; it stands where the
    node stood, between what is left of the node's text before and after the
    range, and holds the characters from the start offset to the end offset;
    the text of the document and the flattened text are as they were, the
    index is well formed again, and the decorator gets one call of
    [decorate], with that wrapper. *)
Theorem surround_within_one_text_node (s : State) (h : Highlight.Highlight)
  (p : Path) (i : nat) (tag : string) (hl : bool) (B A : list Node)
  (ma me : TextContent.Marker) (l : list TextContent.Marker) :
  let c := content s in
  let rangeStart := Highlight.start (Highlight.range h) in
  let rangeEnd := Highlight.end' (Highlight.range h) in
  let so := Highlight.offset rangeStart in
  let eo := Highlight.offset rangeEnd in
  TextContent.well_formed c l ->
  TextContent.root c = plug p (Element i tag hl (B ++ Text (TextContent.node ma) :: A)) ->
  tree_ok (TextContent.next_id c) (TextContent.root c) ->
  Highlight.marker rangeStart ∈ TextContent.markers c ->
  TextContent.store c !! Highlight.marker rangeStart = Some ma ->
  TextContent.store c !! Highlight.marker rangeEnd = Some me ->
  nid (TextContent.node me) = nid (TextContent.node ma) ->
  0 <= so -> so <= eo -> eo < jslength (nodeValue (TextContent.node ma)) ->
  exists (e : nat) (mid : TextNode) (before after : list Node) (s' : State)
         (l' : list TextContent.Marker),
    surround h s = Some (Normal [e], s') /\
    TextContent.root (content s')
      = plug p (Element i tag hl (B ++ before ++ wrapper e mid :: after ++ A)) /\
    nodeValue mid = js_substr (nodeValue (TextContent.node ma)) so (eo - so + 1) /\
    textContent (TextContent.root (content s')) = textContent (TextContent.root c) /\
    TextContent.text (content s') = TextContent.text c /\
    TextContent.well_formed (content s') l' /\
    decorated s'
      = decorated s
        ++ [([e], Highlight.with_range h (Highlight.clearStartOffset (Highlight.range h)))].
Proof.
  intros c rangeStart rangeEnd so eo Hwf Hroot Hok Hin Hma Hme Hsame H0 H1 H2.
  exact (surround_one_node s h p i tag hl B A ma me l Hwf Hroot Hok Hin Hma Hme Hsame
           H0 H1 H2).
Qed.

Lemma surround_within_one_text_node_witness :
  let h := {| Highlight.id := "h2"; Highlight.queryName := "q";
              Highlight.range :=
                {| Highlight.start := {| Highlight.marker := 0; Highlight.offset := 1 |};
                   Highlight.end' := {| Highlight.marker := 0; Highlight.offset := 1 |} |};
              Highlight.elements := [] |} in
  exists (e : nat) (mid : TextNode) (before after : list Node) (s' : State),
    surround h three_state = Some (Normal [e], s') /\
    TextContent.root (content s')
      = Element 0 "DIV" false
          [Element 1 "P" false
             (before ++ wrapper e mid :: after
              ++ [Element 3 "BR" false [];
                  Text {| nid := 4; nodeValue := TextContent.js "def" |};
                  Element 5 "I" false [];
                  Text {| nid := 6; nodeValue := TextContent.js "ghi" |}])] /\
    nodeValue mid = TextContent.js "b".
Proof.
  intros h.
  assert (tree_ok (TextContent.next_id (content three_state))
            (TextContent.root (content three_state))) as Hok.
  { split; [apply (bool_decide_unpack _); vm_compute; exact I|].
    apply (bool_decide_unpack _). vm_compute. exact I. }
  destruct (TextContentFacts.parse_well_formed
              (TextContent.constructor three_root 7 "development") eq_refl) as [l Hwf].
  set (ta := {| nid := 2; nodeValue := TextContent.js "abc" |}).
  destruct (surround_within_one_text_node three_state h
              (Below 0 "DIV" false [] Here []) 1 "P" false []
              [Element 3 "BR" false [];
               Text {| nid := 4; nodeValue := TextContent.js "def" |};
               Element 5 "I" false [];
               Text {| nid := 6; nodeValue := TextContent.js "ghi" |}]
              {| TextContent.node := ta; TextContent.offset := 0 |}
              {| TextContent.node := ta; TextContent.offset := 0 |} l
              Hwf eq_refl Hok)
    as (e & mid & before & after & s' & l' & Hrun & Hroot & Hmid & _);
    try reflexivity; try lia.
  - apply (bool_decide_unpack _). vm_compute. exact I.
  - vm_compute. congruence.
  - exists e, mid, before, after, s'. split; [exact Hrun|]. split; [exact Hroot | exact Hmid].
Defined.

(** *** Wrapping a whole text node *)

(** X16. [_surroundWhole] on a text node that is a child of an element of the
    tree: the new element takes the place of the node and holds it as its
    only child; it is one [isHighlight] accepts, and its identity is new to
    the tree; the text of the document is as it was, and so is all of the
    text index: text, markers and marker objects. *)
Theorem surroundWhole_wraps_and_leaves_the_index (s : State) (p : Path) (i : nat)
  (tag : string) (hl : bool) (L R : list Node) (n : TextNode) :
  let c := content s in
  TextContent.root c = plug p (Element i tag hl (L ++ Text n :: R)) ->
  tree_ok (TextContent.next_id c) (TextContent.root c) ->
  exists (e : nat) (s' : State),
    _surroundWhole n s = (Normal e, s') /\
    TextContent.root (content s') = plug p (Element i tag hl (L ++ wrapper e n :: R)) /\
    isHighlight (wrapper e n) = true /\ (e ∉ ids (TextContent.root c)) /\
    textContent (TextContent.root (content s')) = textContent (TextContent.root c) /\
    TextContent.text (content s') = TextContent.text c /\
    TextContent.markers (content s') = TextContent.markers c /\
    TextContent.store (content s') = TextContent.store c /\
    decorated s' = decorated s.
Proof.
  intros c Hroot Hok.
  destruct (wrap_at s p i tag hl L R n Hroot Hok)
    as (s' & Hrun & Hr & _ & _ & Ht & Hms & Hst & _ & Hd).
  exists (TextContent.next_id c), s'.
  split; [exact Hrun|]. split; [exact Hr|]. split; [reflexivity|]. split.
  { intros Hin. destruct Hok as [_ Hlt].
    pose proof (proj1 (Forall_forall _ _) Hlt _ Hin) as Hlt'. cbv beta in Hlt'. lia. }
  split; [|by repeat split].
  rewrite Hr. fold c. rewrite Hroot. unfold textContent.
  rewrite !DomFacts.text_nodes_plug. cbn [text_nodes].
  repeat rewrite text_nodes_children. cbn [map concat text_nodes app]. reflexivity.
Qed.

Lemma surroundWhole_wraps_and_leaves_the_index_witness :
  let c := content three_state in
  let n := {| nid := 4; nodeValue := TextContent.js "def" |} in
  (TextContent.root c = three_root /\ tree_ok (TextContent.next_id c) (TextContent.root c)) /\
  exists (e : nat) (s' : State),
    _surroundWhole n three_state = (Normal e, s') /\
    TextContent.store (content s') = TextContent.store c.
Proof.
  intros c n.
  assert (tree_ok (TextContent.next_id c) (TextContent.root c)) as Hok.
  { split; [apply (bool_decide_unpack _); vm_compute; exact I|].
    apply (bool_decide_unpack _). vm_compute. exact I. }
  split; [split; [reflexivity | exact Hok]|].
  destruct (surroundWhole_wraps_and_leaves_the_index three_state
              (Below 0 "DIV" false [] Here []) 1 "P" false
              [Text {| nid := 2; nodeValue := TextContent.js "abc" |}; Element 3 "BR" false []]
              [Element 5 "I" false [];
               Text {| nid := 6; nodeValue := TextContent.js "ghi" |}] n eq_refl Hok)
    as (e & s' & Hrun & _ & _ & _ & _ & _ & _ & Hst & _).
  exists e, s'. split; [exact Hrun | exact Hst].
Defined.

(** X17. A text node that has no parent in the tree cannot be wrapped: the read
    of [node.parentNode] gives [null], and the call ends with a [TypeError];
    the tree, the index and the decorator are left as they were. *)
Theorem createHighlightElement_needs_a_parent (s : State) (n : TextNode) :
  ~ parented (nid n) (TextContent.root (content s)) ->
  exists s',
    _createHighlightElement n s = (Throw JsTypeError, s') /\
    TextContent.root (content s') = TextContent.root (content s) /\
    TextContent.text (content s') = TextContent.text (content s) /\
    TextContent.markers (content s') = TextContent.markers (content s) /\
    TextContent.store (content s') = TextContent.store (content s) /\
    decorated s' = decorated s.
Proof.
  intros Hpar. unfold _createHighlightElement, on_content.
  rewrite bind_gets, bind_modify. rewrite TextContentFacts.run_dom_edit.
  cbn [TextContent.root TextContent.set_next_id].
  destruct (insert_before (Element (TextContent.next_id (content s)) "SPAN" true [])
              (nid n) (TextContent.root (content s))) as [r|] eqn:Hins.
  - exfalso. apply Hpar. unfold insert_before in Hins.
    eapply DomFacts.parented_replace_child. rewrite Hins. by eexists.
  - eexists. split; [reflexivity|]. by repeat split.
Qed.

Lemma createHighlightElement_needs_a_parent_witness :
  let n := {| nid := 9; nodeValue := TextContent.js "loose" |} in
  ~ parented (nid n) (TextContent.root (content three_state)) /\
  fst (_createHighlightElement n three_state) = Throw JsTypeError.
Proof.
  intros n.
  assert (~ parented (nid n) (TextContent.root (content three_state))) as Hpar.
  { unfold parented. vm_compute. intros [x Hx]. discriminate. }
  split; [exact Hpar|].
  destruct (createHighlightElement_needs_a_parent three_state n Hpar) as (s' & Hrun & _).
  by rewrite Hrun.
Defined.

(** *** Ranges that are not valid *)

(** [truncate] checks its arguments before it changes anything. *)
Lemma truncate_rejects (c : TextContent.State) (marker : nat) (m : TextContent.Marker)
  (start end' : Z) :
  TextContent.store c !! marker = Some m ->
  ~ (0 <= start /\ start <= end' /\ end' < TextContent.node_length m) ->
  exists e, TextContent.truncate marker start end' c = (Throw e, c).
Proof.
  intros Hm Hbad. unfold TextContent.truncate.
  rewrite (TextContentFacts.run_deref _ _ m) by exact Hm.
  unfold bind at 1, pure_call.
  destruct (TextContent.indexOf c (TextContent.offset m)) as [index|e];
    [|by exists e].
  fold (TextContent.node_length m).
  destruct (Z.ltb_spec start 0); [|destruct (Z.ltb_spec end' 0);
    [|destruct (Z.gtb_spec start end');
      [|destruct (Z.geb_spec end' (TextContent.node_length m)); [|lia]]]];
    cbn [orb]; eexists; reflexivity.
Qed.

(** X18. A range inside one text node whose offsets are not
    [0 <= start <= end < length]: [surround] throws, and nothing has
    happened: no node has been made or moved, the index is as it was, and
    the decorator has not been called. *)
Theorem surround_rejects_offsets_outside_the_node (s : State) (h : Highlight.Highlight)
  (ma me : TextContent.Marker) :
  let rangeStart := Highlight.start (Highlight.range h) in
  let rangeEnd := Highlight.end' (Highlight.range h) in
  let so := Highlight.offset rangeStart in
  let eo := Highlight.offset rangeEnd in
  TextContent.store (content s) !! Highlight.marker rangeStart = Some ma ->
  TextContent.store (content s) !! Highlight.marker rangeEnd = Some me ->
  nid (TextContent.node me) = nid (TextContent.node ma) ->
  ~ (0 <= so /\ so <= eo /\ eo < jslength (nodeValue (TextContent.node ma))) ->
  exists e, surround h s = Some (Throw e, s).
Proof.
  intros rangeStart rangeEnd so eo Hma Hme Hsame Hbad.
  destruct (truncate_rejects (content s) (Highlight.marker rangeStart) ma so eo Hma Hbad)
    as [e He].
  exists e. unfold surround. fold rangeStart rangeEnd. rewrite Hma, Hme, Hsame.
  rewrite Nat.eqb_refl. f_equal. fold so eo.
  unfold bind at 1. unfold _surround.
  rewrite (bind_on_content _ _ s ma (content s)) by (by apply deref_run).
  assert ({| content := content s; decorated := decorated s |} = s) as -> by (by destruct s).
  unfold bind at 1, on_content. rewrite He. by destruct s.
Qed.

Lemma surround_rejects_offsets_outside_the_node_witness :
  let h := {| Highlight.id := "h3"; Highlight.queryName := "q";
              Highlight.range :=
                {| Highlight.start := {| Highlight.marker := 0; Highlight.offset := 2 |};
                   Highlight.end' := {| Highlight.marker := 0; Highlight.offset := 1 |} |};
              Highlight.elements := [] |} in
  let ta := {| nid := 2; nodeValue := TextContent.js "abc" |} in
  ~ (0 <= 2 /\ 2 <= 1 /\ 1 < jslength (nodeValue ta)) /\
  exists e, surround h three_state = Some (Throw e, three_state).
Proof.
  intros h ta.
  assert (~ (0 <= 2 /\ 2 <= 1 /\ 1 < jslength (nodeValue ta))) as Hbad by lia.
  split; [exact Hbad|].
  apply (surround_rejects_offsets_outside_the_node three_state h
           {| TextContent.node := ta; TextContent.offset := 0 |}
           {| TextContent.node := ta; TextContent.offset := 0 |}
           eq_refl eq_refl eq_refl Hbad).
Defined.

Lemma text_nodes_two (p : Path) (i : nat) (tag : string) (hl : bool)
  (B G A : list Node) (ta tc : TextNode) :
  concat (map text_nodes G) = [] ->
  text_nodes (plug p (Element i tag hl (B ++ Text ta :: G ++ Text tc :: A)))
  = (texts_before p ++ concat (map text_nodes B))
    ++ ta :: tc :: concat (map text_nodes A) ++ texts_after p.
Proof.
  intros HG. rewrite DomFacts.text_nodes_plug. cbn [text_nodes].
  rewrite text_nodes_children. cbn [map concat text_nodes app].
  rewrite text_nodes_children, HG. cbn [map concat text_nodes app].
  repeat rewrite <- app_assoc. reflexivity.
Qed.

(** X19. [surround] over more than one node is not all or nothing.  For a range
    from a text node [ta] to the next text node [tc] under the same element,
    with a valid start offset and an end offset outside of [tc]: [surround]
    throws at the end node, after it has cut and wrapped the start node; the
    wrapper stays in the tree, no elements are returned, and the decorator
    is not called. *)
Theorem surround_fails_after_wrapping_the_start (s : State) (h : Highlight.Highlight)
  (p : Path) (i : nat) (tag : string) (hl : bool) (B G A : list Node)
  (ta tc : TextNode) (ma mc : TextContent.Marker) (l : list TextContent.Marker) :
  let c := content s in
  let rangeStart := Highlight.start (Highlight.range h) in
  let rangeEnd := Highlight.end' (Highlight.range h) in
  let so := Highlight.offset rangeStart in
  let eo := Highlight.offset rangeEnd in
  TextContent.well_formed c l ->
  TextContent.root c = plug p (Element i tag hl (B ++ Text ta :: G ++ Text tc :: A)) ->
  tree_ok (TextContent.next_id c) (TextContent.root c) ->
  concat (map text_nodes G) = [] ->
  Highlight.marker rangeStart ∈ TextContent.markers c ->
  TextContent.store c !! Highlight.marker rangeStart = Some ma ->
  TextContent.node ma = ta ->
  TextContent.store c !! Highlight.marker rangeEnd = Some mc ->
  TextContent.node mc = tc ->
  0 <= so < jslength (nodeValue ta) ->
  ~ (0 <= eo < jslength (nodeValue tc)) ->
  exists (e : exn) (e1 : nat) (a' : TextNode) (before : list Node) (s' : State),
    surround h s = Some (Throw e, s') /\
    TextContent.root (content s')
      = plug p (Element i tag hl
                  (B ++ before ++ wrapper e1 a' :: G ++ Text tc :: A)) /\
    nodeValue a' = drop (Z.to_nat so) (nodeValue ta) /\
    decorated s' = decorated s.
Proof.
  intros c rangeStart rangeEnd so eo Hwf Hroot Hok HG Hina Hma Hta Hmc Htc Hso Heo.
  pose proof (text_nodes_two p i tag hl B G A ta tc HG) as Htexts.
  rewrite <- Hroot in Htexts.
  assert (NoDup (map nid (text_nodes (TextContent.root c)))) as Hnd.
  { eapply sublist_NoDup; [apply Hok | apply text_nodes_ids]. }
  rewrite Htexts, map_app in Hnd. cbn [map] in Hnd.
  apply NoDup_app in Hnd as (_ & Hfront & Hnd).
  apply NoDup_cons in Hnd as (Hac & _).
  assert (nid ta ∉ map nid (texts_before p ++ concat (map text_nodes B))) as Hfirst.
  { intros Hin. apply (Hfront _ Hin). set_solver. }
  assert (nid ta <> nid tc) as Hne' by set_solver.
  assert (Highlight.marker rangeStart <> Highlight.marker rangeEnd) as Hne.
  { intros Heq. rewrite Heq, Hmc in Hma. injection Hma as <-. congruence. }
  apply list_elem_of_lookup in Hina as [pa Hpa].
  destruct (surround_at s p i tag hl B (G ++ Text tc :: A) rangeStart ma so None l pa)
    as (s1 & l1 & Hrun1 & Hr1 & _ & _ & _ & Hf1 & _ & Hd1);
    try assumption; try lia; try (rewrite Hta; assumption);
    try (unfold TextContent.node_length; rewrite Hta; lia).
  fold c in Hrun1, Hr1, Hf1.
  assert (TextContent.tail_node ma so (jslength (nodeValue (TextContent.node ma)) - 1)
            (TextContent.next_id c) = None) as Htail1.
  { unfold TextContent.tail_node, TextContent.node_length. by rewrite Z.eqb_refl. }
  rewrite Htail1 in Hr1. cbn [app] in Hr1.
  assert (TextContent.store (content s1) !! Highlight.marker rangeEnd = Some mc) as Hmc1.
  { rewrite Hf1; [exact Hmc | by apply not_eq_sym | by apply lookup_lt_Some in Hmc]. }
  destruct (truncate_rejects (content s1) (Highlight.marker rangeEnd) mc 0 eo Hmc1)
    as [e He].
  { unfold TextContent.node_length. rewrite Htc. lia. }
  exists e. eexists _, _, _, s1. split; [|split; [exact Hr1 | split; [|exact Hd1]]].
  - unfold surround. fold rangeStart rangeEnd. fold c. rewrite Hma, Hmc, Hta, Htc.
    destruct (Nat.eqb_spec (nid ta) (nid tc)) as [|_]; [done|].
    unfold following. rewrite Htexts, (after_skip ta _ _ Hfirst).
    cbn [collect]. rewrite Nat.eqb_refl. f_equal.
    fold so eo. unfold bind at 1. rewrite Hrun1.
    cbn [surround_each]. rewrite bind_ret.
    unfold bind at 1. unfold _surround.
    rewrite (bind_on_content _ _ s1 mc (content s1)) by (by apply deref_run).
    assert ({| content := content s1; decorated := decorated s1 |} = s1) as ->
      by (by destruct s1).
    unfold bind at 1, on_content. rewrite He. by destruct s1.
  - unfold TextContent.middle_node. cbn [nodeValue]. rewrite Hta.
    unfold js_substr. apply take_ge. rewrite length_drop. unfold jslength in *. lia.
Qed.

Lemma surround_fails_after_wrapping_the_start_witness :
  let h := {| Highlight.id := "h4"; Highlight.queryName := "q";
              Highlight.range :=
                {| Highlight.start := {| Highlight.marker := 1; Highlight.offset := 1 |};
                   Highlight.end' := {| Highlight.marker := 2; Highlight.offset := 3 |} |};
              Highlight.elements := [] |} in
  let tb := {| nid := 4; nodeValue := TextContent.js "def" |} in
  let tc := {| nid := 6; nodeValue := TextContent.js "ghi" |} in
  ~ (0 <= 3 < jslength (nodeValue tc)) /\
  exists (e : exn) (s' : State),
    surround h three_state = Some (Throw e, s') /\ decorated s' = decorated three_state.
Proof.
  intros h tb tc.
  assert (~ (0 <= 3 < jslength (nodeValue tc))) as Hbad by (vm_compute; intros [_ H]; done).
  split; [exact Hbad|].
  assert (tree_ok (TextContent.next_id (content three_state))
            (TextContent.root (content three_state))) as Hok.
  { split; [apply (bool_decide_unpack _); vm_compute; exact I|].
    apply (bool_decide_unpack _). vm_compute. exact I. }
  destruct (TextContentFacts.parse_well_formed
              (TextContent.constructor three_root 7 "development") eq_refl) as [l Hwf].
  destruct (surround_fails_after_wrapping_the_start three_state h
              (Below 0 "DIV" false [] Here []) 1 "P" false
              [Text {| nid := 2; nodeValue := TextContent.js "abc" |}; Element 3 "BR" false []]
              [Element 5 "I" false []] [] tb tc
              {| TextContent.node := tb; TextContent.offset := 3 |}
              {| TextContent.node := tc; TextContent.offset := 6 |} l
              Hwf eq_refl Hok eq_refl)
    as (e & e1 & a' & before & s' & Hrun & _ & _ & Hdec);
    try reflexivity; try exact Hbad.
  - apply (bool_decide_unpack _). vm_compute. exact I.
  - vm_compute. split; congruence.
  - exists e, s'. split; [exact Hrun | exact Hdec].
Defined.

End HighlightRendererLaws.

(** ** Cursor.js: what a move does, and what all methods keep *)

Module CursorLaws.
Import Cursor CursorFacts.

(** *** A [set] that finds its highlight *)

Lemma set_negative (i : Z) (d : bool) (cb : option ScrollToCallback) (s : State) :
  i < 0 -> snd (set i d cb s) = s.
Proof.
  intros Hi. rewrite set_unfold. unfold set_body.
  destruct (Z.ltb_spec i 0); [reflexivity | lia].
Qed.

(** *** The decorator is kept in step *)

Lemma in_step_app (cur final : option Highlight.Highlight) (t1 t2 : list Event) :
  in_step cur (t1 ++ t2) final <->
  exists mid, in_step cur t1 mid /\ in_step mid t2 final.
Proof.
  revert cur. induction t1 as [|e t1 IH]; intros cur.
  - cbn. split; [intros H; by exists cur | by intros (mid & -> & H)].
  - destruct e; cbn [app in_step]; rewrite ?IH; try reflexivity.
    + split; [intros (Hc & mid & H1 & H2); by exists mid
             | intros (mid & (Hc & H1) & H2); split; [done | by exists mid]].
    + split; [intros (Hc & mid & H1 & H2); by exists mid
             | intros (mid & (Hc & H1) & H2); split; [done | by exists mid]].
Qed.

Lemma in_step_deactivation (s : State) : in_step (active s) (deactivation s) None.
Proof. unfold deactivation. by destruct (active s). Qed.

Lemma in_step_activation (cb : option ScrollToCallback) (s : State)
  (h : Highlight.Highlight) :
  in_step None (activation cb s h)
    match Highlight.elements h with [] => None | _ :: _ => Some h end.
Proof.
  unfold activation. destruct (Highlight.elements h) as [|first rest]; [reflexivity|].
  cbn [in_step]. split; [reflexivity|].
  destruct cb as [callback|].
  - cbn [in_step]. by destruct (callback first).
  - by destruct (in_view s first).
Qed.

Lemma in_step_extend (tr evs : list Event) (a a' : option Highlight.Highlight) :
  in_step None tr a -> in_step a evs a' -> in_step None (tr ++ evs) a'.
Proof. intros H1 H2. apply in_step_app. by exists a. Qed.

Lemma set_true_in_step (i : Z) (cb : option ScrollToCallback) (s : State) :
  in_step None (trace s) (active s) ->
  in_step None (trace (snd (set i true cb s))) (active (snd (set i true cb s))).
Proof.
  intros Hinv. destruct (Z.lt_ge_cases i 0) as [Hneg|Hi].
  { by rewrite set_negative. }
  destruct (markers_find i (iterableQueries s) (highlights s)) as [h|] eqn:Hfind.
  - destruct (set_resolved_trace i true cb s h Hi Hfind)
      as (s' & Hrun & _ & _ & _ & _ & _ & Hact & Htr).
    rewrite Hrun. cbn [snd]. rewrite Htr, Hact.
    apply (in_step_extend _ _ (active s)); [exact Hinv|].
    apply in_step_app. exists None. split; [apply in_step_deactivation|].
    apply in_step_app. eexists. split; [apply in_step_activation|].
    by destruct (index s =? i).
  - destruct (set_unresolved i cb s Hi Hfind) as [-> _]. exact Hinv.
Qed.

Lemma set_in_step (i : Z) (d : bool) (cb : option ScrollToCallback) (s : State) :
  in_step None (trace s) (active s) ->
  in_step None (trace (snd (set i d cb s))) (active (snd (set i d cb s))).
Proof.
  intros Hinv. destruct d; [by apply set_true_in_step|].
  destruct (Z.lt_ge_cases i 0) as [Hneg|Hi].
  { by rewrite set_negative. }
  destruct (markers_find i (iterableQueries s) (highlights s)) as [h|] eqn:Hfind.
  - destruct (set_resolved_trace i false cb s h Hi Hfind)
      as (s' & Hrun & _ & _ & _ & _ & _ & Hact & Htr).
    rewrite Hrun. cbn [snd]. rewrite Htr, Hact.
    apply (in_step_extend _ _ (active s)); [exact Hinv|].
    apply in_step_app. exists None. split; [apply in_step_deactivation|].
    apply in_step_app. eexists. split; [apply in_step_activation|].
    by destruct (index s =? i).
  - destruct (set_unresolved i cb s Hi Hfind) as [_ ->]. by apply set_true_in_step.
Qed.

(** What [update] and [clear] do, written out. *)
Lemma update_run (force : bool) (s : State) :
  let t := markers_calculateTotalActive (iterableQueries s) (highlights s) in
  update force s
  = (Normal tt,
     if force || negb (t =? total s) then
       {| index := index s; active := active s; iterableQueries := iterableQueries s;
          total := t; highlights := highlights s; in_view := in_view s;
          trace := trace s ++ [EmitUpdate (index s) t] |}
     else s).
Proof.
  unfold update, bind, gets, modify, log, ret. cbv zeta.
  destruct (force || negb (_ =? total s)); reflexivity.
Qed.

Lemma clear_run (s : State) :
  let t := markers_calculateTotalActive (iterableQueries s) (highlights s) in
  clear s
  = (Normal tt,
     {| index := -1; active := None; iterableQueries := iterableQueries s;
        total := t; highlights := highlights s; in_view := in_view s;
        trace := trace s ++ deactivation s ++ [EmitUpdate (-1) t; EmitClear] |}).
Proof.
  unfold clear, clearActive_, update, log, bind, gets, modify, ret, deactivation.
  cbv zeta. destruct s as [idx act q tot hs view tr].
  destruct act as [a|]; cbn [active index total highlights iterableQueries in_view trace
    set_active set_index set_total orb app];
    repeat rewrite <- app_assoc; reflexivity.
Qed.

Lemma setIterableQueries_run (queries : option (list string)) (s : State) :
  let t := markers_calculateTotalActive queries (highlights s) in
  setIterableQueries queries s
  = (Normal tt,
     {| index := -1; active := None; iterableQueries := queries;
        total := t; highlights := highlights s; in_view := in_view s;
        trace := trace s ++ deactivation s
                 ++ [EmitUpdate (-1) t; EmitClear; EmitSetiterable queries] |}).
Proof.
  unfold setIterableQueries. rewrite bind_modify.
  unfold bind at 1. rewrite clear_run. cbv zeta. unfold log, modify.
  cbn [active index total highlights iterableQueries in_view trace set_iterableQueries].
  unfold deactivation. cbn [active set_iterableQueries].
  repeat rewrite <- app_assoc. reflexivity.
Qed.

Lemma next_state (s : State) : snd (next s) = snd (set (index s + 1) false None s).
Proof.
  unfold next. rewrite bind_gets. unfold bind.
  by destruct (set (index s + 1) false None s) as [[b|e] s'].
Qed.

Lemma prev_state (s : State) :
  snd (prev s)
  = if total s >? 0 then
      snd (set ((if index s <? 1 then total s else index s) - 1) false None s)
    else s.
Proof.
  unfold prev. rewrite bind_gets. destruct (total s >? 0); [|reflexivity].
  rewrite bind_gets. unfold bind.
  by destruct (set _ false None s) as [[b|e] s'].
Qed.

Lemma perform_in_step (s : State) (c : Call) :
  in_step None (trace s) (active s) ->
  in_step None (trace (perform s c)) (active (perform s c)).
Proof.
  intros Hinv. destruct c as [|q|force|i d cb| | |hs]; cbn [perform].
  - rewrite clear_run. cbn [snd trace active].
    apply (in_step_extend _ _ (active s)); [exact Hinv|].
    apply in_step_app. exists None. split; [apply in_step_deactivation | reflexivity].
  - rewrite setIterableQueries_run. cbn [snd trace active].
    apply (in_step_extend _ _ (active s)); [exact Hinv|].
    apply in_step_app. exists None. split; [apply in_step_deactivation | reflexivity].
  - rewrite update_run. cbn [snd]. destruct (force || _); [|exact Hinv].
    cbn [trace active]. by apply (in_step_extend _ _ (active s)).
  - by apply set_in_step.
  - rewrite prev_state. destruct (total s >? 0); [by apply set_in_step | exact Hinv].
  - rewrite next_state. by apply set_in_step.
  - rewrite update_run. cbn [snd]. destruct (false || _); [|exact Hinv].
    cbn [trace active set_highlights]. by apply (in_step_extend _ _ (active s)).
Qed.

(** X20. Whatever is done with a cursor after [new Cursor(...)] (calls of
    [clear], [setIterableQueries], [update], [set], [prev] and [next] with
    any arguments, whether they return or throw, and changes of the registry
    in between), the decorator is kept in step: [setActive] is called only
    while no highlight is active, [setInactive] only for the highlight that
    is active, and the highlight the decorator was last told to be active is
    the cursor's [active]. *)
Theorem cursor_keeps_the_decorator_in_step (hs : list Highlight.Highlight)
  (view : nat -> bool) (calls : list Call) :
  let s := foldl perform (snd (constructor hs view)) calls in
  in_step None (trace s) (active s).
Proof.
  cbv zeta.
  assert (in_step None (trace (snd (constructor hs view)))
            (active (snd (constructor hs view)))) as Hinit.
  { unfold constructor. rewrite setIterableQueries_run. reflexivity. }
  revert Hinit. generalize (snd (constructor hs view)).
  induction calls as [|c calls IH]; intros s Hinv; [exact Hinv|].
  cbn [foldl]. apply IH. by apply perform_in_step.
Qed.

(** *** What [set] returns *)

Lemma no_update_in_activity (cb : option ScrollToCallback) (s : State)
  (h : Highlight.Highlight) :
  Forall (fun e => match e with EmitUpdate _ _ => False | _ => True end)
    (deactivation s ++ activation cb s h).
Proof.
  apply Forall_app. split.
  - unfold deactivation. destruct (active s); repeat constructor.
  - unfold activation. destruct (Highlight.elements h) as [|first rest]; [constructor|].
    destruct cb as [callback|]; [destruct (callback first) | destruct (in_view s first)];
      repeat constructor.
Qed.

Lemma set_true_move (i : Z) (cb : option ScrollToCallback) (s : State) :
  0 <= i ->
  exists (b : bool) (s' : State) (evs : list Event),
    set i true cb s = (Normal b, s') /\
    b = negb (index s' =? index s) /\
    (index s' = index s \/ index s' = i) /\
    total s' = total s /\
    trace s' = trace s ++ evs ++ (if b then [EmitUpdate (index s') (total s')] else []) /\
    Forall (fun e => match e with EmitUpdate _ _ => False | _ => True end) evs.
Proof.
  intros Hi.
  destruct (markers_find i (iterableQueries s) (highlights s)) as [h|] eqn:Hfind.
  - destruct (set_resolved_trace i true cb s h Hi Hfind)
      as (s' & Hrun & Hidx & Htot & _ & _ & _ & _ & Htr).
    exists (negb (index s =? i)), s', (deactivation s ++ activation cb s h).
    split; [exact Hrun|]. rewrite Hidx, Htot. split; [by rewrite Z.eqb_sym|].
    split; [by right|]. split; [reflexivity|]. split; [|apply no_update_in_activity].
    rewrite Htr. destruct (index s =? i); cbn [negb]; by rewrite <- !app_assoc.
  - destruct (set_unresolved i cb s Hi Hfind) as [Hrun _].
    exists false, s, []. split; [exact Hrun|]. rewrite Z.eqb_refl.
    split; [reflexivity|]. split; [by left|]. split; [reflexivity|].
    split; [by rewrite !app_nil_r | constructor].
Qed.

(** X21. For an index that is not negative, [set] returns, and it returns
    [true] exactly when it has changed the cursor's index.  The index it
    leaves is the old one, the requested one, or 0 after the retry; the
    "update" event is emitted exactly when [set] returns [true], as the last
    thing it does, with the new index. *)
Theorem set_returns_true_exactly_for_a_move (i : Z) (d : bool)
  (cb : option ScrollToCallback) (s : State) :
  0 <= i ->
  exists (b : bool) (s' : State) (evs : list Event),
    set i d cb s = (Normal b, s') /\
    b = negb (index s' =? index s) /\
    (index s' = index s \/ index s' = i \/ (d = false /\ index s' = 0)) /\
    total s' = total s /\
    trace s' = trace s ++ evs ++ (if b then [EmitUpdate (index s') (total s')] else []) /\
    Forall (fun e => match e with EmitUpdate _ _ => False | _ => True end) evs.
Proof.
  intros Hi. destruct d.
  { destruct (set_true_move i cb s Hi) as (b & s' & evs & Hrun & Hb & Hidx & Htot & Htr & Hev).
    exists b, s', evs. repeat (split; [done|]). split; [|done].
    destruct Hidx; [by left | right; by left]. }
  destruct (markers_find i (iterableQueries s) (highlights s)) as [h|] eqn:Hfind.
  - destruct (set_resolved_trace i false cb s h Hi Hfind)
      as (s' & Hrun & Hidx & Htot & _ & _ & _ & _ & Htr).
    exists (negb (index s =? i)), s', (deactivation s ++ activation cb s h).
    split; [exact Hrun|]. rewrite Hidx, Htot. split; [by rewrite Z.eqb_sym|].
    split; [right; by left|]. split; [reflexivity|]. split; [|apply no_update_in_activity].
    rewrite Htr. destruct (index s =? i); cbn [negb]; by rewrite <- !app_assoc.
  - destruct (set_unresolved i cb s Hi Hfind) as [_ Hretry].
    destruct (set_true_move 0 None s ltac:(lia))
      as (b & s' & evs & Hrun & Hb & Hidx & Htot & Htr & Hev).
    exists b, s', evs. rewrite Hretry. repeat (split; [done|]). split; [|done].
    destruct Hidx; [by left | right; right; done].
Qed.

Lemma set_returns_true_exactly_for_a_move_witness :
  0 <= 7 /\
  exists (b : bool) (s' : State),
    set 7 false None sample_cursor = (Normal b, s') /\ b = true /\ index s' = 0.
Proof.
  split; [lia|].
  destruct (set_returns_true_exactly_for_a_move 7 false None sample_cursor ltac:(lia))
    as (b & s' & evs & Hrun & _).
  exists b, s'. split; [exact Hrun|].
  pose proof (f_equal fst Hrun) as Hb. pose proof (f_equal snd Hrun) as Hs.
  cbn [fst snd] in Hb, Hs.
  split; [|by rewrite <- Hs]. by injection Hb as <-.
Defined.

(** *** Scrolling *)

(** X22. A [set] without [scrollTo] callback that finds a highlight with
    elements: the first element is scrolled into view exactly when
    [dom.isInView] denies it is in view; no other element is scrolled to. *)
Theorem set_scrolls_only_what_is_out_of_view (i : Z) (d : bool) (s : State)
  (h : Highlight.Highlight) (first : nat) (rest : list nat) :
  0 <= i -> markers_find i (iterableQueries s) (highlights s) = Some h ->
  Highlight.elements h = first :: rest ->
  exists (b : bool) (s' : State) (evs : list Event),
    set i d None s = (Normal b, s') /\ trace s' = trace s ++ evs /\
    active s' = Some h /\
    (ScrollIntoView first ∈ evs <-> in_view s first = false) /\
    (forall e, ScrollIntoView e ∈ evs -> e = first) /\
    (forall e, CallScrollTo e ∉ evs).
Proof.
  intros Hi Hfind Hel.
  destruct (set_resolved_trace i d None s h Hi Hfind)
    as (s' & Hrun & _ & _ & _ & _ & _ & Hact & Htr).
  rewrite Hel in Hact. unfold activation in Htr. rewrite Hel in Htr.
  eexists _, s', _. split; [exact Hrun|]. split; [exact Htr|]. split; [exact Hact|].
  unfold deactivation.
  destruct (active s) as [a|]; destruct (in_view s first); destruct (index s =? i);
    cbn [app]; (split; [|split]);
    try (split; [intros Hin | intros Heq]);
    try (intros e Hin);
    try discriminate; try reflexivity;
    try (exfalso; set_solver);
    try (assert (ScrollIntoView e = ScrollIntoView first) as Heq by set_solver;
         by injection Heq);
    set_solver.
Qed.

Lemma set_scrolls_only_what_is_out_of_view_witness :
  let hidden := snd (constructor sample_highlights (fun _ => false)) in
  (0 <= 1 /\
   markers_find 1 (iterableQueries hidden) (highlights hidden)
     = Some (Highlight.mkHighlight "b" "q" no_range [11%nat])) /\
  exists (b : bool) (s' : State) (evs : list Event),
    set 1 false None hidden = (Normal b, s') /\ trace s' = trace hidden ++ evs /\
    (ScrollIntoView 11%nat ∈ evs <-> in_view hidden 11%nat = false).
Proof.
  intros hidden. split; [split; [lia | reflexivity]|].
  destruct (set_scrolls_only_what_is_out_of_view 1 false hidden
              (Highlight.mkHighlight "b" "q" no_range [11%nat]) 11 []
              ltac:(lia) eq_refl eq_refl)
    as (b & s' & evs & Hrun & Htr & _ & Hscroll & _).
  exists b, s', evs. split; [exact Hrun|]. split; [exact Htr | exact Hscroll].
Defined.

(** X23. A highlight that has no elements can be moved to, but not shown: [set]
    changes the index and emits "update" as for any other, and the highlight
    that was active is made inactive; but no highlight is active afterwards,
    the decorator's [setActive] is not called, and nothing is scrolled. *)
Theorem set_on_a_highlight_without_elements (i : Z) (d : bool)
  (cb : option ScrollToCallback) (s : State) (h : Highlight.Highlight) :
  0 <= i -> markers_find i (iterableQueries s) (highlights s) = Some h ->
  Highlight.elements h = [] ->
  exists s',
    set i d cb s = (Normal (negb (index s =? i)), s') /\
    index s' = i /\ active s' = None /\
    trace s' = trace s ++ match active s with Some a => [SetInactive a] | None => [] end
               ++ (if index s =? i then [] else [EmitUpdate i (total s)]).
Proof.
  intros Hi Hfind Hel.
  destruct (set_resolved_trace i d cb s h Hi Hfind)
    as (s' & Hrun & Hidx & _ & _ & _ & _ & Hact & Htr).
  rewrite Hel in Hact. unfold activation in Htr. rewrite Hel in Htr.
  exists s'. split; [exact Hrun|]. split; [exact Hidx|]. split; [exact Hact|].
  exact Htr.
Qed.

Lemma set_on_a_highlight_without_elements_witness :
  let bare := Highlight.mkHighlight "z" "q" no_range [] in
  let s := snd (constructor [bare] (fun _ => true)) in
  (0 <= 0 /\ markers_find 0 (iterableQueries s) (highlights s) = Some bare /\
   Highlight.elements bare = []) /\
  exists s', set 0 false None s = (Normal true, s') /\ index s' = 0 /\ active s' = None.
Proof.
  intros bare s. split; [split; [lia | split; reflexivity]|].
  destruct (set_on_a_highlight_without_elements 0 false None s bare
              ltac:(lia) eq_refl eq_refl) as (s' & Hrun & Hidx & Hact & _).
  exists s'. split; [exact Hrun|]. split; [exact Hidx | exact Hact].
Defined.

(** *** [next] and [prev] *)

Lemma find_in_sync (s : State) (i : Z) :
  in_sync s ->
  (0 <= i < total s -> is_Some (markers_find i (iterableQueries s) (highlights s))) /\
  (total s <= i -> markers_find i (iterableQueries s) (highlights s) = None).
Proof.
  unfold in_sync, markers_calculateTotalActive, markers_find. intros ->. split.
  - apply TextContentFacts.array_get_in_range.
  - intros Hi. unfold array_get. destruct (i <? 0); [reflexivity|].
    apply lookup_ge_None. lia.
Qed.

Lemma set_keeps_sync (i : Z) (d : bool) (cb : option ScrollToCallback) (s : State)
  (h : Highlight.Highlight) :
  in_sync s -> 0 <= i -> markers_find i (iterableQueries s) (highlights s) = Some h ->
  index (snd (set i d cb s)) = i /\ total (snd (set i d cb s)) = total s /\
  in_sync (snd (set i d cb s)).
Proof.
  intros Hsync Hi Hfind.
  destruct (set_resolved i d cb s h Hi Hfind) as (s' & Hrun & Hidx & Htot & Hhs & Hq).
  rewrite Hrun. cbn [snd]. split; [exact Hidx|]. split; [exact Htot|].
  unfold in_sync. by rewrite Htot, Hhs, Hq.
Qed.

Lemma next_index (s : State) :
  in_sync s -> 0 < total s -> -1 <= index s < total s ->
  index (snd (next s)) = (if index s + 1 <? total s then index s + 1 else 0) /\
  total (snd (next s)) = total s /\ in_sync (snd (next s)).
Proof.
  intros Hsync Htot Hidx. rewrite next_state.
  destruct (find_in_sync s (index s + 1) Hsync) as [Hin Hout].
  destruct (Z.ltb_spec (index s + 1) (total s)) as [Hlt|Hge].
  - destruct Hin as [h Hh]; [lia|]. apply (set_keeps_sync _ _ _ _ h); [done | lia | done].
  - destruct (set_unresolved (index s + 1) None s ltac:(lia) (Hout Hge)) as [_ ->].
    destruct (find_in_sync s 0 Hsync) as [Hin0 _].
    destruct Hin0 as [h Hh]; [lia|]. apply (set_keeps_sync _ _ _ _ h); [done | lia | done].
Qed.

Lemma prev_index (s : State) :
  in_sync s -> 0 < total s -> -1 <= index s < total s ->
  index (snd (prev s)) = (if index s <? 1 then total s - 1 else index s - 1) /\
  total (snd (prev s)) = total s /\ in_sync (snd (prev s)).
Proof.
  intros Hsync Htot Hidx. rewrite prev_state.
  destruct (Z.gtb_spec (total s) 0); [|lia].
  destruct (Z.ltb_spec (index s) 1).
  - destruct (find_in_sync s (total s - 1) Hsync) as [[h Hh] _]; [lia|].
    apply (set_keeps_sync _ _ _ _ h); [done | lia | done].
  - destruct (find_in_sync s (index s - 1) Hsync) as [[h Hh] _]; [lia|].
    apply (set_keeps_sync _ _ _ _ h); [done | lia | done].
Qed.

(** X24. On a cursor whose [total] is the registry's count and is not 0:
    [next] moves to the following index and from the last one to 0, [prev]
    to the preceding index and from 0, or from no position at all, to the
    last one; so from any position [prev] undoes [next], and [next] undoes
    [prev]. *)
Theorem next_and_prev_walk_the_ring (s : State) :
  in_sync s -> 0 < total s -> -1 <= index s < total s ->
  index (snd (next s)) = (if index s + 1 <? total s then index s + 1 else 0) /\
  index (snd (prev s)) = (if index s <? 1 then total s - 1 else index s - 1) /\
  (0 <= index s ->
   index (snd (prev (snd (next s)))) = index s /\
   index (snd (next (snd (prev s)))) = index s).
Proof.
  intros Hsync Htot Hidx.
  destruct (next_index s Hsync Htot Hidx) as (Hn & Hnt & Hns).
  destruct (prev_index s Hsync Htot Hidx) as (Hp & Hpt & Hps).
  split; [exact Hn|]. split; [exact Hp|]. intros H0. split.
  - destruct (prev_index (snd (next s)) Hns) as (Hpn & _); [lia| |].
    + rewrite Hn, Hnt. destruct (Z.ltb_spec (index s + 1) (total s)); lia.
    + rewrite Hpn, Hn, Hnt.
      destruct (Z.ltb_spec (index s + 1) (total s));
        [destruct (Z.ltb_spec (index s + 1) 1) | destruct (Z.ltb_spec 0 1)]; lia.
  - destruct (next_index (snd (prev s)) Hps) as (Hnp & _); [lia| |].
    + rewrite Hp, Hpt. destruct (Z.ltb_spec (index s) 1); lia.
    + rewrite Hnp, Hp, Hpt.
      destruct (Z.ltb_spec (index s) 1);
        [destruct (Z.ltb_spec (total s - 1 + 1) (total s))
        | destruct (Z.ltb_spec (index s - 1 + 1) (total s))]; lia.
Qed.

Lemma next_and_prev_walk_the_ring_witness :
  let s := set_index 2 sample_cursor in
  (in_sync s /\ 0 < total s /\ -1 <= index s < total s) /\
  index (snd (next s)) = 0 /\ index (snd (prev s)) = 1 /\
  index (snd (prev (snd (next s)))) = 2.
Proof.
  intros s.
  assert (in_sync s) as Hsync by reflexivity.
  assert (0 < total s) as Htot by reflexivity.
  assert (-1 <= index s < total s) as Hidx by (split; [discriminate | reflexivity]).
  split; [by repeat split|].
  destruct (next_and_prev_walk_the_ring s Hsync Htot Hidx) as (Hn & Hp & Hround).
  split; [exact Hn|]. split; [exact Hp|]. apply Hround. discriminate.
Defined.

(** *** [update], [clear] and [setIterableQueries] *)

(** X25. [update] takes over the registry's count and emits "update" only when
    the count has changed or the call is forced; a second [update] right
    after it emits nothing and changes nothing. *)
Theorem update_emits_only_on_a_change (force : bool) (s : State) :
  let t := markers_calculateTotalActive (iterableQueries s) (highlights s) in
  exists s',
    update force s = (Normal tt, s') /\
    total s' = t /\ index s' = index s /\ active s' = active s /\
    trace s' = trace s ++ (if force || negb (t =? total s)
                           then [EmitUpdate (index s) t] else []) /\
    update false s' = (Normal tt, s').
Proof.
  intros t. eexists. split; [apply update_run|]. fold t.
  destruct (force || negb (t =? total s)) eqn:Hflag.
  - cbn [total index active trace]. repeat (split; [reflexivity|]).
    rewrite update_run. cbn [iterableQueries highlights total]. fold t.
    by rewrite Z.eqb_refl.
  - apply orb_false_iff in Hflag as [_ Heq].
    apply negb_false_iff, Z.eqb_eq in Heq.
    split; [by rewrite <- Heq|]. repeat (split; [reflexivity|]).
    split; [by rewrite app_nil_r|].
    rewrite update_run. fold t. by rewrite Heq, Z.eqb_refl.
Qed.

(** X26. [setIterableQueries] starts the cursor over: whatever position and
    active highlight it had, the index is [-1] and no highlight is active,
    the one that was active having been made inactive; the total is the
    registry's count under the new filter; the events are "update" (always,
    also when the total is the same), "clear" and "setiterable", in this
    order.  A [next] after it moves to index 0 whenever the filter selects
    a highlight. *)
Theorem setIterableQueries_starts_over (queries : option (list string)) (s : State) :
  let t := markers_calculateTotalActive queries (highlights s) in
  exists s',
    setIterableQueries queries s = (Normal tt, s') /\
    index s' = -1 /\ active s' = None /\ iterableQueries s' = queries /\ total s' = t /\
    trace s' = trace s ++ match active s with Some a => [SetInactive a] | None => [] end
               ++ [EmitUpdate (-1) t; EmitClear; EmitSetiterable queries] /\
    (0 < t -> index (snd (next s')) = 0).
Proof.
  intros t. eexists. split; [apply setIterableQueries_run|].
  cbn [index active iterableQueries total trace]. fold t.
  repeat (split; [reflexivity|]). intros Ht.
  match goal with |- index (snd (next ?x)) = 0 => set (s' := x) end.
  destruct (next_index s') as (Hn & _); [reflexivity | exact Ht | |].
  - cbn [index total s']. fold t. lia.
  - rewrite Hn. cbn [index total s']. fold t.
    destruct (Z.ltb_spec (-1 + 1) t); lia.
Qed.

Lemma setIterableQueries_starts_over_witness :
  let t := markers_calculateTotalActive (Some ["q"%string]) (highlights sample_cursor) in
  0 < t /\
  exists s',
    setIterableQueries (Some ["q"%string]) sample_cursor = (Normal tt, s') /\
    index (snd (next s')) = 0.
Proof.
  intros t. assert (0 < t) as Ht by reflexivity. split; [exact Ht|].
  destruct (setIterableQueries_starts_over (Some ["q"%string]) sample_cursor)
    as (s' & Hrun & _ & _ & _ & _ & _ & Hnext).
  exists s'. split; [exact Hrun | by apply Hnext].
Defined.

End CursorLaws.

(** ** Finder.js and TextFinder.js *)

Module FinderLaws.
Import Dom Finder TextContentFacts.

(** [getAt_] on an offset inside the text of a well-formed index: the
    place it looks at, the marker object there, and the descriptor. *)
Lemma getAt_run (c : TextContent.State) (l : list TextContent.Marker) (o : Z) :
  TextContent.well_formed c l -> 0 <= o < jslength (TextContent.text c) ->
  exists (i : nat) (r : nat) (m : TextContent.Marker),
    getAt_ c o = Normal (descriptorAbs r m o) /\
    l !! i = Some m /\ TextContent.markers c !! i = Some r /\
    TextContent.store c !! r = Some m /\
    TextContent.offset m <= o < TextContent.offset m + TextContent.node_length m.
Proof.
  intros Hwf Ho. pose proof (TextContent.wf_view _ _ Hwf) as Hv.
  rewrite (TextContent.wf_text _ _ Hwf) in Ho.
  assert (l <> []) as Hne.
  { intros ->. change (TextContent.total_length []) with 0 in Ho. lia. }
  destruct (indexOf_well_formed c l o Hwf Hne ltac:(lia)) as (i & m & Hi & Hm & Hle & Hin & _).
  destruct (TextContentLaws.at_in_range c (Z.of_nat i)) as (r & Hat & Hr).
  { apply lookup_lt_Some in Hm. rewrite (view_length c l Hv). lia. }
  rewrite Nat2Z.id in Hr.
  assert (TextContent.store c !! r = Some m) as Hst.
  { rewrite (view_lookup c l i Hv), Hr in Hm. exact Hm. }
  exists i, r, m. unfold getAt_. rewrite Hi.
  destruct (Z.eqb_spec (Z.of_nat i) (-1)); [lia|].
  rewrite Hat, Hst. split; [reflexivity|]. split; [exact Hm|]. split; [exact Hr|].
  split; [reflexivity|]. split; [exact Hle | apply Hin; lia].
Qed.

(** X27. [getAt_] turns an offset inside the text of a well-formed index into a
    descriptor of the place it names: its marker is a marker of the index,
    the offset is inside the marker's node, and counted from the start of
    the text the place is the offset asked for. *)
Theorem getAt_names_the_offset (c : TextContent.State) (l : list TextContent.Marker)
  (o : Z) :
  TextContent.well_formed c l -> 0 <= o < jslength (TextContent.text c) ->
  exists (d : Highlight.RangeDescriptor) (m : TextContent.Marker),
    getAt_ c o = Normal d /\
    Highlight.marker d ∈ TextContent.markers c /\
    TextContent.store c !! Highlight.marker d = Some m /\
    0 <= Highlight.offset d < TextContent.node_length m /\
    TextContent.offset m + Highlight.offset d = o.
Proof.
  intros Hwf Ho.
  destruct (getAt_run c l o Hwf Ho) as (i & r & m & Hrun & _ & Hr & Hst & Hin).
  exists (descriptorAbs r m o), m. split; [exact Hrun|].
  cbn [descriptorAbs Highlight.marker Highlight.offset].
  split; [by apply list_elem_of_lookup_2 in Hr|]. split; [exact Hst|]. lia.
Qed.

Lemma getAt_names_the_offset_witness :
  exists l,
    (TextContent.well_formed TextContent.sample_index l /\
     0 <= 10 < jslength (TextContent.text TextContent.sample_index)) /\
    getAt_ TextContent.sample_index 10
    = Normal {| Highlight.marker := 1; Highlight.offset := 1 |}.
Proof.
  destruct (parse_well_formed
              (TextContent.constructor TextContent.sample_root 6 "development") eq_refl)
    as [l Hwf].
  assert (0 <= 10 < jslength (TextContent.text TextContent.sample_index)) as Ho
    by (vm_compute; split; congruence).
  exists l. split; [split; [exact Hwf | exact Ho]|].
  destruct (getAt_names_the_offset TextContent.sample_index l 10 Hwf Ho)
    as (d & m & Hrun & _).
  reflexivity.
Defined.

(** X28. [next] on a hit that lies inside the text of a well-formed index, with
    at least one character: it returns a range and moves on by one hit; the
    start descriptor names the first character of the hit and the end
    descriptor its last one, each inside the node of its marker; and the end
    descriptor is the one [getAt_] gives for the last character, also when
    [next] has derived it from the start descriptor without a lookup. *)
Theorem next_resolves_a_hit (s : State) (l : list TextContent.Marker) (hit : Match) :
  TextContent.well_formed (content s) l ->
  array_get (results s) (current s) = Some hit ->
  0 <= index hit -> 1 <= length hit ->
  index hit + length hit <= jslength (TextContent.text (content s)) ->
  exists (r : Highlight.TextRange) (s' : State) (ms me : TextContent.Marker),
    next s = (Normal (Some r), s') /\
    current s' = current s + 1 /\ content s' = content s /\ results s' = results s /\
    TextContent.store (content s) !! Highlight.marker (Highlight.start r) = Some ms /\
    TextContent.offset ms + Highlight.offset (Highlight.start r) = index hit /\
    0 <= Highlight.offset (Highlight.start r) < TextContent.node_length ms /\
    TextContent.store (content s) !! Highlight.marker (Highlight.end' r) = Some me /\
    TextContent.offset me + Highlight.offset (Highlight.end' r)
      = index hit + length hit - 1 /\
    0 <= Highlight.offset (Highlight.end' r) < TextContent.node_length me /\
    getAt_ (content s) (index hit + length hit - 1) = Normal (Highlight.end' r).
Proof.
  intros Hwf Hhit Hidx Hlen Hend.
  destruct (getAt_run (content s) l (index hit) Hwf ltac:(lia))
    as (i & r & ms & Hstart & Hli & Hri & Hst & Hin).
  destruct (getAt_run (content s) l (index hit + length hit - 1) Hwf ltac:(lia))
    as (j & r' & me & Hlast & Hlj & Hrj & Hst' & Hin').
  unfold next.
  assert ((current s >=? Z.of_nat (List.length (results s))) = false) as ->.
  { apply array_get_Some in Hhit as [H0 Hhit]. apply lookup_lt_Some in Hhit.
    destruct (Z.geb_spec (current s) (Z.of_nat (List.length (results s)))); [lia | done]. }
  rewrite Hhit, Hstart. cbn [descriptorAbs Highlight.marker Highlight.offset].
  rewrite Hst. fold (TextContent.node_length ms). cbv zeta.
  destruct (Z.leb_spec (index hit - TextContent.offset ms + length hit)
              (TextContent.node_length ms)) as [Hfits|Hover].
  - (* the end is derived from the start *)
    assert (i = j) as <-.
    { apply (containing_unique l i j ms me (index hit + length hit - 1)
               (TextContent.wf_contiguous _ _ Hwf) (TextContent.wf_nonempty _ _ Hwf)
               Hli Hlj); lia. }
    assert (me = ms) as -> by congruence. assert (r' = r) as -> by congruence.
    eexists _, _, ms, ms. split; [reflexivity|].
    cbn [current content results Highlight.start Highlight.end' Highlight.marker
         Highlight.offset descriptorAbs].
    repeat (split; [first [done | lia]|]).
    rewrite Hlast. unfold descriptorAbs. f_equal. f_equal. lia.
  - rewrite Hlast.
    eexists _, _, ms, me. split; [reflexivity|].
    cbn [current content results Highlight.start Highlight.end' Highlight.marker
         Highlight.offset descriptorAbs].
    repeat (split; [first [done | lia]|]). reflexivity.
Qed.

Lemma next_resolves_a_hit_witness :
  let s := {| content := TextContent.sample_index;
              results := [ {| length := 8; index := 5 |} ]; current := 0 |} in
  exists l,
    (TextContent.well_formed (content s) l /\
     array_get (results s) (current s) = Some {| length := 8; index := 5 |} /\
     0 <= 5 /\ 1 <= 8 /\ 5 + 8 <= jslength (TextContent.text (content s))) /\
    exists (r : Highlight.TextRange) (s' : State),
      next s = (Normal (Some r), s') /\ current s' = 1.
Proof.
  intros s.
  destruct (parse_well_formed
              (TextContent.constructor TextContent.sample_root 6 "development") eq_refl)
    as [l Hwf].
  assert (5 + 8 <= jslength (TextContent.text (content s))) as Hend
    by (vm_compute; congruence).
  exists l.
  refine (conj (conj Hwf (conj eq_refl (conj _ (conj _ Hend)))) _); [lia | lia |].
  destruct (next_resolves_a_hit s l {| length := 8; index := 5 |} Hwf eq_refl
              ltac:(cbn; lia) ltac:(cbn; lia) Hend)
    as (r & s' & ms & me & Hrun & Hcur & _).
  exists r, s'. split; [exact Hrun | exact Hcur].
Defined.

(** X29. Highlighting does not put later lookups out of order.  After [surround]
    has wrapped a range inside one text node, [getAt_] on the index as it
    is then still turns every offset inside the text into a descriptor of
    the place it names, in the nodes the tree has then. *)
Theorem lookups_survive_a_highlight (s : HighlightRenderer.State)
  (h : Highlight.Highlight) (p : Path) (i : nat) (tag : string) (hl : bool)
  (B A : list Node) (ma me : TextContent.Marker) (l : list TextContent.Marker) (o : Z) :
  let c := HighlightRenderer.content s in
  let rangeStart := Highlight.start (Highlight.range h) in
  let rangeEnd := Highlight.end' (Highlight.range h) in
  let so := Highlight.offset rangeStart in
  let eo := Highlight.offset rangeEnd in
  TextContent.well_formed c l ->
  TextContent.root c = plug p (Element i tag hl (B ++ Text (TextContent.node ma) :: A)) ->
  tree_ok (TextContent.next_id c) (TextContent.root c) ->
  Highlight.marker rangeStart ∈ TextContent.markers c ->
  TextContent.store c !! Highlight.marker rangeStart = Some ma ->
  TextContent.store c !! Highlight.marker rangeEnd = Some me ->
  nid (TextContent.node me) = nid (TextContent.node ma) ->
  0 <= so -> so <= eo -> eo < jslength (nodeValue (TextContent.node ma)) ->
  0 <= o < jslength (TextContent.text c) ->
  exists (e : nat) (s' : HighlightRenderer.State) (d : Highlight.RangeDescriptor)
         (m : TextContent.Marker),
    HighlightRenderer.surround h s = Some (Normal [e], s') /\
    getAt_ (HighlightRenderer.content s') o = Normal d /\
    Highlight.marker d ∈ TextContent.markers (HighlightRenderer.content s') /\
    TextContent.store (HighlightRenderer.content s') !! Highlight.marker d = Some m /\
    0 <= Highlight.offset d < TextContent.node_length m /\
    TextContent.offset m + Highlight.offset d = o.
Proof.
  intros c rangeStart rangeEnd so eo Hwf Hroot Hok Hin Hma Hme Hsame H0 H1 H2 Ho.
  destruct (HighlightRendererLaws.surround_one_node s h p i tag hl B A ma me l
              Hwf Hroot Hok Hin Hma Hme Hsame H0 H1 H2)
    as (e & mid & before & after & s' & l' & Hrun & _ & _ & _ & Htext & Hwf' & _).
  fold c in Htext.
  destruct (getAt_run (HighlightRenderer.content s') l' o Hwf' ltac:(by rewrite Htext))
    as (k & r & m & Hget & _ & Hr & Hst & Hino).
  exists e, s', (descriptorAbs r m o), m. split; [exact Hrun|]. split; [exact Hget|].
  cbn [descriptorAbs Highlight.marker Highlight.offset].
  split; [by apply list_elem_of_lookup_2 in Hr|]. split; [exact Hst|]. lia.
Qed.

Lemma lookups_survive_a_highlight_witness :
  let h := {| Highlight.id := "h2"; Highlight.queryName := "q";
              Highlight.range :=
                {| Highlight.start := {| Highlight.marker := 0; Highlight.offset := 1 |};
                   Highlight.end' := {| Highlight.marker := 0; Highlight.offset := 1 |} |};
              Highlight.elements := [] |} in
  exists (e : nat) (s' : HighlightRenderer.State) (d : Highlight.RangeDescriptor)
         (m : TextContent.Marker),
    HighlightRenderer.surround h HighlightRenderer.three_state = Some (Normal [e], s') /\
    getAt_ (HighlightRenderer.content s') 2 = Normal d /\
    TextContent.store (HighlightRenderer.content s') !! Highlight.marker d = Some m /\
    TextContent.offset m + Highlight.offset d = 2.
Proof.
  intros h.
  assert (tree_ok (TextContent.next_id (HighlightRenderer.content HighlightRenderer.three_state))
            (TextContent.root (HighlightRenderer.content HighlightRenderer.three_state)))
    as Hok.
  { split; [apply (bool_decide_unpack _); vm_compute; exact I|].
    apply (bool_decide_unpack _). vm_compute. exact I. }
  destruct (parse_well_formed
              (TextContent.constructor HighlightRenderer.three_root 7 "development") eq_refl)
    as [l Hwf].
  set (ta := {| nid := 2; nodeValue := TextContent.js "abc" |}).
  destruct (lookups_survive_a_highlight HighlightRenderer.three_state h
              (Below 0 "DIV" false [] Here []) 1 "P" false []
              [Element 3 "BR" false [];
               Text {| nid := 4; nodeValue := TextContent.js "def" |};
               Element 5 "I" false [];
               Text {| nid := 6; nodeValue := TextContent.js "ghi" |}]
              {| TextContent.node := ta; TextContent.offset := 0 |}
              {| TextContent.node := ta; TextContent.offset := 0 |} l 2
              Hwf eq_refl Hok)
    as (e & s' & d & m & Hrun & Hget & _ & Hst & _ & Hsum);
    try reflexivity; try lia.
  - apply (bool_decide_unpack _). vm_compute. exact I.
  - vm_compute. congruence.
  - vm_compute. split; congruence.
  - exists e, s', d, m. split; [exact Hrun|]. split; [exact Hget|].
    split; [exact Hst | exact Hsum].
Defined.

End FinderLaws.

(** ** createHighlighter.js *)

Module CreateHighlighterLaws.
Import Dom CreateHighlighter.

(** X30. Whenever [createHighlighter] returns, the container of the highlighter
    is an element: the node it was called with, the [container] of the
    options it was called with, or [document.body] when it was called with
    nothing; the id generator and the decorator are those of the options,
    and new ones where the options have none.  Options without [container]
    do not fall back on [document.body]: the call throws, as it does for a
    text node. *)
Theorem createHighlighter_needs_an_element {G D : Type} (new_G : G) (new_D : D)
  (body : option Node) :
  (forall (arg : Argument) (r : Highlighter),
     createHighlighter new_G new_D body arg = Normal r ->
     (exists i tag hl ch, h_container r = Element i tag hl ch) /\
     match arg with
     | Nothing => body = Some (h_container r) /\ h_idGenerator r = new_G /\
                  h_decorator r = new_D
     | NoObject => False
     | ANode n => n = h_container r /\ h_idGenerator r = new_G /\ h_decorator r = new_D
     | SomeOptions o =>
         container o = Some (h_container r) /\
         h_idGenerator r = default new_G (idGenerator o) /\
         h_decorator r = default new_D (decorator o)
     end) /\
  (forall o : Options,
     container o = None ->
     createHighlighter new_G new_D body (SomeOptions o)
     = Throw (JsError "Container must be an HTML element node")) /\
  (forall t : TextNode,
     createHighlighter new_G new_D body (ANode (Text t))
     = Throw (JsError "Container must be an HTML element node")).
Proof.
  split; [|split].
  - intros arg r. unfold createHighlighter.
    destruct arg as [| |n|o]; cbn [container idGenerator decorator default from_option].
    + destruct body as [[t|i tag hl ch]|]; try discriminate.
      intros Hr. injection Hr as <-. cbn. split; [by eexists _, _, _, _ | done].
    + discriminate.
    + destruct n as [t|i tag hl ch]; try discriminate.
      intros Hr. injection Hr as <-. cbn. split; [by eexists _, _, _, _ | done].
    + destruct (container o) as [[t|i tag hl ch]|]; try discriminate.
      intros Hr. injection Hr as <-. cbn. split; [by eexists _, _, _, _ | done].
  - intros o Ho. unfold createHighlighter. by rewrite Ho.
  - reflexivity.
Qed.

Lemma createHighlighter_needs_an_element_witness :
  let o := {| container := Some TextContent.sample_root; idGenerator := Some 7%nat;
              decorator := None |} in
  let r := {| h_container := TextContent.sample_root; h_idGenerator := 7%nat;
              h_decorator := true |} in
  createHighlighter 0%nat true None (SomeOptions o) = Normal r /\
  container o = Some (h_container r) /\
  h_idGenerator r = default 0%nat (idGenerator o) /\
  h_decorator r = default true (decorator o).
Proof.
  intros o r. split; [reflexivity|].
  apply (proj1 (createHighlighter_needs_an_element 0%nat true None) (SomeOptions o) r).
  reflexivity.
Defined.

End CreateHighlighterLaws.
